(** * Excel-to-Quote: risk detection and row normalisation engine

    A shallow embedding of the TypeScript sources
    ([lib/excelParser.ts], [lib/riskDetector.ts], [lib/excelExport.ts],
    [lib/limits.ts], [app/actions/processExcel.ts] and the chat route with
    its four row-mutation tools), followed by the properties the
    specification states about them.

    Conventions of the embedding:
    - a JavaScript string is its sequence of UTF-16 code units;
    - a JavaScript number is [NaN], an infinity, or a finite decimal
      [m * 10^e]; every observation on numbers ([===], [<], [String])
      goes through the denoted value, so the pair [(m, e)] is only a
      name for it.  Decimal literals are taken at their exact value.
      The program works on doubles: it rounds a literal of more than
      15 significant digits, reads one beyond the range of doubles as
      an infinity and one below it as 0, none of which is modelled.
      The model and the program agree on the decimals singled out by
      [double_exact], and every statement that depends on the value
      read from a text is made for those;
    - arrays of rows live in a store indexed by address, so that
      in-place assignment and fresh allocation can be told apart. *)

From Stdlib Require Import ZArith NArith List String Ascii Bool Lia.
From Stdlib Require Import Permutation Sorted.
From Stdlib Require DecimalFacts DecimalPos DecimalN.
From stdpp Require Import base option list.
Import ListNotations.

Local Open Scope N_scope.

(** ** Strings *)

Definition char := N.
Definition jsstring := list char.

Definition char_eqb (a b : char) : bool := N.eqb a b.

Fixpoint str_eqb (a b : jsstring) : bool :=
  match a, b with
  | [], [] => true
  | x :: a', y :: b' => char_eqb x y && str_eqb a' b'
  | _, _ => false
  end.

(** Source literals are written as UTF-8 text and decoded to code units. *)
Fixpoint bytes_of (s : string) : list N :=
  match s with
  | EmptyString => []
  | String a s' => N_of_ascii a :: bytes_of s'
  end.

Definition utf16_of_code_point (cp : N) : list char :=
  if cp <? 65536 then [cp]
  else let c := cp - 65536 in [55296 + c / 1024; 56320 + c mod 1024].

Fixpoint utf8_code_points (bs : list N) : list N :=
  match bs with
  | [] => []
  | b0 :: r0 =>
      if b0 <? 128 then b0 :: utf8_code_points r0
      else match r0 with
      | [] => [b0]
      | b1 :: r1 =>
          if b0 <? 224 then ((b0 - 192) * 64 + (b1 - 128)) :: utf8_code_points r1
          else match r1 with
          | [] => [b0; b1]
          | b2 :: r2 =>
              if b0 <? 240
              then ((b0 - 224) * 4096 + (b1 - 128) * 64 + (b2 - 128)) :: utf8_code_points r2
              else match r2 with
              | [] => [b0; b1; b2]
              | b3 :: r3 =>
                  ((b0 - 240) * 262144 + (b1 - 128) * 4096 + (b2 - 128) * 64 + (b3 - 128))
                    :: utf8_code_points r3
              end
          end
      end
  end.

Definition js (s : string) : jsstring :=
  concat (map utf16_of_code_point (utf8_code_points (bytes_of s))).

(** WhiteSpace and LineTerminator code units: the class [\s], and the
    characters removed by [trim] and skipped by [parseFloat]. *)
Definition is_space (c : char) : bool :=
  existsb (N.eqb c) [9; 10; 11; 12; 13; 32; 160; 5760; 8232; 8233; 8239; 8287; 12288; 65279]
  || ((8192 <=? c) && (c <=? 8202)).

Definition is_digit (c : char) : bool := (48 <=? c) && (c <=? 57).
Definition is_upper (c : char) : bool := (65 <=? c) && (c <=? 90).
Definition is_lower (c : char) : bool := (97 <=? c) && (c <=? 122).
(** [\w] *)
Definition is_word (c : char) : bool :=
  is_digit c || is_upper c || is_lower c || (c =? 95).

Fixpoint trimStart (s : jsstring) : jsstring :=
  match s with
  | c :: s' => if is_space c then trimStart s' else s
  | [] => []
  end.

Definition trimEnd (s : jsstring) : jsstring := rev (trimStart (rev s)).

(** [String.prototype.trim] *)
Definition trim (s : jsstring) : jsstring := trimEnd (trimStart s).

Fixpoint startsWith (p s : jsstring) : bool :=
  match p, s with
  | [], _ => true
  | a :: p', b :: s' => char_eqb a b && startsWith p' s'
  | _ :: _, [] => false
  end.

(** [String.prototype.includes] *)
Fixpoint includes (s p : jsstring) : bool :=
  startsWith p s ||
  match s with
  | [] => false
  | _ :: s' => includes s' p
  end.

(** ** Numbers *)

Inductive number : Type :=
| NaN : number
| Inf (negative : bool) : number
| Fin (m : Z) (e : Z) : number.

Definition of_Z (z : Z) : number := Fin z 0.
Definition of_nat (n : nat) : number := Fin (Z.of_nat n) 0.

(** Comparison of [m1 * 10^e1] with [m2 * 10^e2] after scaling both to
    the smaller exponent. *)
Definition fin_compare (m1 e1 m2 e2 : Z) : comparison :=
  let e := Z.min e1 e2 in
  Z.compare (m1 * 10 ^ (e1 - e))%Z (m2 * 10 ^ (e2 - e))%Z.

Definition num_compare (a b : number) : option comparison :=
  match a, b with
  | NaN, _ | _, NaN => None
  | Inf s1, Inf s2 =>
      Some (if eqb s1 s2 then Eq else if s1 then Lt else Gt)
  | Inf s, Fin _ _ => Some (if s then Lt else Gt)
  | Fin _ _, Inf s => Some (if s then Gt else Lt)
  | Fin m1 e1, Fin m2 e2 => Some (fin_compare m1 e1 m2 e2)
  end.

(** [a === b] on numbers *)
Definition num_eqb (a b : number) : bool :=
  match num_compare a b with Some Eq => true | _ => false end.
(** [a > b] *)
Definition num_gtb (a b : number) : bool :=
  match num_compare a b with Some Gt => true | _ => false end.
(** [a >= b] *)
Definition num_geb (a b : number) : bool :=
  match num_compare a b with Some Gt | Some Eq => true | _ => false end.

Definition isNaN (a : number) : bool :=
  match a with NaN => true | _ => false end.

(** SameValueZero, the equality of [Array.prototype.includes] *)
Definition same_value_zero (a b : number) : bool :=
  (isNaN a && isNaN b) || num_eqb a b.

(** [Number.isInteger] *)
Definition isInteger (a : number) : bool :=
  match a with
  | Fin m e => (0 <=? e)%Z || (m mod 10 ^ (- e) =? 0)%Z
  | _ => false
  end.

(** *** Number to string *)

Fixpoint digits_of_uint (u : Decimal.uint) : list char :=
  match u with
  | Decimal.Nil => []
  | Decimal.D0 u' => 48 :: digits_of_uint u'
  | Decimal.D1 u' => 49 :: digits_of_uint u'
  | Decimal.D2 u' => 50 :: digits_of_uint u'
  | Decimal.D3 u' => 51 :: digits_of_uint u'
  | Decimal.D4 u' => 52 :: digits_of_uint u'
  | Decimal.D5 u' => 53 :: digits_of_uint u'
  | Decimal.D6 u' => 54 :: digits_of_uint u'
  | Decimal.D7 u' => 55 :: digits_of_uint u'
  | Decimal.D8 u' => 56 :: digits_of_uint u'
  | Decimal.D9 u' => 57 :: digits_of_uint u'
  end.

(** Decimal digits of a natural number, most significant first. *)
Definition digits_of_N (n : N) : list char := digits_of_uint (N.to_uint n).

Fixpoint strip_zeros (rev_digits : list char) (e : Z) : list char * Z :=
  match rev_digits with
  | 48 :: r => strip_zeros r (e + 1)%Z
  | _ => (rev_digits, e)
  end.

Definition int_to_string (z : Z) : jsstring :=
  (if (z <? 0)%Z then js "-" else []) ++ digits_of_N (Z.abs_N z).

(** Number::toString for radix 10, on the digits [s] of the value and
    the position [n] of its decimal point ([k] digits, value
    [0.s * 10^n]). *)
Definition finite_to_string (m e : Z) : jsstring :=
  if (m =? 0)%Z then js "0" else
  let '(rd, e') := strip_zeros (rev (digits_of_N (Z.abs_N m))) e in
  let s := rev rd in
  let k := Z.of_nat (length s) in
  let n := (k + e')%Z in
  let sign := if (m <? 0)%Z then js "-" else [] in
  let zeros (z : Z) := repeat 48 (Z.to_nat z) in
  sign ++
  if ((k <=? n) && (n <=? 21))%Z then s ++ zeros (n - k)%Z
  else if ((0 <? n) && (n <=? 21))%Z then
    firstn (Z.to_nat n) s ++ js "." ++ skipn (Z.to_nat n) s
  else if ((-6 <? n) && (n <=? 0))%Z then js "0." ++ zeros (- n)%Z ++ s
  else
    let ex := (if (n - 1 <? 0)%Z then js "-" else js "+")
              ++ digits_of_N (Z.abs_N (n - 1)) in
    match s with
    | [d] => [d] ++ js "e" ++ ex
    | d :: ds => [d] ++ js "." ++ ds ++ js "e" ++ ex
    | [] => []
    end.

Definition numToString (a : number) : jsstring :=
  match a with
  | NaN => js "NaN"
  | Inf false => js "Infinity"
  | Inf true => js "-Infinity"
  | Fin m e => finite_to_string m e
  end.

(** *** parseFloat *)

Fixpoint span_digits (s : jsstring) : jsstring * jsstring :=
  match s with
  | c :: s' =>
      if is_digit c then let '(d, r) := span_digits s' in (c :: d, r)
      else ([], s)
  | [] => ([], [])
  end.

Definition digits_value (d : jsstring) : Z :=
  fold_left (fun acc c => (acc * 10 + Z.of_N (c - 48))%Z) d 0%Z.

(** ExponentPart: [e] or [E], an optional sign and at least one digit;
    absent or incomplete exponents contribute nothing. *)
Definition parse_exponent (s : jsstring) : Z :=
  match s with
  | c :: s' =>
      if (c =? 101) || (c =? 69) then
        let '(neg, s'') :=
          match s' with
          | 43 :: t => (false, t)
          | 45 :: t => (true, t)
          | _ => (false, s')
          end in
        let '(d, _) := span_digits s'' in
        match d with
        | [] => 0%Z
        | _ => if neg then (- digits_value d)%Z else digits_value d
        end
      else 0%Z
  | [] => 0%Z
  end.

(** The longest prefix that is a StrUnsignedDecimalLiteral. *)
Definition parse_unsigned (s : jsstring) : option (Z * Z) :=
  let '(ip, r) := span_digits s in
  match r with
  | 46 :: r' =>
      let '(fp, r'') := span_digits r' in
      match ip, fp with
      | [], [] => None
      | _, _ => Some (digits_value (ip ++ fp),
                      (parse_exponent r'' - Z.of_nat (length fp))%Z)
      end
  | _ =>
      match ip with
      | [] => None
      | _ => Some (digits_value ip, parse_exponent r)
      end
  end.

(** The number a text begins with, at the exact value of its
    literal: what the program reads whenever that value is
    [double_exact] (see there). *)
Definition parseFloat (input : jsstring) : number :=
  let s := trimStart input in
  let '(neg, s') :=
    match s with
    | 43 :: t => (false, t)
    | 45 :: t => (true, t)
    | _ => (false, s)
    end in
  if startsWith (js "Infinity") s' then Inf neg
  else match parse_unsigned s' with
       | Some (m, e) => Fin (if neg then (- m)%Z else m) e
       | None => NaN
       end.

(** The decimals on which the model and the doubles of the program
    agree: at most 15 significant digits and a magnitude within the
    normal range of doubles.  Such a decimal read as a double and
    printed again is the same decimal, two of them are the same double
    only when they are equal, and their order is the order of their
    doubles.  [NaN] and the infinities stand for themselves. *)
Definition double_exact (a : number) : bool :=
  match a with
  | Fin m e => (Z.abs m <? 10 ^ 15)%Z && (-300 <=? e)%Z && (e <=? 290)%Z
  | _ => true
  end.

(** ** Untyped cell values *)

Inductive JsValue : Type :=
| VUndefined : JsValue
| VNull : JsValue
| VBool (b : bool) : JsValue
| VNum (n : number) : JsValue
| VStr (s : jsstring) : JsValue.

(** [String(value)] *)
Definition ToString (v : JsValue) : jsstring :=
  match v with
  | VUndefined => js "undefined"
  | VNull => js "null"
  | VBool true => js "true"
  | VBool false => js "false"
  | VNum n => numToString n
  | VStr s => s
  end.

(** [s.replace(/[...]/g, '')] for a character class *)
Definition remove_class (cls : char -> bool) (s : jsstring) : jsstring :=
  List.filter (fun c => negb (cls c)) s.

(** ** Value normalizers ([lib/excelParser.ts]) *)

(** [value === null || value === undefined || value === ''] *)
Definition is_blank (v : JsValue) : bool :=
  match v with
  | VNull | VUndefined | VStr [] => true
  | _ => false
  end.

(** [[,\s]] *)
Definition quantity_noise (c : char) : bool := (c =? 44) || is_space c.

(** [[$€£¥₩,\s]] *)
Definition price_noise (c : char) : bool :=
  existsb (N.eqb c) [36; 8364; 163; 165; 8361; 44] || is_space c.

(** [[()]] *)
Definition paren (c : char) : bool := (c =? 40) || (c =? 41).

Definition parseQuantity (value : JsValue) : option number :=
  if is_blank value then None
  else
    let strValue := remove_class quantity_noise (ToString value) in
    let num := parseFloat strValue in
    if isNaN num then None else Some num.

Definition parsePrice (value : JsValue) : option number :=
  if is_blank value then None
  else
    let strValue :=
      remove_class paren (remove_class price_noise (ToString value)) in
    let num := parseFloat strValue in
    if isNaN num then None else Some num.

(** ** Regular expressions

    The backtracking matcher of the language, restricted to the
    constructs the sources use.  With the [i] flag two code units match
    when their canonical forms agree; every literal and class member of
    the patterns below is ASCII (or has no case mapping), and no
    non-ASCII code unit canonicalises to an ASCII one, so upper-casing
    the ASCII letters is exactly that comparison. *)

Inductive class_item : Type :=
| CChar (c : char)
| CRange (lo hi : char)
| CSpace
| CDigit.

Inductive regex : Type :=
| REps : regex
| RChar (c : char) : regex
| RClass (negated : bool) (items : list class_item) : regex
| RSeq (r1 r2 : regex) : regex
| RAlt (r1 r2 : regex) : regex
| RStar (r : regex) : regex
| ROpt (r : regex) : regex
| RGroup (idx : nat) (r : regex) : regex
| RWordB : regex
| REnd : regex.

Definition canon (ignoreCase : bool) (c : char) : char :=
  if ignoreCase && is_lower c then c - 32 else c.

Definition item_mem (ic : bool) (x : char) (it : class_item) : bool :=
  match it with
  | CChar c => char_eqb (canon ic x) (canon ic c)
  | CRange lo hi =>
      ((lo <=? x) && (x <=? hi))
      || (ic && (((lo <=? canon ic x) && (canon ic x <=? hi))
                 || (is_upper x && (lo <=? x + 32) && (x + 32 <=? hi))))
  | CSpace => is_space x
  | CDigit => is_digit x
  end.

Definition class_mem (ic : bool) (items : list class_item) (x : char) : bool :=
  existsb (item_mem ic x) items.

Record mstate : Type := {
  m_prev : option char;
  m_rest : jsstring;
  m_caps : list (nat * jsstring)
}.

Definition advance (x : char) (rest : jsstring) (st : mstate) : mstate :=
  {| m_prev := Some x; m_rest := rest; m_caps := m_caps st |}.

Definition consumed (st st' : mstate) : jsstring :=
  firstn (length (m_rest st) - length (m_rest st')) (m_rest st).

Definition set_cap (i : nat) (st st' : mstate) : mstate :=
  {| m_prev := m_prev st'; m_rest := m_rest st';
     m_caps := (i, consumed st st') :: m_caps st' |}.

Definition at_word_boundary (st : mstate) : bool :=
  let a := match m_prev st with Some c => is_word c | None => false end in
  let b := match m_rest st with c :: _ => is_word c | [] => false end in
  xorb a b.

(** Greedy iteration of [step]: one more round when it consumes input
    and the rest then matches, the continuation otherwise.  Every round
    consumes at least one code unit, so a budget of one more than the
    remaining length is never used up. *)
Fixpoint star_loop (step : mstate -> (mstate -> option mstate) -> option mstate)
    (k : mstate -> option mstate) (fuel : nat) (st : mstate) {struct fuel}
  : option mstate :=
  match fuel with
  | O => k st
  | S fuel' =>
      match step st
              (fun st' =>
                 if (length (m_rest st') <? length (m_rest st))%nat
                 then star_loop step k fuel' st' else None) with
      | Some res => Some res
      | None => k st
      end
  end.

Fixpoint rmatch (ic : bool) (r : regex) (st : mstate)
    (k : mstate -> option mstate) {struct r} : option mstate :=
  match r with
  | REps => k st
  | RChar c =>
      match m_rest st with
      | x :: rest =>
          if char_eqb (canon ic x) (canon ic c) then k (advance x rest st) else None
      | [] => None
      end
  | RClass neg items =>
      match m_rest st with
      | x :: rest =>
          if xorb neg (class_mem ic items x) then k (advance x rest st) else None
      | [] => None
      end
  | RSeq r1 r2 => rmatch ic r1 st (fun st' => rmatch ic r2 st' k)
  | RAlt r1 r2 =>
      match rmatch ic r1 st k with
      | Some res => Some res
      | None => rmatch ic r2 st k
      end
  | RStar r' => star_loop (rmatch ic r') k (S (length (m_rest st))) st
  | ROpt r' =>
      match rmatch ic r' st k with
      | Some res => Some res
      | None => k st
      end
  | RGroup i r' => rmatch ic r' st (fun st' => k (set_cap i st st'))
  | RWordB => if at_word_boundary st then k st else None
  | REnd => match m_rest st with [] => k st | _ :: _ => None end
  end.

(** The match object: [index], [match[0]] and the captured groups. *)
Record MatchResult : Type := {
  mr_index : nat;
  mr_text : jsstring;
  mr_groups : list (nat * jsstring)
}.

Fixpoint group (i : nat) (gs : list (nat * jsstring)) : option jsstring :=
  match gs with
  | [] => None
  | (j, s) :: gs' => if Nat.eqb i j then Some s else group i gs'
  end.

Definition match_at (ic : bool) (r : regex) (prev : option char) (s : jsstring)
  : option mstate :=
  rmatch ic r {| m_prev := prev; m_rest := s; m_caps := [] |} Some.

(** Leftmost match, scanning the start position from left to right. *)
Fixpoint search_from (ic : bool) (r : regex) (prev : option char)
    (s : jsstring) (idx : nat) : option MatchResult :=
  match match_at ic r prev s with
  | Some st' =>
      Some {| mr_index := idx;
              mr_text := firstn (length s - length (m_rest st')) s;
              mr_groups := m_caps st' |}
  | None =>
      match s with
      | [] => None
      | c :: s' => search_from ic r (Some c) s' (S idx)
      end
  end.

(** [str.match(re)] for a pattern without the sticky flag; with the [g]
    flag the first element of the result is this match's text. *)
Definition regex_match (ic : bool) (r : regex) (s : jsstring) : option MatchResult :=
  search_from ic r None s 0.

(** [re.test(str)] *)
Definition regex_test (ic : bool) (r : regex) (s : jsstring) : bool :=
  match regex_match ic r s with Some _ => true | None => false end.

Definition rseq (rs : list regex) : regex := fold_right RSeq REps rs.
Definition ralt (rs : list regex) : regex :=
  match rs with
  | [] => REps
  | r :: rs' => fold_left RAlt rs' r
  end.
Definition RPlus (r : regex) : regex := RSeq r (RStar r).
Definition lit (s : string) : regex := rseq (map RChar (js s)).
Definition ws : regex := RClass false [CSpace].
Definition digit : regex := RClass false [CDigit].
(** [\d+\.?\d*] *)
Definition decimal_re : regex :=
  rseq [RPlus digit; ROpt (RChar 46); RStar digit].

(** ** Data model ([types/quote.ts]) *)

Inductive RiskLevel : Type := low | medium | high | critical.

Inductive RiskType : Type :=
| incoterms | liquidated_damages | uom_conflict | duplicate | missing_data | general.

Definition RawRow := list (jsstring * JsValue).

Record ParsedRow : Type := {
  rowNumber : number;
  partNumber : jsstring;
  quantity : option number;
  description : jsstring;
  unitPrice : option number;
  unitOfMeasure : jsstring;
  notes : jsstring;
  rawData : RawRow
}.

Record RiskFlag : Type := {
  risk_id : jsstring;
  risk_type : RiskType;
  level : RiskLevel;
  title : jsstring;
  risk_description : jsstring;
  affectedRows : option (list number);
  extractedValue : option jsstring;
  recommendation : jsstring
}.

Definition level_eqb (a b : RiskLevel) : bool :=
  match a, b with
  | low, low | medium, medium | high, high | critical, critical => true
  | _, _ => false
  end.

Definition type_eqb (a b : RiskType) : bool :=
  match a, b with
  | incoterms, incoterms | liquidated_damages, liquidated_damages
  | uom_conflict, uom_conflict | duplicate, duplicate
  | missing_data, missing_data | general, general => true
  | _, _ => false
  end.

(** ** Incoterms reference data ([lib/schemas.ts]) *)

Definition INCOTERMS_DATA : list (jsstring * (RiskLevel * jsstring)) :=
  [ (js "EXW", (low, js "Ex Works - Minimal seller responsibility"));
    (js "FCA", (low, js "Free Carrier - Seller delivers to carrier"));
    (js "FAS", (medium, js "Free Alongside Ship - Seller delivers alongside vessel"));
    (js "FOB", (medium, js "Free on Board - Seller loads onto vessel"));
    (js "CFR", (medium, js "Cost and Freight - Seller pays freight to destination"));
    (js "CIF", (medium, js "Cost, Insurance, Freight - Seller pays freight + insurance"));
    (js "CPT", (medium, js "Carriage Paid To - Seller pays carriage to destination"));
    (js "CIP", (high, js "Carriage and Insurance Paid - Seller pays carriage + insurance"));
    (js "DAP", (high, js "Delivered at Place - Seller delivers to named place"));
    (js "DPU", (high, js "Delivered at Place Unloaded - Seller unloads at destination"));
    (js "DDP", (critical, js "Delivered Duty Paid - Seller pays ALL costs including duties")) ].

(** ** Patterns of [lib/riskDetector.ts] *)

(** The pattern [\bTERM\s*[\-–:]?\s*([A-Za-z\s,]+)?] with flags gi *)
Definition incoterm_re (term : jsstring) : regex :=
  rseq [ RWordB; rseq (map RChar term); RStar ws;
         ROpt (RClass false [CChar 45; CChar 8211; CChar 58]); RStar ws;
         ROpt (RGroup 1 (RPlus (RClass false [CRange 65 90; CRange 97 122; CSpace; CChar 44]))) ].

(** [/delivered\s+duty\s+paid/i] *)
Definition ddp_phrase_re : regex :=
  rseq [lit "delivered"; RPlus ws; lit "duty"; RPlus ws; lit "paid"].

Definition ldPatterns : list regex :=
  [ (* [/liquidated\s+damages/i] *)
    rseq [lit "liquidated"; RPlus ws; lit "damages"];
    (* [/penalty\s+(for|of)?\s*(late|delay)/i] *)
    rseq [lit "penalty"; RPlus ws; ROpt (RGroup 1 (ralt [lit "for"; lit "of"]));
          RStar ws; RGroup 2 (ralt [lit "late"; lit "delay"])];
    (* [/delay\s+penalty/i] *)
    rseq [lit "delay"; RPlus ws; lit "penalty"];
    (* [/(\d+\.?\d* )\s*%\s*(per|each)\s*(day|week)/i] *)
    rseq [RGroup 1 decimal_re; RStar ws; RChar 37; RStar ws;
          RGroup 2 (ralt [lit "per"; lit "each"]); RStar ws;
          RGroup 3 (ralt [lit "day"; lit "week"])];
    (* [/per\s*diem\s*penalty/i] *)
    rseq [lit "per"; RStar ws; lit "diem"; RStar ws; lit "penalty"];
    (* [/late\s+delivery\s+(penalty|charge|fee)/i] *)
    rseq [lit "late"; RPlus ws; lit "delivery"; RPlus ws;
          RGroup 1 (ralt [lit "penalty"; lit "charge"; lit "fee"])] ].

(** [/(\d+\.?\d* )\s*%\s*(per|each)?\s*(day|week|month)?/i] *)
Definition percent_re : regex :=
  rseq [RGroup 1 decimal_re; RStar ws; RChar 37; RStar ws;
        ROpt (RGroup 2 (ralt [lit "per"; lit "each"])); RStar ws;
        ROpt (RGroup 3 (ralt [lit "day"; lit "week"; lit "month"]))].

(** [/(?:cap|maximum|max|up\s+to|not\s+(?:to\s+)?exceed)\s*(?:of\s* )?(\d+\.?\d* )\s*%/i] *)
Definition cap_re : regex :=
  rseq [ralt [lit "cap"; lit "maximum"; lit "max";
              rseq [lit "up"; RPlus ws; lit "to"];
              rseq [lit "not"; RPlus ws; ROpt (rseq [lit "to"; RPlus ws]); lit "exceed"]];
        RStar ws; ROpt (rseq [lit "of"; RStar ws]);
        RGroup 1 decimal_re; RStar ws; RChar 37].

(** [parseFloat(m[i])] *)
Definition group_number (i : nat) (m : MatchResult) : number :=
  match group i (mr_groups m) with
  | Some g => parseFloat g
  | None => NaN
  end.

(** ** Risk detectors ([lib/riskDetector.ts]) *)

Definition nat_to_string (n : nat) : jsstring := digits_of_N (N.of_nat n).
Definition dquote : jsstring := [34].

Section Detectors.

(** Services of the host: the Unicode case conversions of strings, the
    clock reading [Date.now()] (one reading per analysis; it only enters
    the identifiers of the findings) and the random suffix
    [Math.random().toString(36).substr(2, 9)]. *)
Variable toUpperCase : jsstring -> jsstring.
Variable toLowerCase : jsstring -> jsstring.
Variable now : N.
Variable random_suffix : jsstring.

Definition incoterm_flag (term : jsstring) (info : RiskLevel * jsstring)
    (m : MatchResult) : RiskFlag :=
  let extracted := mr_text m in
  {| risk_id := js "incoterm-" ++ term ++ js "-" ++ digits_of_N now;
     risk_type := incoterms;
     level := fst info;
     title := js "Incoterm Detected: " ++ term;
     risk_description := snd info;
     affectedRows := None;
     extractedValue := Some (trim extracted);
     recommendation :=
       if level_eqb (fst info) critical || level_eqb (fst info) high
       then js "⚠️ Review required. " ++ term ++
            js " places significant responsibility on the seller. Ensure pricing includes all associated costs."
       else js "Standard " ++ term ++
            js " terms detected. Verify alignment with your standard commercial terms." |}.

(** The loop over [Object.entries(INCOTERMS_DATA)]. *)
Fixpoint incoterm_scan (table : list (jsstring * (RiskLevel * jsstring)))
    (upperText : jsstring) : list RiskFlag :=
  match table with
  | [] => []
  | (term, info) :: table' =>
      match regex_match true (incoterm_re term) upperText with
      | Some m => incoterm_flag term info m :: incoterm_scan table' upperText
      | None => incoterm_scan table' upperText
      end
  end.

Definition ddp_phrase_flag : RiskFlag :=
  {| risk_id := js "incoterm-ddp-phrase-" ++ digits_of_N now;
     risk_type := incoterms;
     level := critical;
     title := js "DDP-equivalent Terms Detected";
     risk_description :=
       js "The phrase " ++ dquote ++ js "Delivered Duty Paid" ++ dquote ++
       js " suggests the seller is responsible for all costs including import duties.";
     affectedRows := None;
     extractedValue := Some (js "Delivered Duty Paid");
     recommendation :=
       js "🚨 CRITICAL: This implies DDP terms. Verify your quote includes import duties, taxes, and all delivery costs." |}.

(** [r.extractedValue?.includes('DDP')] *)
Definition mentions_DDP (r : RiskFlag) : bool :=
  match extractedValue r with
  | Some v => includes v (js "DDP")
  | None => false
  end.

Definition detectIncoterms (rawText : jsstring) : list RiskFlag :=
  let upperText := toUpperCase rawText in
  let risks := incoterm_scan INCOTERMS_DATA upperText in
  if regex_test true ddp_phrase_re rawText && negb (existsb mentions_DDP risks)
  then risks ++ [ddp_phrase_flag]
  else risks.

(** Severity band of a per-period percentage. *)
Definition percent_level (percentage : number) : RiskLevel :=
  if num_geb percentage (Fin 1 0) then critical
  else if num_geb percentage (Fin 5 (-1)) then high
  else medium.

(** Body of the loop of [detectLiquidatedDamages] once [pattern]
    has matched with result [m]. *)
Definition ld_flag (rawText : jsstring) (m : MatchResult) : RiskFlag :=
  let percentMatch := regex_match true percent_re rawText in
  let extracted :=
    match percentMatch with Some pm => mr_text pm | None => mr_text m end in
  let level0 :=
    match percentMatch with
    | Some pm => percent_level (group_number 1 pm)
    | None => high
    end in
  let capMatch := regex_match true cap_re rawText in
  let capInfo :=
    match capMatch with
    | Some cm => js " (Capped at " ++ numToString (group_number 1 cm) ++ js "%)"
    | None => []
    end in
  let level1 :=
    match capMatch with
    | Some cm => if num_gtb (group_number 1 cm) (Fin 10 0) then critical else level0
    | None => level0
    end in
  {| risk_id := js "ld-" ++ digits_of_N now ++ js "-" ++ random_suffix;
     risk_type := liquidated_damages;
     level := level1;
     title := js "Liquidated Damages Clause Detected" ++ capInfo;
     risk_description :=
       js "This document contains penalty clauses for late delivery. These can significantly impact profitability.";
     affectedRows := None;
     extractedValue := Some extracted;
     recommendation :=
       if level_eqb level1 critical
       then js "🚨 CRITICAL: High-risk LD clause detected. Escalate to Deal Desk before quoting. Consider risk premium pricing."
       else js "⚠️ Review LD terms with legal/commercial team. Ensure delivery timeline is achievable with buffer." |}.

(** The loop over [ldPatterns], left at the first pattern that matches. *)
Fixpoint ld_scan (patterns : list regex) (rawText : jsstring) : list RiskFlag :=
  match patterns with
  | [] => []
  | pattern :: patterns' =>
      match regex_match true pattern rawText with
      | Some m => [ld_flag rawText m]
      | None => ld_scan patterns' rawText
      end
  end.

Definition detectLiquidatedDamages (rawText : jsstring) : list RiskFlag :=
  ld_scan ldPatterns rawText.

(** [partNumberMap]: a [Map] keeps its keys in insertion order. *)
Fixpoint map_push (pn : jsstring) (rn : number)
    (m : list (jsstring * list number)) : list (jsstring * list number) :=
  match m with
  | [] => [(pn, [rn])]
  | (k, v) :: m' =>
      if str_eqb k pn then (k, v ++ [rn]) :: m'
      else (k, v) :: map_push pn rn m'
  end.

Definition group_part_numbers (rows : list ParsedRow)
  : list (jsstring * list number) :=
  fold_left
    (fun m row =>
       match trim (partNumber row) with
       | [] => m
       | _ :: _ => map_push (toUpperCase (trim (partNumber row))) (rowNumber row) m
       end)
    rows [].

Definition duplicate_flag (pn : jsstring) (rowNumbers : list number) : RiskFlag :=
  {| risk_id := js "duplicate-" ++ pn ++ js "-" ++ digits_of_N now;
     risk_type := duplicate;
     level := medium;
     title := js "Duplicate Part Number: " ++ pn;
     risk_description :=
       js "Part number " ++ dquote ++ pn ++ dquote ++ js " appears " ++
       nat_to_string (length rowNumbers) ++ js " times in the document.";
     affectedRows := Some rowNumbers;
     extractedValue := Some pn;
     recommendation :=
       js "Consider consolidating duplicate line items to avoid over-ordering or pricing errors." |}.

Definition detectDuplicates (rows : list ParsedRow) : list RiskFlag :=
  flat_map
    (fun '(pn, rowNumbers) =>
       if (1 <? length rowNumbers)%nat then [duplicate_flag pn rowNumbers] else [])
    (group_part_numbers rows).

Definition uom_quantity_flag (row : ParsedRow) (q : number) : RiskFlag :=
  {| risk_id := js "uom-quantity-" ++ numToString (rowNumber row) ++ js "-" ++ digits_of_N now;
     risk_type := uom_conflict;
     level := medium;
     title := js "Unusually High Quantity for UoM";
     risk_description :=
       js "Row " ++ numToString (rowNumber row) ++ js ": Quantity of " ++
       numToString q ++ js " " ++ unitOfMeasure row ++
       js " seems unusual. Verify this is not a unit conversion error.";
     affectedRows := Some [rowNumber row];
     extractedValue := Some (numToString q ++ js " " ++ unitOfMeasure row);
     recommendation :=
       js "Confirm with customer whether quantity is per unit or total. Check if UoM conversion is needed." |}.

Definition uom_fraction_flag (row : ParsedRow) (q : number) : RiskFlag :=
  {| risk_id := js "uom-fraction-" ++ numToString (rowNumber row) ++ js "-" ++ digits_of_N now;
     risk_type := uom_conflict;
     level := low;
     title := js "Fractional Quantity for Discrete UoM";
     risk_description :=
       js "Row " ++ numToString (rowNumber row) ++ js ": Quantity " ++
       numToString q ++ js " with UoM " ++ dquote ++ unitOfMeasure row ++ dquote ++
       js " - fractional quantities for discrete units may indicate data entry error.";
     affectedRows := Some [rowNumber row];
     extractedValue := Some (numToString q ++ js " " ++ unitOfMeasure row);
     recommendation :=
       js "Verify quantity is correct. Round up if selling individual items." |}.

Definition uom_row_flags (row : ParsedRow) : list RiskFlag :=
  match unitOfMeasure row with
  | [] => []
  | _ :: _ =>
      let uom := trim (toLowerCase (unitOfMeasure row)) in
      match quantity row with
      | None => []
      | Some q =>
          (if num_gtb q (Fin 10000 0)
              && existsb (fun u => includes uom u) (map js ["reel"; "roll"; "drum"; "pallet"]%string)
           then [uom_quantity_flag row q] else [])
          ++
          (if negb (isInteger q)
              && existsb (fun u => includes uom u) (map js ["each"; "ea"; "pc"; "pcs"]%string)
           then [uom_fraction_flag row q] else [])
      end
  end.

Definition detectUoMConflicts (rows : list ParsedRow) : list RiskFlag :=
  flat_map uom_row_flags rows.

Definition rowsWithMissingPN (rows : list ParsedRow) : list number :=
  map rowNumber
      (List.filter (fun row => match trim (partNumber row) with [] => true | _ => false end) rows).

Definition rowsWithMissingQty (rows : list ParsedRow) : list number :=
  map rowNumber
      (List.filter (fun row => match quantity row with None => true | Some _ => false end) rows).

Definition detectMissingData (rows : list ParsedRow) : list RiskFlag :=
  let pn := rowsWithMissingPN rows in
  let qty := rowsWithMissingQty rows in
  (match pn with
   | [] => []
   | _ :: _ =>
       [ {| risk_id := js "missing-pn-" ++ digits_of_N now;
            risk_type := missing_data;
            level := if (5 <? length pn)%nat then high else medium;
            title := js "Missing Part Numbers (" ++ nat_to_string (length pn) ++ js " rows)";
            risk_description :=
              nat_to_string (length pn) ++
              js " rows are missing part numbers. These items cannot be quoted without identification.";
            affectedRows := Some (firstn 10 pn);
            extractedValue := None;
            recommendation :=
              js "Contact customer to provide missing part numbers before proceeding with quote." |} ]
   end)
  ++
  (match qty with
   | [] => []
   | _ :: _ =>
       [ {| risk_id := js "missing-qty-" ++ digits_of_N now;
            risk_type := missing_data;
            level := medium;
            title := js "Missing Quantities (" ++ nat_to_string (length qty) ++ js " rows)";
            risk_description :=
              nat_to_string (length qty) ++ js " rows are missing quantity information.";
            affectedRows := Some (firstn 10 qty);
            extractedValue := None;
            recommendation :=
              js "Verify quantities with customer or assume quantity of 1 for each item." |} ]
   end).

(** *** Aggregation *)

Definition levelOrder (l : RiskLevel) : nat :=
  match l with
  | critical => 0
  | high => 1
  | medium => 2
  | low => 3
  end.

(** [Array.prototype.sort] with the comparator
    [(a, b) => levelOrder[a.level] - levelOrder[b.level]]: the sort of
    the language is stable, and a stable sort by a total key has one
    possible result, computed here by insertion from the right. *)
Fixpoint insert_by_level (x : RiskFlag) (l : list RiskFlag) : list RiskFlag :=
  match l with
  | [] => [x]
  | y :: l' =>
      if (levelOrder (level x) <=? levelOrder (level y))%nat
      then x :: y :: l'
      else y :: insert_by_level x l'
  end.

Definition sort_by_level (l : list RiskFlag) : list RiskFlag :=
  fold_right insert_by_level [] l.

Definition allRisks (rawText : jsstring) (rows : list ParsedRow) : list RiskFlag :=
  detectIncoterms rawText
  ++ detectLiquidatedDamages rawText
  ++ detectDuplicates rows
  ++ detectUoMConflicts rows
  ++ detectMissingData rows.

Definition analyzeAllRisks (rawText : jsstring) (rows : list ParsedRow) : list RiskFlag :=
  sort_by_level (allRisks rawText rows).

End Detectors.

(** ** Usage limits ([lib/limits.ts]) *)

Record Limits : Type := {
  MAX_MESSAGES_PER_SESSION : nat;
  MAX_MESSAGE_LENGTH : nat;
  MAX_FILE_SIZE_MB : nat;
  MAX_ROWS : nat;
  RATE_LIMIT_MESSAGES : nat;
  RATE_LIMIT_WINDOW_MS : nat
}.

(** The values the repository ships. *)
Definition shipped_limits : Limits :=
  {| MAX_MESSAGES_PER_SESSION := 20;
     MAX_MESSAGE_LENGTH := 1000;
     MAX_FILE_SIZE_MB := 2;
     MAX_ROWS := 100;
     RATE_LIMIT_MESSAGES := 10;
     RATE_LIMIT_WINDOW_MS := 60 * 1000 |}.

Definition MAX_FILE_SIZE_BYTES (LIMITS : Limits) : nat :=
  MAX_FILE_SIZE_MB LIMITS * 1024 * 1024.

Definition shouldEnforceLimit (ADMIN_MODE : bool) : bool := negb ADMIN_MODE.

Definition getEffectiveLimit (ADMIN_MODE : bool) (limit : nat) : number :=
  if ADMIN_MODE then Inf false else of_nat limit.

(** ** The upload pipeline ([app/actions/processExcel.ts]) *)

Record ColumnMapping : Type := {
  cm_partNumber : option jsstring;
  cm_quantity : option jsstring;
  cm_description : option jsstring;
  cm_unitPrice : option jsstring;
  cm_unitOfMeasure : option jsstring;
  cm_notes : option jsstring;
  cm_terms : option jsstring;
  cm_headerRow : number
}.

Record RiskSummary : Type := {
  totalRows : nat;
  validRows : nat;
  totalRisks : nat;
  criticalRisks : nat;
  highRisks : nat;
  mediumRisks : nat;
  lowRisks : nat
}.

Record QuoteAnalysis : Type := {
  success : bool;
  fileName : jsstring;
  processedAt : jsstring;
  columnMapping : ColumnMapping;
  rows : list ParsedRow;
  risks : list RiskFlag;
  summary : RiskSummary
}.

Record ExcelParseResult : Type := {
  parse_success : bool;
  headers : list jsstring;
  parse_rows : list RawRow;
  rawText : jsstring;
  parse_error : option jsstring
}.

Record UploadedFile : Type := {
  file_name : jsstring;
  file_size : nat
}.

(** What reading and decoding the upload gives: a rejection of
    [file.arrayBuffer()], or the answer of [parseExcelBuffer]. *)
Inductive ReadOutcome : Type :=
| ReadThrows (message : option jsstring)
| ReadOk (parseResult : ExcelParseResult).

(** [row[key]] on the own properties of a raw row *)
Fixpoint row_get (row : RawRow) (key : jsstring) : JsValue :=
  match row with
  | [] => VUndefined
  | (k, v) :: row' => if str_eqb k key then v else row_get row' key
  end.

(** [mapped || ''] *)
Definition or_empty (mapped : option jsstring) : jsstring :=
  match mapped with
  | Some (c :: s) => c :: s
  | _ => []
  end.

(** [String(v ?? '')] *)
Definition string_or_empty (v : JsValue) : jsstring :=
  match v with
  | VUndefined | VNull => []
  | _ => ToString v
  end.

(** [JSON.parse(JSON.stringify(row))]: properties holding [undefined]
    are left out, non-finite numbers come back as [null]. *)
Definition json_copy (row : RawRow) : RawRow :=
  flat_map
    (fun '(k, v) =>
       match v with
       | VUndefined => []
       | VNum NaN | VNum (Inf _) => [(k, VNull)]
       | _ => [(k, v)]
       end)
    row.

(** [ToIntegerOrInfinity] followed by the clamping of
    [Array.prototype.slice(0, end)] on a list of length [len]. *)
Definition slice_end (len : nat) (end_ : number) : nat :=
  match end_ with
  | NaN => 0%nat
  | Inf true => 0%nat
  | Inf false => len
  | Fin m e =>
      let z := if (0 <=? e)%Z then (m * 10 ^ e)%Z else Z.quot m (10 ^ (- e)) in
      if (z <? 0)%Z then Z.to_nat (Z.max (Z.of_nat len + z) 0)
      else Nat.min (Z.to_nat z) len
  end.

Definition slice0 {A : Type} (l : list A) (end_ : number) : list A :=
  firstn (slice_end (length l) end_) l.

(** [rows.map((row, index) => ...)] *)
Fixpoint mapi_from {A B : Type} (f : A -> nat -> B) (index : nat) (l : list A) : list B :=
  match l with
  | [] => []
  | x :: l' => f x index :: mapi_from f (S index) l'
  end.

Definition mapi {A B : Type} (f : A -> nat -> B) (l : list A) : list B :=
  mapi_from f 0 l.

(** [findIndex] *)
Fixpoint findIndex {A : Type} (p : A -> bool) (l : list A) : option nat :=
  match l with
  | [] => None
  | x :: l' => if p x then Some 0%nat else option_map S (findIndex p l')
  end.

Definition null_mapping : ColumnMapping :=
  {| cm_partNumber := None; cm_quantity := None; cm_description := None;
     cm_unitPrice := None; cm_unitOfMeasure := None; cm_notes := None;
     cm_terms := None; cm_headerRow := Fin 1 0 |}.

Definition failure_summary : RiskSummary :=
  {| totalRows := 0; validRows := 0; totalRisks := 1; criticalRisks := 1;
     highRisks := 0; mediumRisks := 0; lowRisks := 0 |}.

Definition count_level (l : RiskLevel) (rs : list RiskFlag) : nat :=
  length (List.filter (fun r => level_eqb (level r) l) rs).

Section Pipeline.

Variable toUpperCase : jsstring -> jsstring.
Variable toLowerCase : jsstring -> jsstring.
Variable now : N.
Variable random_suffix : jsstring.
(** [new Date().toISOString()] *)
Variable timestamp : jsstring.
(** [process.env.ADMIN_MODE === 'true'] and the limits table *)
Variable ADMIN_MODE : bool.
Variable LIMITS : Limits.

(** [fallbackColumnMapping] *)
Fixpoint findColumn (hdrs : list jsstring) (patterns : list jsstring) : option jsstring :=
  match patterns with
  | [] => None
  | pattern :: patterns' =>
      match findIndex (fun h => includes h pattern) (map toLowerCase hdrs) with
      | Some index =>
          match nth_error hdrs index with
          | Some h => Some h
          | None => findColumn hdrs patterns'
          end
      | None => findColumn hdrs patterns'
      end
  end.

Definition fallbackColumnMapping (hdrs : list jsstring) : ColumnMapping :=
  let find ps := findColumn hdrs (map js ps) in
  {| cm_partNumber := find ["part"; "sku"; "item"; "product"; "code"; "p/n"; "pn"; "number"]%string;
     cm_quantity := find ["qty"; "quantity"; "amount"; "count"; "units"; "order"]%string;
     cm_description := find ["description"; "desc"; "name"; "title"; "product name"]%string;
     cm_unitPrice := find ["price"; "cost"; "unit price"; "rate"; "amount"]%string;
     cm_unitOfMeasure := find ["uom"; "unit"; "measure"; "um"]%string;
     cm_notes := find ["notes"; "comment"; "remark"; "spec"; "specification"]%string;
     cm_terms := find ["terms"; "condition"; "shipping"; "delivery"; "incoterm"]%string;
     cm_headerRow := Fin 1 0 |}.

(** The callback of [rowsToProcess.map]. *)
Definition materialize_row (mapping : ColumnMapping) (row : RawRow) (index : nat) : ParsedRow :=
  {| rowNumber := of_nat (index + 2);
     partNumber := string_or_empty (row_get row (or_empty (cm_partNumber mapping)));
     quantity := parseQuantity (row_get row (or_empty (cm_quantity mapping)));
     description := string_or_empty (row_get row (or_empty (cm_description mapping)));
     unitPrice := parsePrice (row_get row (or_empty (cm_unitPrice mapping)));
     unitOfMeasure := string_or_empty (row_get row (or_empty (cm_unitOfMeasure mapping)));
     notes := string_or_empty (row_get row (or_empty (cm_notes mapping)));
     rawData := json_copy row |}.

Definition row_limit_warning (total : nat) : RiskFlag :=
  {| risk_id := js "warning-row-limit";
     risk_type := general;
     level := medium;
     title := js "Row Limit Applied (" ++ nat_to_string (MAX_ROWS LIMITS) ++ js " rows)";
     risk_description :=
       js "Only the first " ++ nat_to_string (MAX_ROWS LIMITS) ++
       js " rows were processed. Your file contains " ++ nat_to_string total ++
       js " total rows.";
     affectedRows := None;
     extractedValue := None;
     recommendation :=
       js "For the demo, row processing is limited. Contact the developer for full access." |}.

Definition error_analysis (name : jsstring) (flag : RiskFlag) : QuoteAnalysis :=
  {| success := false;
     fileName := name;
     processedAt := timestamp;
     columnMapping := null_mapping;
     rows := [];
     risks := [flag];
     summary := failure_summary |}.

Definition general_critical (fid ttl desc rec : string) (d : option jsstring) : RiskFlag :=
  {| risk_id := js fid;
     risk_type := general;
     level := critical;
     title := js ttl;
     risk_description := match d with Some m => m | None => js desc end;
     affectedRows := None;
     extractedValue := None;
     recommendation := js rec |}.

(** [error.message || fallback] on an optional string: the empty
    message is falsy. *)
Definition nonempty (m : option jsstring) : option jsstring :=
  match m with
  | Some (c :: s) => Some (c :: s)
  | _ => None
  end.

(** The part of [processExcelFile] after a successful parse; [apiKey]
    tells whether a key is configured and [aiMapping] is the answer of
    the external classifier, absent when the call fails. *)
Definition analyze_parsed (name : jsstring) (parseResult : ExcelParseResult)
    (apiKey : bool) (aiMapping : option ColumnMapping) : QuoteAnalysis :=
  let mapping :=
    if apiKey && (0 <? length (headers parseResult))%nat then
      match aiMapping with
      | Some m => m
      | None => fallbackColumnMapping (headers parseResult)
      end
    else fallbackColumnMapping (headers parseResult) in
  let maxRows := getEffectiveLimit ADMIN_MODE (MAX_ROWS LIMITS) in
  let rowsToProcess := slice0 (parse_rows parseResult) maxRows in
  let wasLimited := num_gtb (of_nat (length (parse_rows parseResult))) maxRows in
  let parsedRows := mapi (materialize_row mapping) rowsToProcess in
  let sorted := analyzeAllRisks toUpperCase toLowerCase now random_suffix
                  (rawText parseResult) parsedRows in
  let risks :=
    if wasLimited && shouldEnforceLimit ADMIN_MODE
    then row_limit_warning (length (parse_rows parseResult)) :: sorted
    else sorted in
  let validRows :=
    length (List.filter
              (fun r => match trim (partNumber r) with [] => false | _ :: _ => true end)
              parsedRows) in
  {| success := true;
     fileName := name;
     processedAt := timestamp;
     columnMapping := mapping;
     rows := parsedRows;
     risks := risks;
     summary :=
       {| totalRows := length parsedRows;
          validRows := validRows;
          totalRisks := length risks;
          criticalRisks := count_level critical risks;
          highRisks := count_level high risks;
          mediumRisks := count_level medium risks;
          lowRisks := count_level low risks |} |}.

Definition processExcelFile (file : option UploadedFile) (read : ReadOutcome)
    (apiKey : bool) (aiMapping : option ColumnMapping) : QuoteAnalysis :=
  match file with
  | None =>
      error_analysis []
        (general_critical "error-no-file" "No File Provided"
           "Please upload an Excel file to analyze."
           "Select a .xlsx, .xls, or .csv file to upload." None)
  | Some f =>
      let processing_error (message : option jsstring) :=
        error_analysis (file_name f)
          (general_critical "error-processing" "Processing Error"
             "An unexpected error occurred."
             "Please try again or contact support if the issue persists." message) in
      if shouldEnforceLimit ADMIN_MODE && (MAX_FILE_SIZE_BYTES LIMITS <? file_size f)%nat
      then processing_error
             (Some (js "File too large. Maximum size is " ++
                    nat_to_string (MAX_FILE_SIZE_MB LIMITS) ++ js "MB."))
      else
        match read with
        | ReadThrows message => processing_error message
        | ReadOk parseResult =>
            if negb (parse_success parseResult)
            then error_analysis (file_name f)
                   (general_critical "error-parse" "Parse Error"
                      "Failed to parse Excel file."
                      "Ensure the file is a valid Excel document (.xlsx, .xls) or CSV."
                      (nonempty (parse_error parseResult)))
            else analyze_parsed (file_name f) parseResult apiKey aiMapping
        end
  end.

End Pipeline.

(** ** Corrected-file store and quantity fixes ([lib/excelExport.ts]) *)

Inductive Field : Type :=
| f_quantity | f_unitPrice | f_description | f_notes | f_partNumber | f_unitOfMeasure.

Definition field_name (f : Field) : jsstring :=
  match f with
  | f_quantity => js "quantity"
  | f_unitPrice => js "unitPrice"
  | f_description => js "description"
  | f_notes => js "notes"
  | f_partNumber => js "partNumber"
  | f_unitOfMeasure => js "unitOfMeasure"
  end.

Record RowRemediation : Type := {
  rem_rowNumber : number;
  rem_field : Field;
  oldValue : JsValue;
  newValue : JsValue;
  rem_reason : jsstring
}.

Record QuantityFix : Type := {
  fix_rowNumber : number;
  fix_quantity : number;
  fix_reason : jsstring
}.

(** Addresses of the store. *)
Abbreviation addr := nat (only parsing).

Record StoredFile : Type := {
  stored_rows : addr;
  stored_columnMapping : ColumnMapping;
  stored_fileName : jsstring;
  stored_remediations : list RowRemediation;
  createdAt : N
}.

Record DownloadResult : Type := {
  token : jsstring;
  download_fileName : jsstring;
  download_remediations : list RowRemediation
}.

(** The memory of one chat request: row objects and row arrays by
    address, the closure variables [currentRows] and
    [appliedRemediations] of the route, and the module-level
    [correctedFilesStore]. *)
Record Session : Type := {
  row_heap : list ParsedRow;
  array_heap : list (list addr);
  currentRows : addr;
  appliedRemediations : list QuantityFix;
  correctedFilesStore : list (jsstring * StoredFile)
}.

Definition empty_row : ParsedRow :=
  {| rowNumber := NaN; partNumber := []; quantity := None; description := [];
     unitPrice := None; unitOfMeasure := []; notes := []; rawData := [] |}.

#[global] Instance ParsedRow_inhabited : Inhabited ParsedRow := populate empty_row.

(** The array a reference points to, and the row objects of an array. *)
Definition array_at (s : Session) (a : addr) : list addr :=
  default [] (array_heap s !! a).

Definition deref (heap : list ParsedRow) (arr : list addr) : list ParsedRow :=
  map (fun l => heap !!! l) arr.

Definition current_rows (s : Session) : list ParsedRow :=
  deref (row_heap s) (array_at s (currentRows s)).

(** Every reference of the session points to an allocated object. *)
Definition wfb (s : Session) : bool :=
  (currentRows s <? length (array_heap s))%nat
  && forallb (forallb (fun l => (l <? length (row_heap s))%nat)) (array_heap s).

Definition CLEANUP_INTERVAL_MS : N := 10 * 60 * 1000.

Definition cleanupOldEntries (now : N) (store : list (jsstring * StoredFile))
  : list (jsstring * StoredFile) :=
  List.filter (fun '(_, data) => negb (CLEANUP_INTERVAL_MS <? now - createdAt data))
              store.

Definition generateToken (now : N) (rnd : jsstring) : jsstring :=
  js "dl_" ++ digits_of_N now ++ js "_" ++ rnd.

(** [Map.prototype.set] *)
Fixpoint map_set {V : Type} (k : jsstring) (v : V) (m : list (jsstring * V))
  : list (jsstring * V) :=
  match m with
  | [] => [(k, v)]
  | (k', v') :: m' =>
      if str_eqb k' k then (k', v) :: m' else (k', v') :: map_set k v m'
  end.

(** [s.replace(re, '')] without the [g] flag *)
Definition replace_first_empty (ic : bool) (r : regex) (s : jsstring) : jsstring :=
  match regex_match ic r s with
  | Some m => firstn (mr_index m) s ++ skipn (mr_index m + length (mr_text m)) s
  | None => s
  end.

(** [/\.[^/.]+$/] *)
Definition extension_re : regex :=
  rseq [RChar 46; RPlus (RClass true [CChar 47; CChar 46]); REnd].

Definition storeFixedRows (now : N) (rnd : jsstring)
    (store : list (jsstring * StoredFile)) (rows_ref : addr)
    (mapping : ColumnMapping) (name : jsstring) (remediations : list RowRemediation)
  : DownloadResult * list (jsstring * StoredFile) :=
  let store1 := cleanupOldEntries now store in
  let tok := generateToken now rnd in
  let store2 :=
    map_set tok
      {| stored_rows := rows_ref; stored_columnMapping := mapping;
         stored_fileName := name; stored_remediations := remediations;
         createdAt := now |}
      store1 in
  ({| token := tok;
      download_fileName := replace_first_empty false extension_re name ++ js "_corrected.xlsx";
      download_remediations := remediations |},
   store2).

(** [rows.map(row => ...)] where the callback either returns its
    argument (the reference is copied) or a freshly built object. *)
Fixpoint map_rows (f : ParsedRow -> option ParsedRow) (heap : list ParsedRow)
    (arr : list addr) : list ParsedRow * list addr :=
  match arr with
  | [] => (heap, [])
  | l :: arr' =>
      match f (heap !!! l) with
      | Some r' =>
          let '(heap', out) := map_rows f (heap ++ [r']) arr' in
          (heap', length heap :: out)
      | None =>
          let '(heap', out) := map_rows f heap arr' in
          (heap', l :: out)
      end
  end.

Definition set_quantity (row : ParsedRow) (q : option number) : ParsedRow :=
  {| rowNumber := rowNumber row; partNumber := partNumber row; quantity := q;
     description := description row; unitPrice := unitPrice row;
     unitOfMeasure := unitOfMeasure row; notes := notes row; rawData := rawData row |}.

Definition number_or_null (q : option number) : JsValue :=
  match q with Some n => VNum n | None => VNull end.

(** [fixes.find(f => f.rowNumber === row.rowNumber)] *)
Definition find_fix (fixes : list QuantityFix) (row : ParsedRow) : option QuantityFix :=
  List.find (fun f => num_eqb (fix_rowNumber f) (rowNumber row)) fixes.

(** The callback of [rows.map] in [applyQuantityFixes]: a row with a
    fix is rebuilt as [{ ...row, quantity: fix.quantity }]. *)
Definition apply_fix (fixes : list QuantityFix) (row : ParsedRow) : option ParsedRow :=
  match find_fix fixes row with
  | Some fx => Some (set_quantity row (Some (fix_quantity fx)))
  | None => None
  end.

Definition applyQuantityFixes (heap : list ParsedRow) (arr : list addr)
    (fixes : list QuantityFix)
  : list ParsedRow * list addr * list RowRemediation :=
  let remediations :=
    flat_map
      (fun row =>
         match find_fix fixes row with
         | Some fx =>
             [ {| rem_rowNumber := rowNumber row; rem_field := f_quantity;
                  oldValue := number_or_null (quantity row);
                  newValue := VNum (fix_quantity fx);
                  rem_reason := fix_reason fx |} ]
         | None => []
         end)
      (deref heap arr) in
  let '(heap', fixedRows) := map_rows (apply_fix fixes) heap arr in
  (heap', fixedRows, remediations).

(** [row.quantity === null || row.quantity === undefined || row.quantity === 0];
    the row type has no [undefined] quantity. *)
Definition quantity_missing (row : ParsedRow) : bool :=
  match quantity row with
  | None => true
  | Some q => num_eqb q (Fin 0 0)
  end.

Definition findMissingQuantities (rows : list ParsedRow) : list number :=
  map rowNumber (List.filter quantity_missing rows).

(** ** The row-mutation tools of the chat route *)

Inductive NewValue : Type :=
| NewNum (n : number)
| NewStr (s : jsstring).

Definition value_of_new (v : NewValue) : JsValue :=
  match v with NewNum n => VNum n | NewStr s => VStr s end.

(** [typeof newValue === 'number' ? newValue : parseFloat(String(newValue))] *)
Definition number_of_new (v : NewValue) : number :=
  match v with NewNum n => n | NewStr s => parseFloat s end.

(** [row[field]] *)
Definition get_field (row : ParsedRow) (f : Field) : JsValue :=
  match f with
  | f_quantity => number_or_null (quantity row)
  | f_unitPrice => number_or_null (unitPrice row)
  | f_description => VStr (description row)
  | f_notes => VStr (notes row)
  | f_partNumber => VStr (partNumber row)
  | f_unitOfMeasure => VStr (unitOfMeasure row)
  end.

Definition is_numeric (f : Field) : bool :=
  match f with f_quantity | f_unitPrice => true | _ => false end.

(** [{ ...row, [field]: n }] and [{ ...row, [field]: s }] *)
Definition set_number (row : ParsedRow) (f : Field) (n : option number) : ParsedRow :=
  match f with
  | f_quantity => set_quantity row n
  | f_unitPrice =>
      {| rowNumber := rowNumber row; partNumber := partNumber row;
         quantity := quantity row; description := description row; unitPrice := n;
         unitOfMeasure := unitOfMeasure row; notes := notes row; rawData := rawData row |}
  | _ => row
  end.

Definition set_string (row : ParsedRow) (f : Field) (v : jsstring) : ParsedRow :=
  {| rowNumber := rowNumber row;
     partNumber := match f with f_partNumber => v | _ => partNumber row end;
     quantity := quantity row;
     description := match f with f_description => v | _ => description row end;
     unitPrice := unitPrice row;
     unitOfMeasure := match f with f_unitOfMeasure => v | _ => unitOfMeasure row end;
     notes := match f with f_notes => v | _ => notes row end;
     rawData := rawData row |}.

Record FixResult : Type := {
  fixedCount : nat;
  fix_affectedRows : list number;
  fix_message : jsstring;
  fix_download : DownloadResult
}.

Inductive UpdateResult : Type :=
| UpdateFailed (message : jsstring)
| UpdateDone (rn : number) (f : Field) (old : JsValue) (new : NewValue)
             (message : jsstring) (download : DownloadResult).

Definition update_success (r : UpdateResult) : bool :=
  match r with UpdateFailed _ => false | UpdateDone _ _ _ _ _ _ => true end.

Record DeleteResult : Type := {
  deletedCount : nat;
  deleted_rowNumbers : list number;
  delete_message : jsstring;
  delete_download : DownloadResult
}.

Record ClearResult : Type := {
  cleared_field : Field;
  affectedCount : nat;
  clear_message : jsstring;
  clear_download : DownloadResult
}.

Section Route.

(** [analysis?.columnMapping ?? {...}] and [analysis?.fileName] of
    the request. *)
Variable currentColumnMapping : ColumnMapping.
Variable analysis_fileName : option jsstring.

(** Clock reading and random suffix consumed by the call. *)
Variable now : N.
Variable rnd : jsstring.

Definition download_name : jsstring :=
  match analysis_fileName with
  | Some n => n
  | None => js "corrected_data.xlsx"
  end.

(** Binding a new array to [currentRows]. *)
Definition assign_rows (s : Session) (heap : list ParsedRow) (arr : list addr)
    (applied : list QuantityFix) : Session :=
  {| row_heap := heap;
     array_heap := array_heap s ++ [arr];
     currentRows := length (array_heap s);
     appliedRemediations := applied;
     correctedFilesStore := correctedFilesStore s |}.

Definition with_store (s : Session) (store : list (jsstring * StoredFile)) : Session :=
  {| row_heap := row_heap s;
     array_heap := array_heap s;
     currentRows := currentRows s;
     appliedRemediations := appliedRemediations s;
     correctedFilesStore := store |}.

Definition store_current (s : Session) (remediations : list RowRemediation)
  : DownloadResult * Session :=
  let '(d, store) :=
    storeFixedRows now rnd (correctedFilesStore s) (currentRows s)
      currentColumnMapping download_name remediations in
  (d, with_store s store).

Definition default_fix (defaultQuantity : number) (rowNum : number) : QuantityFix :=
  {| fix_rowNumber := rowNum; fix_quantity := defaultQuantity;
     fix_reason := js "Auto-fixed: Set missing quantity to " ++
                   numToString defaultQuantity |}.

Definition fix_missing_quantities (defaultQuantity : number)
    (affectedRowNumbers : option (list number)) (s : Session) : FixResult * Session :=
  let missingRows :=
    match affectedRowNumbers with
    | Some given => given
    | None => findMissingQuantities (current_rows s)
    end in
  let fixes := map (default_fix defaultQuantity) missingRows in
  let '(heap', fixedRows, remediations) :=
    applyQuantityFixes (row_heap s) (array_at s (currentRows s)) fixes in
  let s1 := assign_rows s heap' fixedRows (appliedRemediations s ++ fixes) in
  let '(d, s2) :=
    store_current s1
      (map (fun fx =>
              {| rem_rowNumber := fix_rowNumber fx; rem_field := f_quantity;
                 oldValue := VNull; newValue := VNum (fix_quantity fx);
                 rem_reason := fix_reason fx |})
           fixes) in
  ({| fixedCount := length remediations;
      fix_affectedRows := missingRows;
      fix_message :=
        js "Fixed " ++ nat_to_string (length remediations) ++
        js " rows with missing quantities by setting them to " ++
        numToString defaultQuantity ++ js ".";
      fix_download := d |},
   s2).

Definition update_cell_value (rn : number) (field : Field) (new : NewValue)
    (s : Session) : UpdateResult * Session :=
  let arr := array_at s (currentRows s) in
  match findIndex (fun r => num_eqb (rowNumber r) rn) (deref (row_heap s) arr) with
  | None =>
      (UpdateFailed (js "Row " ++ numToString rn ++ js " not found in the data."), s)
  | Some rowIndex =>
      let row := row_heap s !!! (arr !!! rowIndex) in
      let old := get_field row field in
      let row' :=
        if is_numeric field then set_number row field (Some (number_of_new new))
        else set_string row field (ToString (value_of_new new)) in
      let reason :=
        js "Updated " ++ field_name field ++ js " from " ++ ToString old ++
        js " to " ++ ToString (value_of_new new) in
      let s1 :=
        {| row_heap := row_heap s ++ [row'];
           array_heap :=
             <[currentRows s := <[rowIndex := length (row_heap s)]> arr]> (array_heap s);
           currentRows := currentRows s;
           appliedRemediations :=
             appliedRemediations s ++
             [ {| fix_rowNumber := rn;
                  fix_quantity :=
                    match field with
                    | f_quantity => number_of_new new
                    | _ => Fin 0 0
                    end;
                  fix_reason := reason |} ];
           correctedFilesStore := correctedFilesStore s |} in
      let '(d, s2) :=
        store_current s1
          [ {| rem_rowNumber := rn; rem_field := field; oldValue := old;
               newValue := value_of_new new; rem_reason := reason |} ] in
      (UpdateDone rn field old new
         (js "Updated " ++ field_name field ++ js " in row " ++ numToString rn ++
          js " from " ++ ToString old ++ js " to " ++ ToString (value_of_new new) ++ js ".")
         d,
       s2)
  end.

(** [rowNumbers.includes(r.rowNumber)] *)
Definition listed (rowNumbers : list number) (r : ParsedRow) : bool :=
  existsb (fun n => same_value_zero n (rowNumber r)) rowNumbers.

Definition delete_rows (rowNumbers : list number) (s : Session)
  : DeleteResult * Session :=
  let arr := array_at s (currentRows s) in
  let originalCount := length arr in
  let kept :=
    List.filter (fun l => negb (listed rowNumbers (row_heap s !!! l))) arr in
  let count := (originalCount - length kept)%nat in
  let s1 :=
    assign_rows s (row_heap s) kept
      (appliedRemediations s ++
       map (fun rowNum =>
              {| fix_rowNumber := rowNum; fix_quantity := Fin 0 0;
                 fix_reason := js "Row deleted by user request" |})
           rowNumbers) in
  let '(d, s2) :=
    store_current s1
      (map (fun rowNum =>
              {| rem_rowNumber := rowNum; rem_field := f_quantity;
                 oldValue := VStr (js "ROW"); newValue := VStr (js "DELETED");
                 rem_reason := js "Row deleted by user request" |})
           rowNumbers) in
  ({| deletedCount := count;
      deleted_rowNumbers := rowNumbers;
      delete_message :=
        js "Deleted " ++ nat_to_string count ++ js " rows from the data.";
      delete_download := d |},
   s2).

(** [row[field] !== null && row[field] !== ''] *)
Definition field_filled (field : Field) (row : ParsedRow) : bool :=
  match get_field row field with
  | VNull => false
  | VStr [] => false
  | _ => true
  end.

Definition clear_row (field : Field) (row : ParsedRow) : ParsedRow :=
  if is_numeric field then set_number row field None else set_string row field [].

(** The callback of [currentRows.map] in [clear_column]. *)
Definition clear_if_filled (field : Field) (row : ParsedRow) : option ParsedRow :=
  if field_filled field row then Some (clear_row field row) else None.

Definition clear_column (field : Field) (s : Session) : ClearResult * Session :=
  let arr := array_at s (currentRows s) in
  let count := length (List.filter (field_filled field) (deref (row_heap s) arr)) in
  let '(heap', cleared) := map_rows (clear_if_filled field) (row_heap s) arr in
  let s1 :=
    assign_rows s heap' cleared
      (appliedRemediations s ++
       if (0 <? count)%nat
       then [ {| fix_rowNumber := Fin 0 0; fix_quantity := Fin 0 0;
                 fix_reason := js "Cleared column: " ++ field_name field |} ]
       else []) in
  let '(d, s2) :=
    store_current s1
      [ {| rem_rowNumber := Fin 0 0; rem_field := field;
           oldValue := VStr (js "ALL"); newValue := VNull;
           rem_reason := js "Cleared column: " ++ field_name field |} ] in
  ({| cleared_field := field;
      affectedCount := count;
      clear_message :=
        js "Cleared data in column '" ++ field_name field ++ js "' for " ++
        nat_to_string count ++ js " rows.";
      clear_download := d |},
   s2).

End Route.

(** ** Retrieval of corrected files ([lib/excelExport.ts], download route) *)

Record StoredData : Type := {
  data_rows : addr;
  data_columnMapping : ColumnMapping;
  data_fileName : jsstring
}.

(** [Map.prototype.get] *)
Fixpoint map_get {V : Type} (k : jsstring) (m : list (jsstring * V)) : option V :=
  match m with
  | [] => None
  | (k', v) :: m' => if str_eqb k' k then Some v else map_get k m'
  end.

Definition getStoredData (tok : jsstring) (store : list (jsstring * StoredFile))
  : option StoredData :=
  match map_get tok store with
  | None => None
  | Some data =>
      Some {| data_rows := stored_rows data;
              data_columnMapping := stored_columnMapping data;
              data_fileName := stored_fileName data |}
  end.

(** The array of arrays [wsData] that [generateExcelBuffer] hands to the
    spreadsheet writer: the header line, then one line per row. *)
Definition wsData (rs : list ParsedRow) : list (list JsValue) :=
  map (fun h => VStr (js h))
      ["Row #"; "Part Number"; "Description"; "Quantity"; "Unit"; "Unit Price"; "Notes"]%string
  :: map (fun row =>
            [ VNum (rowNumber row); VStr (partNumber row); VStr (description row);
              number_or_null (quantity row); VStr (unitOfMeasure row);
              number_or_null (unitPrice row); VStr (notes row) ])
         rs.

(** The answer of the download route: status 404 with an error text, or
    the workbook data with its [Content-Disposition] header. *)
Inductive DownloadResponse : Type :=
| DownloadNotFound (error : jsstring)
| DownloadFile (sheet : list (list JsValue)) (contentDisposition : jsstring).

Definition download_GET (s : Session) (tok : jsstring) : DownloadResponse :=
  match getStoredData tok (correctedFilesStore s) with
  | None => DownloadNotFound (js "Download link expired or invalid")
  | Some data =>
      DownloadFile
        (wsData (deref (row_heap s) (array_at s (data_rows data))))
        (js "attachment; filename=" ++ dquote ++
         replace_first_empty false extension_re (data_fileName data) ++
         js "_corrected.xlsx" ++ dquote)
  end.

(** ** The download tool and the usage limits of the chat route *)

Record GenerateResult : Type := {
  generate_download : DownloadResult;
  remediationsCount : nat;
  generate_message : jsstring
}.

Definition generate_corrected_download (currentColumnMapping : ColumnMapping)
    (analysis_fileName : option jsstring) (now : N) (rnd : jsstring)
    (includeRemediationNotes : bool) (s : Session) : GenerateResult * Session :=
  let '(d, s1) :=
    store_current currentColumnMapping analysis_fileName now rnd s
      (map (fun fx =>
              {| rem_rowNumber := fix_rowNumber fx; rem_field := f_quantity;
                 oldValue := VNull; newValue := VNum (fix_quantity fx);
                 rem_reason := if includeRemediationNotes then fix_reason fx else [] |})
           (appliedRemediations s)) in
  ({| generate_download := d;
      remediationsCount := length (appliedRemediations s);
      generate_message :=
        js "Created download link for corrected file with " ++
        nat_to_string (length (appliedRemediations s)) ++ js " fixes applied." |},
   s1).

(** [last] element of the message list, [messages[messages.length - 1]] *)
Definition last_message {A : Type} (messages : list A) : option A :=
  nth_error messages (length messages - 1).

(** The usage-limit checks at the head of [POST]: the status and error
    text of the rejection, or nothing when the request goes through.
    A message is given by its [content], which may be missing. *)
Definition usage_rejection (ADMIN_MODE : bool) (LIMITS : Limits)
    (messages : list (option jsstring)) : option (nat * jsstring) :=
  if shouldEnforceLimit ADMIN_MODE then
    if num_gtb (of_nat (length messages))
               (getEffectiveLimit ADMIN_MODE (MAX_MESSAGES_PER_SESSION LIMITS))
    then Some (429%nat,
               js "Session limit reached (" ++
               nat_to_string (MAX_MESSAGES_PER_SESSION LIMITS) ++
               js " messages). Please refresh to start a new session.")
    else
      match last_message messages with
      | Some (Some (c :: content)) =>
          if (MAX_MESSAGE_LENGTH LIMITS <? length (c :: content))%nat
          then Some (400%nat,
                     js "Message too long. Maximum " ++
                     nat_to_string (MAX_MESSAGE_LENGTH LIMITS) ++
                     js " characters allowed.")
          else None
      | _ => None
      end
  else None.

(** ** Markdown rendering of a sample ([lib/excelParser.ts]) *)

(** [Array.prototype.join] on strings *)
Fixpoint join (sep : jsstring) (parts : list jsstring) : jsstring :=
  match parts with
  | [] => []
  | [x] => x
  | x :: rest => x ++ sep ++ join sep rest
  end.

(** [s.replace(/\|/g, '\\|')] *)
Definition escape_pipes (s : jsstring) : jsstring :=
  flat_map (fun c => if c =? 124 then [92; 124] else [c]) s.

(** The cell text of [rowsToMarkdown]:
    [String(value ?? '').replace(/\|/g, '\\|').substring(0, 50)] *)
Definition markdown_cell (value : JsValue) : jsstring :=
  firstn 50 (escape_pipes (string_or_empty value)).

Definition markdown_line (cells : list jsstring) : jsstring :=
  js "| " ++ join (js " | ") cells ++ js " |".

Definition markdown_lines (hdrs : list jsstring) (rws : list RawRow) (maxRows : number)
  : list jsstring :=
  markdown_line hdrs
  :: markdown_line (map (fun _ => js "---") hdrs)
  :: map (fun row => markdown_line (map (fun header => markdown_cell (row_get row header)) hdrs))
         (slice0 rws maxRows).

Definition rowsToMarkdown (hdrs : list jsstring) (rws : list RawRow) (maxRows : number)
  : jsstring :=
  match hdrs, rws with
  | [], _ | _, [] => js "(No data available)"
  | _, _ => join [10] (markdown_lines hdrs rws maxRows)
  end.

(** ** Notions used in the statements *)

(** Order of two findings by severity rank. *)
Definition level_le (a b : RiskFlag) : Prop :=
  (levelOrder (level a) <= levelOrder (level b))%nat.

(** The findings of one severity, in the order of the list. *)
Definition of_level (lv : RiskLevel) (rs : list RiskFlag) : list RiskFlag :=
  List.filter (fun r => level_eqb (level r) lv) rs.

(** A bare finding of a given severity. *)
Definition flag_of_level (lv : RiskLevel) : RiskFlag :=
  {| risk_id := []; risk_type := general; level := lv; title := [];
     risk_description := []; affectedRows := None; extractedValue := None;
     recommendation := [] |}.

(** Findings of type [general]: the pipeline's own warnings and errors,
    which no detector emits. *)
Definition is_general (r : RiskFlag) : bool := type_eqb (risk_type r) general.

Definition no_general (rs : list RiskFlag) : Prop :=
  forallb (fun r => negb (is_general r)) rs = true.

(** [r.partNumber && r.partNumber.trim() !== ''] *)
Definition has_part_number (r : ParsedRow) : bool :=
  match trim (partNumber r) with [] => false | _ :: _ => true end.

(** What the callback of [map_rows] makes of a row. *)
Definition row_after (f : ParsedRow -> option ParsedRow) (r : ParsedRow) : ParsedRow :=
  match f r with Some r' => r' | None => r end.

(** The reference stored for a row: the same one when the callback
    keeps the row, the address of a fresh object otherwise. *)
Definition shared_or_fresh (f : ParsedRow -> option ParsedRow)
    (heap heap' : list ParsedRow) (l l' : addr) : Prop :=
  match f (heap !!! l) with
  | None => l' = l
  | Some r' => (length heap <= l')%nat /\ heap' !! l' = Some r'
  end.

(** A session whose current array is a freshly allocated one: every
    array and every row object that existed is still there, unchanged. *)
Definition fresh_array (s s' : Session) : Prop :=
  array_heap s' = array_heap s ++ [array_at s' (currentRows s')]
  /\ currentRows s' = length (array_heap s)
  /\ exists fresh, row_heap s' = row_heap s ++ fresh.

(** A small session used to run the tools: three rows, numbered 2, 3
    and 4, with quantities 0, absent and 5. *)
Definition example_row (n : Z) (q : option number) : ParsedRow :=
  {| rowNumber := Fin n 0; partNumber := js "PN-7"; quantity := q;
     description := js "bolt"; unitPrice := None; unitOfMeasure := js "ea";
     notes := []; rawData := [] |}.

Definition example_session : Session :=
  {| row_heap := [example_row 2 (Some (Fin 0 0)); example_row 3 None;
                  example_row 4 (Some (Fin 5 0))];
     array_heap := [[0; 1; 2]%nat];
     currentRows := 0;
     appliedRemediations := [];
     correctedFilesStore := [] |}.

(** The row number is carried by no row of the current array. *)
Definition row_absent (rn : number) (s : Session) : bool :=
  forallb (fun r => negb (num_eqb (rowNumber r) rn)) (current_rows s).

(** The quantity-absence check of the missing-data detector, as the
    specification words the target set: absent only, not zero. *)
Definition quantity_absent (row : ParsedRow) : bool :=
  match quantity row with None => true | Some _ => false end.

(** A continuation that never gives back input. *)
Definition shrinks (k : mstate -> option mstate) : Prop :=
  forall a b, k a = Some b -> (length (m_rest b) <= length (m_rest a))%nat.

(** A continuation that always answers. *)
Definition never_fails (k : mstate -> option mstate) : Prop :=
  forall st, k st <> None.

(** The last code unit of [pre], or [prev] when [pre] is empty. *)
Fixpoint last_char (prev : option char) (pre : jsstring) : option char :=
  match pre with
  | [] => prev
  | c :: pre' => last_char (Some c) pre'
  end.

(** The text holds [code] as a literal code: an occurrence that does
    not continue a word. *)
Definition holds_code (code text : jsstring) : Prop :=
  exists pre post,
    text = pre ++ code ++ post
    /\ match last_char None pre with
       | Some c => is_word c = false
       | None => True
       end.

(** What follows the code in [incoterm_re]. *)
Definition incoterm_tail : regex :=
  rseq [ RStar ws; ROpt (RClass false [CChar 45; CChar 8211; CChar 58]); RStar ws;
         ROpt (RGroup 1 (RPlus (RClass false [CRange 65 90; CRange 97 122; CSpace; CChar 44]))) ].

(** The last entry of [INCOTERMS_DATA], the only critical one. *)
Definition ddp_entry : jsstring * (RiskLevel * jsstring) :=
  (js "DDP", (critical, js "Delivered Duty Paid - Seller pays ALL costs including duties")).

(** Upper-casing of the ASCII letters, the Unicode conversion on texts
    whose letters are all ASCII. *)
Definition ascii_upper (s : jsstring) : jsstring := map (canon true) s.




(** The normalised part number of a row: trimmed and upper-cased. *)
Definition normalized_part_number (toUpperCase : jsstring -> jsstring) (r : ParsedRow)
  : jsstring :=
  toUpperCase (trim (partNumber r)).

(** The rows carrying a given normalised part number, blank part numbers
    left out. *)
Definition rows_with_part_number (toUpperCase : jsstring -> jsstring) (pn : jsstring)
    (rs : list ParsedRow) : list ParsedRow :=
  List.filter
    (fun r => has_part_number r && str_eqb (normalized_part_number toUpperCase r) pn) rs.









(** The new value of an update is one on which the model is exact: a
    text read as a number for a numeric field, a number printed as
    text for the others. *)
Definition update_value_exact (field : Field) (new : NewValue) : bool :=
  match new with
  | NewNum n => is_numeric field || double_exact n
  | NewStr s => negb (is_numeric field) || double_exact (parseFloat s)
  end.

(** The seven column choices of a mapping. *)
Definition mapped_columns (cm : ColumnMapping) : list (option jsstring) :=
  [cm_partNumber cm; cm_quantity cm; cm_description cm; cm_unitPrice cm;
   cm_unitOfMeasure cm; cm_notes cm; cm_terms cm].

(** Cell values that [JSON.stringify] and [JSON.parse] give back as
    they are. *)
Definition json_safe (v : JsValue) : bool :=
  match v with
  | VUndefined | VNum NaN | VNum (Inf _) => false
  | _ => true
  end.

(** The upload is taken in: a file is given, it passes the size check,
    reading succeeds and the codec reports success. *)
Definition upload_accepted (ADMIN_MODE : bool) (LIMITS : Limits)
    (file : option UploadedFile) (read : ReadOutcome) : bool :=
  match file, read with
  | Some f, ReadOk parseResult =>
      negb (shouldEnforceLimit ADMIN_MODE && (MAX_FILE_SIZE_BYTES LIMITS <? file_size f)%nat)
      && parse_success parseResult
  | Some f, ReadThrows _ => false
  | None, _ => false
  end.

(** An entry is past the retention window at time [now]. *)
Definition expired (now : N) (data : StoredFile) : bool :=
  CLEANUP_INTERVAL_MS <? now - createdAt data.

(** A second example session: the first one after a default quantity
    fix at time 5, holding one stored download. *)
Definition example_session_fixed : Session :=
  snd (fix_missing_quantities null_mapping (Some (js "bom.xlsx")) 5 (js "k3")
         (Fin 1 0) None example_session).

(** Rows with a unit of measure, for the examples. *)
Definition example_uom_rows : list ParsedRow :=
  [ example_row 2 (Some (Fin 12 0)); example_row 3 None;
    example_row 4 (Some (Fin 10000 0)) ].

(** Every pipe of a text stands right after a backslash. *)
Definition pipes_escaped (s : jsstring) : Prop :=
  forall i, nth_error s i = Some 124 ->
            exists j, i = S j /\ nth_error s j = Some 92.

(** What reading a cell gives after the JSON round trip of its row:
    numbers that are not finite read as [null]. *)
Definition json_value (v : JsValue) : JsValue :=
  match v with
  | VNum NaN | VNum (Inf _) => VNull
  | _ => v
  end.

(** The class of [extension_re], what may follow the dot: any code
    unit but the slash and the dot. *)
Definition extension_class : regex := RClass true [CChar 47; CChar 46].

(** A code unit an extension may hold. *)
Definition extension_unit (c : char) : bool := negb (c =? 47) && negb (c =? 46).

(** * Properties *)

(** ** The embedding on literals *)

Example parseFloat_ex1 : parseFloat (js "  12.50abc") = Fin 1250 (-2).
Proof. reflexivity. Qed.
Example parseFloat_ex2 : parseFloat (js "-.5e3") = Fin (-5) 2.
Proof. reflexivity. Qed.
Example parseFloat_ex3 : parseFloat (js "1e") = Fin 1 0 /\ parseFloat (js ".") = NaN.
Proof. split; reflexivity. Qed.
Example numToString_ex :
  map numToString [Fin 123450 (-2); Fin 1 21; Fin 15 (-8); Fin (-5) 0; Fin 100 0]
  = map js ["1234.5"; "1e+21"; "1.5e-7"; "-5"; "100"]%string.
Proof. vm_compute. reflexivity. Qed.

Example price_noise_symbols :
  forallb price_noise (js "$€£¥₩,") = true.
Proof. vm_compute. reflexivity. Qed.

Example percent_re_ex :
  option_map (fun m => (mr_text m, numToString (group_number 1 m)))
             (regex_match true percent_re (js "LD of 0.5 % Per Week, max 10%"))
  = Some (js "0.5 % Per Week", js "0.5").
Proof. vm_compute. reflexivity. Qed.

Example cap_re_ex :
  option_map (fun m => (mr_text m, numToString (group_number 1 m)))
             (regex_match true cap_re (js "penalty 1% per day, Not to exceed 15.0% total"))
  = Some (js "Not to exceed 15.0%", js "15").
Proof. vm_compute. reflexivity. Qed.

Example incoterm_re_ex :
  option_map mr_text (regex_match true (incoterm_re (js "FOB")) (js "TERMS: FOB SHANGHAI, CHINA (2020)"))
  = Some (js "FOB SHANGHAI, CHINA ").
Proof. vm_compute. reflexivity. Qed.

Example extension_stripped :
  replace_first_empty false extension_re (js "bom.v2.xlsx") = js "bom.v2".
Proof. vm_compute. reflexivity. Qed.

Example incoterms_fob :
  map (fun r => (risk_type r, level r, extractedValue r))
      (detectIncoterms ascii_upper 0 (js "FOB Shanghai"))
  = [(incoterms, medium, Some (js "FOB SHANGHAI"))].
Proof. vm_compute. reflexivity. Qed.

Example duplicates_grouped :
  map (fun r => (level r, affectedRows r, extractedValue r))
      (detectDuplicates ascii_upper 0
         [ {| rowNumber := Fin 2 0; partNumber := js "ABC-1"; quantity := None;
              description := []; unitPrice := None; unitOfMeasure := [];
              notes := []; rawData := [] |};
           {| rowNumber := Fin 3 0; partNumber := js " abc-1"; quantity := None;
              description := []; unitPrice := None; unitOfMeasure := [];
              notes := []; rawData := [] |};
           {| rowNumber := Fin 4 0; partNumber := js "XYZ"; quantity := None;
              description := []; unitPrice := None; unitOfMeasure := [];
              notes := []; rawData := [] |};
           {| rowNumber := Fin 5 0; partNumber := []; quantity := None;
              description := []; unitPrice := None; unitOfMeasure := [];
              notes := []; rawData := [] |} ])
  = [(medium, Some [Fin 2 0; Fin 3 0], Some (js "ABC-1"))].
Proof. vm_compute. reflexivity. Qed.

Example ld_single_finding :
  map (fun r => (risk_type r, level r, extractedValue r))
      (detectLiquidatedDamages 0 []
         (js "Liquidated damages: 2% per day; late delivery fee applies"))
  = [(liquidated_damages, critical, Some (js "2% per day"))].
Proof. vm_compute. reflexivity. Qed.

(** ** Value normalizers *)

Lemma remove_class_comm (p q : char -> bool) (s : jsstring) :
  remove_class p (remove_class q s) = remove_class q (remove_class p s).
Proof.
  unfold remove_class. induction s as [|c s IH]; simpl; [reflexivity|].
  destruct (q c) eqn:Hq, (p c) eqn:Hp; simpl; rewrite ?Hq, ?Hp; simpl; congruence.
Qed.

Lemma remove_class_idem (p : char -> bool) (s : jsstring) :
  remove_class p (remove_class p s) = remove_class p s.
Proof.
  unfold remove_class. induction s as [|c s IH]; simpl; [reflexivity|].
  destruct (p c) eqn:Hp; simpl; rewrite ?Hp; simpl; congruence.
Qed.

Lemma remove_class_spec (p : char -> bool) (s : jsstring) (c : char) :
  In c (remove_class p s) <-> In c s /\ p c = false.
Proof.
  unfold remove_class. rewrite filter_In.
  destruct (p c); simpl; intuition congruence.
Qed.

Lemma parseFloat_nil : parseFloat [] = NaN.
Proof. reflexivity. Qed.

(** C8. [parseQuantity] and [parsePrice] are total: on null, undefined
    and the empty string, and whenever [parseFloat] finds no number in
    the stripped text, the result is absent; otherwise it is a number
    that is not NaN, and, for a text whose number is a decimal of at
    most 15 significant digits in the range of doubles, the number
    [parseFloat] reads from the text with commas and whitespace removed
    (for prices also the currency symbols and both parentheses).
    Quantities keep their parentheses, prices drop them without
    negating: [parseQuantity("1,234") = 1234],
    [parsePrice("(100)") = 100] and [parseQuantity("(100)")] is
    absent. *)
Theorem C8_normalizers_total_absent_or_number :
  (parseQuantity VNull = None /\ parseQuantity VUndefined = None
   /\ parseQuantity (VStr []) = None
   /\ parsePrice VNull = None /\ parsePrice VUndefined = None
   /\ parsePrice (VStr []) = None)
  /\ (forall v,
        parseQuantity v = None <->
        is_blank v = true
        \/ parseFloat (remove_class quantity_noise (ToString v)) = NaN)
  /\ (forall v n, parseQuantity v = Some n -> n <> NaN)
  /\ (forall v,
        is_blank v = false ->
        parseFloat (remove_class quantity_noise (ToString v)) <> NaN ->
        double_exact (parseFloat (remove_class quantity_noise (ToString v))) = true ->
        parseQuantity v
        = Some (parseFloat (remove_class quantity_noise (ToString v))))
  /\ (forall v,
        parsePrice v = None <->
        is_blank v = true
        \/ parseFloat (remove_class paren (remove_class price_noise (ToString v))) = NaN)
  /\ (forall v n, parsePrice v = Some n -> n <> NaN)
  /\ (forall v,
        is_blank v = false ->
        parseFloat (remove_class paren (remove_class price_noise (ToString v))) <> NaN ->
        double_exact
          (parseFloat (remove_class paren (remove_class price_noise (ToString v))))
        = true ->
        parsePrice v
        = Some (parseFloat (remove_class paren (remove_class price_noise (ToString v)))))
  /\ (forall c, quantity_noise c = true <-> c = 44 \/ is_space c = true)
  /\ (forall c, price_noise c = true <->
                In c (js "$€£¥₩,") \/ is_space c = true)
  /\ (forall c, paren c = true <-> c = 40 \/ c = 41)
  /\ (forall s, parsePrice (VStr s) = parsePrice (VStr (remove_class paren s)))
  /\ parseQuantity (VStr (js "1,234")) = Some (Fin 1234 0)
  /\ parseQuantity (VStr (js "abc")) = None
  /\ parseQuantity (VStr (js "(100)")) = None
  /\ parsePrice (VStr (js "(100)")) = Some (Fin 100 0)
  /\ parsePrice (VStr (js ")100(")) = Some (Fin 100 0)
  /\ option_map numToString (parsePrice (VStr (js "$1,234.50"))) = Some (js "1234.5").
Proof.
  split; [repeat split; reflexivity|].
  split.
  { intros v. unfold parseQuantity. destruct (is_blank v); [intuition|].
    destruct (parseFloat _); simpl; intuition congruence. }
  split.
  { intros v n. unfold parseQuantity. destruct (is_blank v); [discriminate|].
    destruct (parseFloat _) eqn:E; simpl; intros H; inversion H; subst; congruence. }
  split.
  { intros v Hb Hn _. unfold parseQuantity. rewrite Hb.
    destruct (parseFloat _); [congruence|reflexivity..]. }
  split.
  { intros v. unfold parsePrice. destruct (is_blank v); [intuition|].
    destruct (parseFloat _); simpl; intuition congruence. }
  split.
  { intros v n. unfold parsePrice. destruct (is_blank v); [discriminate|].
    destruct (parseFloat _) eqn:E; simpl; intros H; inversion H; subst; congruence. }
  split.
  { intros v Hb Hn _. unfold parsePrice. rewrite Hb.
    destruct (parseFloat _); [congruence|reflexivity..]. }
  split.
  { intros c. unfold quantity_noise. rewrite orb_true_iff, N.eqb_eq. reflexivity. }
  split.
  { intros c. unfold price_noise. rewrite orb_true_iff, existsb_exists.
    split.
    - intros [[x [Hx Hc]]|H]; [left|right; exact H].
      apply N.eqb_eq in Hc. subst x. exact Hx.
    - intros [H|H]; [left|right; exact H].
      exists c. split; [exact H|apply N.eqb_refl]. }
  split.
  { intros c. unfold paren. rewrite orb_true_iff, !N.eqb_eq. reflexivity. }
  split.
  { intros s. unfold parsePrice.
    destruct s as [|c s]; [reflexivity|].
    assert (Hstrip : remove_class paren
              (remove_class price_noise (ToString (VStr (remove_class paren (c :: s)))))
            = remove_class paren (remove_class price_noise (c :: s))).
    { unfold ToString. rewrite (remove_class_comm paren price_noise),
        remove_class_idem. apply remove_class_comm. }
    destruct (is_blank (VStr (remove_class paren (c :: s)))) eqn:Hb.
    - assert (Hnil : remove_class paren (c :: s) = []).
      { destruct (remove_class paren (c :: s)); [reflexivity|discriminate]. }
      change (is_blank (VStr (c :: s))) with false. cbv iota.
      unfold ToString. rewrite (remove_class_comm paren price_noise), Hnil.
      reflexivity.
    - change (is_blank (VStr (c :: s))) with false. cbv iota.
      rewrite Hstrip. reflexivity. }
  repeat split; vm_compute; reflexivity.
Qed.

(** ** Aggregation *)

Lemma level_eqb_eq (a b : RiskLevel) : level_eqb a b = true <-> a = b.
Proof. destruct a, b; simpl; split; congruence. Qed.

Lemma levelOrder_inj (a b : RiskLevel) : levelOrder a = levelOrder b -> a = b.
Proof. destruct a, b; simpl; congruence. Qed.

Lemma insert_by_level_perm (x : RiskFlag) (l : list RiskFlag) :
  Permutation (x :: l) (insert_by_level x l).
Proof.
  induction l as [|y l IH]; simpl; [reflexivity|].
  destruct (levelOrder (level x) <=? levelOrder (level y))%nat; [reflexivity|].
  rewrite perm_swap. apply perm_skip, IH.
Qed.

Lemma insert_by_level_sorted (x : RiskFlag) (l : list RiskFlag) :
  StronglySorted level_le l -> StronglySorted level_le (insert_by_level x l).
Proof.
  induction 1 as [|y l Hs IH Hy]; simpl.
  - repeat constructor.
  - destruct (levelOrder (level x) <=? levelOrder (level y))%nat eqn:E.
    + apply Nat.leb_le in E. constructor; [constructor; assumption|].
      constructor; [exact E|].
      eapply List.Forall_impl; [|exact Hy]. unfold level_le. intros; lia.
    + apply Nat.leb_gt in E. constructor; [exact IH|].
      eapply Permutation_Forall; [apply insert_by_level_perm|].
      constructor; [unfold level_le; lia|exact Hy].
Qed.

Lemma insert_by_level_stable (lv : RiskLevel) (x : RiskFlag) (l : list RiskFlag) :
  of_level lv (insert_by_level x l) = of_level lv (x :: l).
Proof.
  induction l as [|y l IH]; [reflexivity|].
  simpl insert_by_level.
  destruct (levelOrder (level x) <=? levelOrder (level y))%nat eqn:E; [reflexivity|].
  apply Nat.leb_gt in E.
  change (of_level lv (y :: insert_by_level x l))
    with (if level_eqb (level y) lv then y :: of_level lv (insert_by_level x l)
          else of_level lv (insert_by_level x l)).
  rewrite IH. unfold of_level. simpl.
  destruct (level_eqb (level y) lv) eqn:Ey, (level_eqb (level x) lv) eqn:Ex;
    try reflexivity.
  apply level_eqb_eq in Ey, Ex. rewrite Ey, Ex in E. lia.
Qed.

Lemma sort_by_level_perm (l : list RiskFlag) : Permutation l (sort_by_level l).
Proof.
  induction l as [|x l IH]; simpl; [constructor|].
  rewrite <- insert_by_level_perm. apply perm_skip, IH.
Qed.

Lemma sort_by_level_sorted (l : list RiskFlag) :
  StronglySorted level_le (sort_by_level l).
Proof.
  induction l as [|x l IH]; simpl; [constructor|].
  apply insert_by_level_sorted, IH.
Qed.

Lemma sort_by_level_stable (lv : RiskLevel) (l : list RiskFlag) :
  of_level lv (sort_by_level l) = of_level lv l.
Proof.
  induction l as [|x l IH]; [reflexivity|].
  simpl sort_by_level. rewrite insert_by_level_stable.
  unfold of_level in *. simpl. rewrite IH. reflexivity.
Qed.

(** C3. The aggregator returns the concatenation of the five detector
    outputs (incoterms, liquidated damages, duplicates, UoM, missing
    data) rearranged: the result is a permutation of it, ordered by
    severity rank with critical = 0 first, and for each severity the
    findings of that severity keep their emission order.  Levels
    [low, critical, medium, high] come out as
    [critical, high, medium, low]. *)
Theorem C3_aggregator_stable_severity_sort :
  forall toUpperCase toLowerCase now random_suffix rawText rows,
    let emitted :=
      detectIncoterms toUpperCase now rawText
      ++ detectLiquidatedDamages now random_suffix rawText
      ++ detectDuplicates toUpperCase now rows
      ++ detectUoMConflicts toLowerCase now rows
      ++ detectMissingData now rows in
    let out := analyzeAllRisks toUpperCase toLowerCase now random_suffix rawText rows in
    Permutation emitted out
    /\ StronglySorted level_le out
    /\ (forall lv, of_level lv out = of_level lv emitted)
    /\ map levelOrder [critical; high; medium; low] = [0; 1; 2; 3]%nat
    /\ map level (sort_by_level (map flag_of_level [low; critical; medium; high]))
       = [critical; high; medium; low].
Proof.
  intros. subst emitted out. unfold analyzeAllRisks, allRisks.
  split; [apply sort_by_level_perm|].
  split; [apply sort_by_level_sorted|].
  split; [intros lv; apply sort_by_level_stable|].
  split; reflexivity.
Qed.

(** ** Row materialisation and summary *)

Lemma no_general_app (a b : list RiskFlag) :
  no_general a -> no_general b -> no_general (a ++ b).
Proof.
  unfold no_general. intros Ha Hb. rewrite forallb_app, Ha, Hb. reflexivity.
Qed.

Lemma no_general_flat_map {A : Type} (f : A -> list RiskFlag) (l : list A) :
  (forall x, no_general (f x)) -> no_general (flat_map f l).
Proof.
  intros H. induction l as [|x l IH]; simpl; [reflexivity|].
  apply no_general_app; [apply H|exact IH].
Qed.

Lemma no_general_perm (a b : list RiskFlag) :
  Permutation a b -> no_general a -> no_general b.
Proof.
  unfold no_general. intros Hp Ha. apply forallb_forall.
  intros x Hx. eapply forallb_forall in Ha; [exact Ha|].
  eapply Permutation_in; [symmetry; exact Hp|exact Hx].
Qed.

Section DetectorTypes.

Variable toUpperCase : jsstring -> jsstring.
Variable toLowerCase : jsstring -> jsstring.
Variable now : N.
Variable random_suffix : jsstring.

Lemma incoterm_scan_no_general table upperText :
  no_general (incoterm_scan now table upperText).
Proof.
  induction table as [|[term info] table IH]; simpl; [reflexivity|].
  destruct (regex_match true (incoterm_re term) upperText); [|exact IH].
  unfold no_general in *. simpl. exact IH.
Qed.

Lemma detectIncoterms_no_general rawText :
  no_general (detectIncoterms toUpperCase now rawText).
Proof.
  unfold detectIncoterms.
  destruct (_ && _).
  - apply no_general_app; [apply incoterm_scan_no_general|reflexivity].
  - apply incoterm_scan_no_general.
Qed.

Lemma ld_scan_no_general patterns rawText :
  no_general (ld_scan now random_suffix patterns rawText).
Proof.
  induction patterns as [|p ps IH]; simpl; [reflexivity|].
  destruct (regex_match true p rawText); [reflexivity|exact IH].
Qed.

Lemma detectDuplicates_no_general rows :
  no_general (detectDuplicates toUpperCase now rows).
Proof.
  unfold detectDuplicates. apply no_general_flat_map.
  intros [pn rns]. destruct (1 <? length rns)%nat; reflexivity.
Qed.

Lemma detectUoMConflicts_no_general rows :
  no_general (detectUoMConflicts toLowerCase now rows).
Proof.
  unfold detectUoMConflicts. apply no_general_flat_map.
  intros row. unfold uom_row_flags.
  destruct (unitOfMeasure row); [reflexivity|].
  destruct (quantity row); [|reflexivity].
  apply no_general_app; match goal with |- no_general (if ?c then _ else _) =>
    destruct c; reflexivity end.
Qed.

Lemma detectMissingData_no_general rows :
  no_general (detectMissingData now rows).
Proof.
  unfold detectMissingData.
  apply no_general_app; match goal with |- no_general (match ?l with _ => _ end) =>
    destruct l; reflexivity end.
Qed.

Lemma analyzeAllRisks_no_general rawText rows :
  no_general (analyzeAllRisks toUpperCase toLowerCase now random_suffix rawText rows).
Proof.
  unfold analyzeAllRisks.
  eapply no_general_perm; [apply sort_by_level_perm|].
  unfold allRisks.
  apply no_general_app; [apply detectIncoterms_no_general|].
  apply no_general_app; [apply ld_scan_no_general|].
  apply no_general_app; [apply detectDuplicates_no_general|].
  apply no_general_app; [apply detectUoMConflicts_no_general|].
  apply detectMissingData_no_general.
Qed.

End DetectorTypes.

Lemma mapi_from_length {A B : Type} (f : A -> nat -> B) (i : nat) (l : list A) :
  length (mapi_from f i l) = length l.
Proof. revert i. induction l; intros; simpl; [reflexivity|]. rewrite IHl. reflexivity. Qed.

Lemma mapi_from_map {A B C : Type} (f : A -> nat -> B) (g : B -> C) (h : A -> C)
    (i : nat) (l : list A) :
  (forall x j, g (f x j) = h x) -> map g (mapi_from f i l) = map h l.
Proof.
  intros H. revert i. induction l as [|x l IH]; intros i; simpl; [reflexivity|].
  rewrite H, IH. reflexivity.
Qed.

Lemma mapi_from_index {A B : Type} (f : A -> nat -> B) (g : B -> number)
    (i : nat) (l : list A) :
  (forall x j, g (f x j) = of_nat (j + 2)) ->
  map g (mapi_from f i l) = map of_nat (seq (i + 2) (length l)).
Proof.
  intros H. revert i. induction l as [|x l IH]; intros i; simpl; [reflexivity|].
  rewrite H. f_equal. apply (IH (S i)).
Qed.

Lemma slice0_of_nat {A : Type} (l : list A) (c : nat) :
  slice0 l (of_nat c) = firstn (Nat.min (length l) c) l.
Proof.
  unfold slice0, of_nat, slice_end.
  change (0 <=? 0)%Z with true. cbv iota.
  rewrite Z.pow_0_r, Z.mul_1_r.
  replace (Z.of_nat c <? 0)%Z with false by (symmetry; apply Z.ltb_ge; lia).
  rewrite Nat2Z.id, Nat.min_comm. reflexivity.
Qed.

Lemma slice0_infinity {A : Type} (l : list A) : slice0 l (Inf false) = l.
Proof. unfold slice0. simpl. apply firstn_all. Qed.

Lemma num_gtb_of_nat (n c : nat) : num_gtb (of_nat n) (of_nat c) = true <-> (c < n)%nat.
Proof.
  unfold num_gtb, of_nat, num_compare, fin_compare. simpl.
  rewrite !Z.mul_1_r.
  destruct (Z.compare_spec (Z.of_nat n) (Z.of_nat c)); split; intros; try lia;
    congruence.
Qed.

Lemma num_gtb_of_nat_b (n c : nat) : num_gtb (of_nat n) (of_nat c) = (c <? n)%nat.
Proof.
  destruct (c <? n)%nat eqn:E.
  - apply num_gtb_of_nat, Nat.ltb_lt, E.
  - apply Nat.ltb_ge in E. destruct (num_gtb (of_nat n) (of_nat c)) eqn:G; [|reflexivity].
    apply num_gtb_of_nat in G. lia.
Qed.

Lemma existsb_no_general (rs : list RiskFlag) :
  no_general rs -> existsb is_general rs = false.
Proof.
  unfold no_general. induction rs as [|r rs IH]; simpl; [reflexivity|].
  intros H. apply andb_true_iff in H as [Hr Hrs].
  apply negb_true_iff in Hr. rewrite Hr. simpl. apply IH, Hrs.
Qed.

(** C5. With [n] raw rows and the effective ceiling ([MAX_ROWS] while
    limits are enforced, none in admin mode) the materializer produces
    exactly [min n c] rows, the i-th built from the i-th raw row and
    numbered [i + 2], so the row numbers are 2, 3, ..., [min n c + 1];
    the result holds one [general] finding, the medium-severity
    row-limit warning placed first, exactly when [n > c]. *)
Theorem C5_materializer_row_numbers_and_truncation_warning :
  forall toUpperCase toLowerCase now random_suffix timestamp ADMIN_MODE LIMITS
         name parseResult apiKey aiMapping,
    let n := length (parse_rows parseResult) in
    let c := MAX_ROWS LIMITS in
    let a := analyze_parsed toUpperCase toLowerCase now random_suffix timestamp
               ADMIN_MODE LIMITS name parseResult apiKey aiMapping in
    let kept := if ADMIN_MODE then n else Nat.min n c in
    let truncated := negb ADMIN_MODE && (c <? n)%nat in
    length (rows a) = kept
    /\ map rowNumber (rows a) = map of_nat (seq 2 kept)
    /\ map rawData (rows a) = map json_copy (firstn kept (parse_rows parseResult))
    /\ existsb is_general (risks a) = truncated
    /\ risks a =
       (if truncated then [row_limit_warning LIMITS n] else [])
       ++ analyzeAllRisks toUpperCase toLowerCase now random_suffix
            (rawText parseResult) (rows a)
    /\ level (row_limit_warning LIMITS n) = medium
    /\ risk_type (row_limit_warning LIMITS n) = general.
Proof.
  intros. subst a. unfold analyze_parsed. cbn [rows risks].
  set (mapping := if apiKey && _ then _ else _).
  assert (Hslice : slice0 (parse_rows parseResult)
                     (getEffectiveLimit ADMIN_MODE (MAX_ROWS LIMITS))
                   = firstn kept (parse_rows parseResult)).
  { subst kept. unfold getEffectiveLimit. destruct ADMIN_MODE.
    - rewrite slice0_infinity. symmetry. apply firstn_all.
    - apply slice0_of_nat. }
  assert (Hkept : length (firstn kept (parse_rows parseResult)) = kept).
  { rewrite length_firstn. subst kept n c. destruct ADMIN_MODE; lia. }
  assert (Hlim : num_gtb (of_nat (length (parse_rows parseResult)))
                   (getEffectiveLimit ADMIN_MODE (MAX_ROWS LIMITS))
                 && shouldEnforceLimit ADMIN_MODE = truncated).
  { subst truncated n c. unfold getEffectiveLimit, shouldEnforceLimit.
    destruct ADMIN_MODE; simpl;
      rewrite ?num_gtb_of_nat_b, ?andb_true_r, ?andb_false_r; reflexivity. }
  rewrite Hslice, Hlim.
  split. { unfold mapi. rewrite mapi_from_length. exact Hkept. }
  split. { unfold mapi. rewrite (mapi_from_index _ rowNumber); [|reflexivity].
           rewrite Hkept. reflexivity. }
  split. { unfold mapi. apply mapi_from_map. reflexivity. }
  split.
  { destruct truncated; [reflexivity|].
    apply existsb_no_general, analyzeAllRisks_no_general. }
  split; [destruct truncated; reflexivity|].
  split; reflexivity.
Qed.

Lemma count_levels_total (rs : list RiskFlag) :
  length rs =
  (count_level critical rs + count_level high rs
   + count_level medium rs + count_level low rs)%nat.
Proof.
  unfold count_level. induction rs as [|r rs IH]; simpl; [reflexivity|].
  destruct (level r); simpl; lia.
Qed.

(** C10. In every analysis [processExcelFile] returns, on the failure
    paths as on the success path, [totalRisks] is the length of the
    risk list and the sum of the four per-level counts, [totalRows] is
    the length of the row list, and [validRows] counts the rows whose
    trimmed part number is not empty, so it does not exceed
    [totalRows]. *)
Theorem C10_summary_consistent :
  forall toUpperCase toLowerCase now random_suffix timestamp ADMIN_MODE LIMITS
         file read apiKey aiMapping,
    let a := processExcelFile toUpperCase toLowerCase now random_suffix timestamp
               ADMIN_MODE LIMITS file read apiKey aiMapping in
    totalRisks (summary a) = length (risks a)
    /\ totalRisks (summary a)
       = (criticalRisks (summary a) + highRisks (summary a)
          + mediumRisks (summary a) + lowRisks (summary a))%nat
    /\ criticalRisks (summary a) = count_level critical (risks a)
    /\ highRisks (summary a) = count_level high (risks a)
    /\ mediumRisks (summary a) = count_level medium (risks a)
    /\ lowRisks (summary a) = count_level low (risks a)
    /\ totalRows (summary a) = length (rows a)
    /\ validRows (summary a) = length (List.filter has_part_number (rows a))
    /\ (validRows (summary a) <= totalRows (summary a))%nat.
Proof.
  intros. subst a. unfold processExcelFile.
  destruct file as [f|].
  2: { cbn. repeat split; lia. }
  destruct (shouldEnforceLimit ADMIN_MODE && _).
  { cbn. repeat split; lia. }
  destruct read as [message|parseResult].
  { cbn. repeat split; lia. }
  destruct (negb (parse_success parseResult)).
  { cbn. repeat split; lia. }
  unfold analyze_parsed. cbn [summary risks rows totalRisks criticalRisks highRisks
    mediumRisks lowRisks totalRows validRows].
  split; [reflexivity|].
  split; [apply count_levels_total|].
  do 5 (split; [reflexivity|]).
  split; [reflexivity|].
  apply filter_length_le.
Qed.

(** ** Row-mutation tools *)

Lemma wfb_current (s : Session) :
  wfb s = true ->
  Forall (fun l => (l < length (row_heap s))%nat) (array_at s (currentRows s)).
Proof.
  unfold wfb, array_at. intros H. apply andb_true_iff in H as [_ H].
  destruct (array_heap s !! currentRows s) as [arr|] eqn:E; [|constructor].
  rewrite forallb_forall in H.
  apply list_elem_of_lookup_2, list_elem_of_In in E.
  specialize (H _ E). rewrite forallb_forall in H.
  apply List.Forall_forall. intros l Hl. apply Nat.ltb_lt, H, Hl.
Qed.

Lemma deref_app (heap ext : list ParsedRow) (arr : list addr) :
  Forall (fun l => (l < length heap)%nat) arr ->
  deref (heap ++ ext) arr = deref heap arr.
Proof.
  unfold deref. induction 1 as [|l arr Hl _ IH]; simpl; [reflexivity|].
  rewrite IH. f_equal. apply lookup_total_app_l, Hl.
Qed.

Lemma map_rows_gen (f : ParsedRow -> option ParsedRow) (heap0 : list ParsedRow)
    (arr : list addr) :
  Forall (fun l => (l < length heap0)%nat) arr ->
  forall ext heap' out,
    map_rows f (heap0 ++ ext) arr = (heap', out) ->
    (exists ext', heap' = heap0 ++ ext ++ ext')
    /\ Forall2 (fun l l' =>
                  match f (heap0 !!! l) with
                  | None => l' = l
                  | Some r' => (length (heap0 ++ ext) <= l')%nat /\ heap' !! l' = Some r'
                  end) arr out.
Proof.
  induction 1 as [|l arr Hl Harr IH]; intros ext heap' out Hm; simpl in Hm.
  - inversion Hm; subst. split; [exists []; rewrite app_nil_r; reflexivity|constructor].
  - rewrite (lookup_total_app_l heap0 ext l Hl) in Hm.
    destruct (f (heap0 !!! l)) as [r'|] eqn:Ef.
    + destruct (map_rows f ((heap0 ++ ext) ++ [r']) arr) as [h o] eqn:Er.
      inversion Hm; subst; clear Hm.
      rewrite <- app_assoc in Er.
      destruct (IH _ _ _ Er) as [[ext' Hh] Hf].
      split; [exists ([r'] ++ ext'); rewrite Hh, <- !app_assoc; reflexivity|].
      constructor.
      * rewrite Ef. split; [lia|].
        rewrite Hh.
        replace (heap0 ++ (ext ++ [r']) ++ ext')
          with ((heap0 ++ ext) ++ r' :: ext')
          by (rewrite <- !app_assoc; reflexivity).
        apply list_lookup_middle. reflexivity.
      * eapply Forall2_impl; [exact Hf|]. intros a b. simpl.
        destruct (f (heap0 !!! a)); [|trivial].
        rewrite !length_app. simpl. intros [? ?]; split; [lia|assumption].
    + destruct (map_rows f (heap0 ++ ext) arr) as [h o] eqn:Er.
      inversion Hm; subst; clear Hm.
      destruct (IH _ _ _ Er) as [[ext' Hh] Hf].
      split; [exists ext'; exact Hh|].
      constructor; [rewrite Ef; reflexivity|exact Hf].
Qed.

Lemma map_rows_spec (f : ParsedRow -> option ParsedRow) (heap heap' : list ParsedRow)
    (arr out : list addr) :
  Forall (fun l => (l < length heap)%nat) arr ->
  map_rows f heap arr = (heap', out) ->
  (exists fresh, heap' = heap ++ fresh)
  /\ Forall2 (shared_or_fresh f heap heap') arr out
  /\ deref heap' out = map (row_after f) (deref heap arr).
Proof.
  intros Hwf Hm.
  pose proof (map_rows_gen f heap arr Hwf [] heap' out) as H.
  rewrite app_nil_r in H. destruct (H Hm) as [[ext' Hh] Hf]. clear H.
  simpl in Hh.
  split; [exists ext'; exact Hh|].
  split; [exact Hf|].
  unfold deref, row_after. clear Hm.
  induction Hf as [|l l' arr out Hl Hf IH]; cbn [map]; [reflexivity|].
  inversion Hwf; subst. rewrite IH by assumption. f_equal.
  destruct (f (heap !!! l)) as [r'|] eqn:Ef.
  - destruct Hl as [_ Hl]. apply list_lookup_total_correct. exact Hl.
  - subst l'. apply lookup_total_app_l. assumption.
Qed.

Lemma map_rows_none (f : ParsedRow -> option ParsedRow) (heap : list ParsedRow)
    (arr : list addr) :
  Forall (fun l => f (heap !!! l) = None) arr ->
  map_rows f heap arr = (heap, arr).
Proof.
  induction 1 as [|l arr Hl _ IH]; simpl; [reflexivity|].
  rewrite Hl, IH. reflexivity.
Qed.

Lemma findIndex_none {A : Type} (p : A -> bool) (l : list A) :
  forallb (fun x => negb (p x)) l = true -> findIndex p l = None.
Proof.
  induction l as [|x l IH]; simpl; [reflexivity|].
  intros H. apply andb_true_iff in H as [Hx Hl].
  apply negb_true_iff in Hx. rewrite Hx, (IH Hl). reflexivity.
Qed.

Lemma filter_idem {A : Type} (p : A -> bool) (l : list A) :
  List.filter p (List.filter p l) = List.filter p l.
Proof.
  induction l as [|x l IH]; simpl; [reflexivity|].
  destruct (p x) eqn:E; simpl; rewrite ?E, IH; reflexivity.
Qed.

Lemma array_at_new (arrays : list (list addr)) (arr : list addr) :
  default [] ((arrays ++ [arr]) !! length arrays) = arr.
Proof. rewrite list_lookup_middle; reflexivity. Qed.

Section RouteFacts.

Variable cm : ColumnMapping.
Variable fn : option jsstring.

Lemma delete_rows_state now rnd rowNumbers s :
  let s' := snd (delete_rows cm fn now rnd rowNumbers s) in
  let kept := List.filter (fun l => negb (listed rowNumbers (row_heap s !!! l)))
                          (array_at s (currentRows s)) in
  row_heap s' = row_heap s
  /\ array_heap s' = array_heap s ++ [kept]
  /\ currentRows s' = length (array_heap s)
  /\ array_at s' (currentRows s') = kept
  /\ deletedCount (fst (delete_rows cm fn now rnd rowNumbers s))
     = (length (array_at s (currentRows s)) - length kept)%nat.
Proof.
  cbn zeta. unfold delete_rows, store_current, storeFixedRows, array_at.
  cbn [fst snd row_heap array_heap currentRows with_store assign_rows deletedCount].
  rewrite array_at_new. repeat split; reflexivity.
Qed.

Lemma fix_state now rnd dq targets s heap' out :
  let fixes :=
    map (default_fix dq)
        match targets with
        | Some given => given
        | None => findMissingQuantities (current_rows s)
        end in
  map_rows (apply_fix fixes) (row_heap s) (array_at s (currentRows s)) = (heap', out) ->
  let r := fix_missing_quantities cm fn now rnd dq targets s in
  row_heap (snd r) = heap'
  /\ array_heap (snd r) = array_heap s ++ [out]
  /\ currentRows (snd r) = length (array_heap s)
  /\ array_at (snd r) (currentRows (snd r)) = out
  /\ appliedRemediations (snd r) = appliedRemediations s ++ fixes
  /\ fix_affectedRows (fst r)
     = match targets with
       | Some given => given
       | None => findMissingQuantities (current_rows s)
       end
  /\ download_remediations (fix_download (fst r))
     = map (fun fx =>
              {| rem_rowNumber := fix_rowNumber fx; rem_field := f_quantity;
                 oldValue := VNull; newValue := VNum (fix_quantity fx);
                 rem_reason := fix_reason fx |}) fixes.
Proof.
  cbn zeta. intros Hm.
  unfold fix_missing_quantities, applyQuantityFixes. rewrite Hm.
  unfold store_current, storeFixedRows, array_at.
  cbn [fst snd row_heap array_heap currentRows with_store assign_rows
       appliedRemediations fix_affectedRows fix_download download_remediations].
  rewrite array_at_new. repeat split; reflexivity.
Qed.

Lemma clear_state now rnd field s heap' out :
  map_rows (clear_if_filled field) (row_heap s) (array_at s (currentRows s))
    = (heap', out) ->
  let r := clear_column cm fn now rnd field s in
  let count := length (List.filter (field_filled field) (current_rows s)) in
  row_heap (snd r) = heap'
  /\ array_heap (snd r) = array_heap s ++ [out]
  /\ currentRows (snd r) = length (array_heap s)
  /\ array_at (snd r) (currentRows (snd r)) = out
  /\ affectedCount (fst r) = count
  /\ appliedRemediations (snd r)
     = appliedRemediations s ++
       (if (0 <? count)%nat
        then [ {| fix_rowNumber := Fin 0 0; fix_quantity := Fin 0 0;
                  fix_reason := js "Cleared column: " ++ field_name field |} ]
        else []).
Proof.
  cbn zeta. intros Hm.
  unfold clear_column. rewrite Hm.
  unfold store_current, storeFixedRows, array_at.
  cbn [fst snd row_heap array_heap currentRows with_store assign_rows
       appliedRemediations affectedCount].
  rewrite array_at_new. repeat split; reflexivity.
Qed.

End RouteFacts.

(** C7. When no row of the current array has the requested row number,
    update-cell returns the failure result with its message, raising
    nothing, and the session is left as it was: the same array with the
    same rows, no remediation recorded, nothing stored. *)
Theorem C7_update_cell_not_found :
  forall cm fn now rnd rn field new s,
    row_absent rn s = true ->
    update_cell_value cm fn now rnd rn field new s
    = (UpdateFailed (js "Row " ++ numToString rn ++ js " not found in the data."), s)
    /\ update_success (fst (update_cell_value cm fn now rnd rn field new s)) = false
    /\ current_rows (snd (update_cell_value cm fn now rnd rn field new s))
       = current_rows s
    /\ length (current_rows (snd (update_cell_value cm fn now rnd rn field new s)))
       = length (current_rows s).
Proof.
  intros cm fn now rnd rn field new s H.
  assert (E : update_cell_value cm fn now rnd rn field new s
              = (UpdateFailed (js "Row " ++ numToString rn ++ js " not found in the data."), s)).
  { unfold update_cell_value. unfold row_absent, current_rows in H.
    rewrite (findIndex_none _ _ H). reflexivity. }
  rewrite E. repeat split; reflexivity.
Qed.

Lemma C7_update_cell_not_found_witness :
  row_absent (Fin 9 0) example_session = true
  /\ update_success
       (fst (update_cell_value null_mapping None 0 [] (Fin 9 0) f_quantity
               (NewNum (Fin 4 0)) example_session)) = false
  /\ snd (update_cell_value null_mapping None 0 [] (Fin 9 0) f_quantity
            (NewNum (Fin 4 0)) example_session) = example_session.
Proof.
  split; [reflexivity|].
  pose proof (C7_update_cell_not_found null_mapping None 0 [] (Fin 9 0) f_quantity
                (NewNum (Fin 4 0)) example_session eq_refl) as [E [Hs _]].
  split; [exact Hs|]. rewrite E. reflexivity.
Defined.

Lemma clear_row_empty (field : Field) (row : ParsedRow) :
  field_filled field (clear_row field row) = false.
Proof. destruct field; reflexivity. Qed.

Lemma row_after_clear_empty (field : Field) (row : ParsedRow) :
  field_filled field (row_after (clear_if_filled field) row) = false.
Proof.
  unfold row_after, clear_if_filled.
  destruct (field_filled field row) eqn:E; [apply clear_row_empty|exact E].
Qed.

Lemma filter_none {A : Type} (p : A -> bool) (l : list A) :
  (forall x, In x l -> p x = false) -> List.filter p l = [].
Proof.
  induction l as [|x l IH]; simpl; intros H; [reflexivity|].
  rewrite (H x) by (left; reflexivity). apply IH. intros y Hy. apply H. right. exact Hy.
Qed.

(** C9. Replaying delete-rows with the same row numbers on the result
    of the first call removes no further row, and replaying
    clear-column with the same field reports [affectedCount = 0] and
    appends nothing to the applied remediations; in both cases the
    current array holds the same rows after the replay. *)
Theorem C9_delete_and_clear_replay :
  forall cm fn now1 rnd1 now2 rnd2 s,
    wfb s = true ->
    (forall rowNumbers,
       deletedCount
         (fst (delete_rows cm fn now2 rnd2 rowNumbers
                 (snd (delete_rows cm fn now1 rnd1 rowNumbers s)))) = 0%nat
       /\ current_rows
            (snd (delete_rows cm fn now2 rnd2 rowNumbers
                    (snd (delete_rows cm fn now1 rnd1 rowNumbers s))))
          = current_rows (snd (delete_rows cm fn now1 rnd1 rowNumbers s)))
    /\ (forall field,
          affectedCount
            (fst (clear_column cm fn now2 rnd2 field
                    (snd (clear_column cm fn now1 rnd1 field s)))) = 0%nat
          /\ appliedRemediations
               (snd (clear_column cm fn now2 rnd2 field
                       (snd (clear_column cm fn now1 rnd1 field s))))
             = appliedRemediations (snd (clear_column cm fn now1 rnd1 field s))
          /\ current_rows
               (snd (clear_column cm fn now2 rnd2 field
                       (snd (clear_column cm fn now1 rnd1 field s))))
             = current_rows (snd (clear_column cm fn now1 rnd1 field s))).
Proof.
  intros cm fn now1 rnd1 now2 rnd2 s Hwf. split.
  - intros rowNumbers.
    destruct (delete_rows_state cm fn now1 rnd1 rowNumbers s)
      as (Hh1 & _ & _ & Ha1 & _).
    set (s1 := snd (delete_rows cm fn now1 rnd1 rowNumbers s)) in *.
    destruct (delete_rows_state cm fn now2 rnd2 rowNumbers s1)
      as (Hh2 & _ & _ & Ha2 & Hc2).
    assert (Hk : List.filter (fun l => negb (listed rowNumbers (row_heap s1 !!! l)))
                   (array_at s1 (currentRows s1)) = array_at s1 (currentRows s1)).
    { rewrite Ha1 at 1. rewrite Hh1. rewrite filter_idem. symmetry. exact Ha1. }
    split.
    + rewrite Hc2, Hk. apply Nat.sub_diag.
    + unfold current_rows. rewrite Hh2, Ha2, Hk. reflexivity.
  - intros field.
    pose proof (wfb_current s Hwf) as Hcur.
    destruct (map_rows (clear_if_filled field) (row_heap s) (array_at s (currentRows s)))
      as [heap1 out1] eqn:Em.
    destruct (clear_state cm fn now1 rnd1 field s heap1 out1 Em)
      as (Hh1 & _ & _ & Ha1 & _).
    destruct (map_rows_spec _ _ _ _ _ Hcur Em) as (_ & _ & Hd).
    set (s1 := snd (clear_column cm fn now1 rnd1 field s)) in *.
    assert (Hrows : current_rows s1
                    = map (row_after (clear_if_filled field)) (current_rows s)).
    { unfold current_rows at 1. rewrite Hh1, Ha1. exact Hd. }
    assert (Hempty : forall r, In r (current_rows s1) -> field_filled field r = false).
    { intros r Hr. rewrite Hrows in Hr. apply in_map_iff in Hr as [r0 [<- _]].
      apply row_after_clear_empty. }
    assert (Em2 : map_rows (clear_if_filled field) (row_heap s1)
                    (array_at s1 (currentRows s1))
                  = (row_heap s1, array_at s1 (currentRows s1))).
    { apply map_rows_none. apply List.Forall_forall. intros l Hl.
      unfold clear_if_filled. rewrite Hempty; [reflexivity|].
      unfold current_rows, deref.
      exact (in_map (fun a => row_heap s1 !!! a) _ _ Hl). }
    destruct (clear_state cm fn now2 rnd2 field s1 _ _ Em2)
      as (Hh2 & _ & _ & Ha2 & Hc2 & Hr2).
    rewrite (filter_none _ _ Hempty) in Hc2, Hr2. simpl in Hc2, Hr2.
    split; [exact Hc2|].
    split; [rewrite Hr2; apply app_nil_r|].
    unfold current_rows at 1. rewrite Hh2, Ha2. reflexivity.
Qed.

Lemma C9_delete_and_clear_replay_witness :
  wfb example_session = true
  /\ deletedCount
       (fst (delete_rows null_mapping None 1 [] [Fin 3 0]
               (snd (delete_rows null_mapping None 0 [] [Fin 3 0] example_session))))
     = 0%nat
  /\ affectedCount
       (fst (clear_column null_mapping None 1 [] f_quantity
               (snd (clear_column null_mapping None 0 [] f_quantity example_session))))
     = 0%nat.
Proof.
  split; [reflexivity|].
  pose proof (C9_delete_and_clear_replay null_mapping None 0 [] 1 [] example_session
                eq_refl) as [Hd Hc].
  split; [exact (proj1 (Hd [Fin 3 0]))|exact (proj1 (Hc f_quantity))].
Defined.

Lemma apply_fix_default (dq : number) (targets : list number) (row : ParsedRow) :
  row_after (apply_fix (map (default_fix dq) targets)) row
  = if existsb (fun t => num_eqb t (rowNumber row)) targets
    then set_quantity row (Some dq) else row.
Proof.
  unfold row_after, apply_fix, find_fix.
  induction targets as [|t targets IH]; simpl; [reflexivity|].
  destruct (num_eqb t (rowNumber row)); simpl; [reflexivity|exact IH].
Qed.

(** C1 (as amended). Called without target rows, fix-missing-quantities
    targets the row numbers of exactly the rows whose quantity is
    absent or equal to 0, in row order: these are the reported
    affected rows, each gets one stored remediation with
    [oldValue = null] and [newValue = defaultValue], and every row
    carrying a targeted row number has its quantity set to the
    default while the other rows keep their values. *)
Theorem C1_fix_targets_absent_or_zero :
  forall cm fn now rnd dq s,
    wfb s = true ->
    let targets := map rowNumber (List.filter quantity_missing (current_rows s)) in
    fix_affectedRows (fst (fix_missing_quantities cm fn now rnd dq None s)) = targets
    /\ (forall row,
          quantity_missing row
          = quantity_absent row
            || match quantity row with Some q => num_eqb q (Fin 0 0) | None => false end)
    /\ download_remediations
         (fix_download (fst (fix_missing_quantities cm fn now rnd dq None s)))
       = map (fun rn =>
                {| rem_rowNumber := rn; rem_field := f_quantity; oldValue := VNull;
                   newValue := VNum dq;
                   rem_reason := js "Auto-fixed: Set missing quantity to " ++
                                 numToString dq |})
             targets
    /\ current_rows (snd (fix_missing_quantities cm fn now rnd dq None s))
       = map (fun row =>
                if existsb (fun t => num_eqb t (rowNumber row)) targets
                then set_quantity row (Some dq) else row)
             (current_rows s).
Proof.
  intros cm fn now rnd dq s Hwf targets.
  pose proof (wfb_current s Hwf) as Hcur.
  destruct (map_rows (apply_fix (map (default_fix dq) (findMissingQuantities (current_rows s))))
              (row_heap s) (array_at s (currentRows s))) as [heap' out] eqn:Em.
  destruct (fix_state cm fn now rnd dq None s heap' out Em)
    as (Hh & _ & _ & Ha & _ & Hrows & Hrem).
  destruct (map_rows_spec _ _ _ _ _ Hcur Em) as (_ & _ & Hd).
  split; [exact Hrows|].
  split.
  { intros row. unfold quantity_missing, quantity_absent.
    destruct (quantity row); reflexivity. }
  split.
  { rewrite Hrem, map_map. reflexivity. }
  unfold current_rows at 1. rewrite Hh, Ha, Hd.
  apply map_ext. intros row. apply apply_fix_default.
Qed.

Lemma C1_fix_targets_absent_or_zero_witness :
  wfb example_session = true
  /\ fix_affectedRows
       (fst (fix_missing_quantities null_mapping None 0 [] (Fin 1 0) None example_session))
     = map rowNumber (List.filter quantity_missing (current_rows example_session)).
Proof.
  split; [reflexivity|].
  exact (proj1 (C1_fix_targets_absent_or_zero null_mapping None 0 [] (Fin 1 0)
                  example_session eq_refl)).
Defined.

(** The row numbered 2 holds the quantity 0 and is targeted all the
    same: the targets are not the rows with an absent quantity. *)
Lemma C1_zero_quantity_row_is_targeted :
  map quantity (current_rows example_session) = [Some (Fin 0 0); None; Some (Fin 5 0)]
  /\ map rowNumber (List.filter quantity_absent (current_rows example_session))
     = [Fin 3 0]
  /\ fix_affectedRows
       (fst (fix_missing_quantities null_mapping None 0 [] (Fin 1 0) None example_session))
     = [Fin 2 0; Fin 3 0]
  /\ map quantity
       (current_rows
          (snd (fix_missing_quantities null_mapping None 0 [] (Fin 1 0) None
                  example_session)))
     = [Some (Fin 1 0); Some (Fin 1 0); Some (Fin 5 0)]
  /\ fix_affectedRows
       (fst (fix_missing_quantities null_mapping None 0 [] (Fin 1 0) None example_session))
     <> map rowNumber (List.filter quantity_absent (current_rows example_session)).
Proof.
  repeat split; try (vm_compute; reflexivity).
  vm_compute. discriminate.
Qed.

(** C2 (as amended). Fix-missing-quantities, delete-rows and
    clear-column bind [currentRows] to a newly allocated array: the
    input array and every existing row object stay as they were, and a
    row the operation does not touch is the same object in the new
    array, a touched row being a fresh object.  Update-cell builds a
    fresh row object as well but assigns it into the current array at
    the index found, so the array identity is kept and that one element
    is replaced in place; when the row is not found nothing changes. *)
Theorem C2_fresh_array_except_update_cell :
  forall cm fn now rnd s,
    wfb s = true ->
    (forall dq targets,
       fresh_array s (snd (fix_missing_quantities cm fn now rnd dq targets s))
       /\ Forall2
            (shared_or_fresh
               (apply_fix
                  (map (default_fix dq)
                     match targets with
                     | Some given => given
                     | None => findMissingQuantities (current_rows s)
                     end))
               (row_heap s)
               (row_heap (snd (fix_missing_quantities cm fn now rnd dq targets s))))
            (array_at s (currentRows s))
            (array_at (snd (fix_missing_quantities cm fn now rnd dq targets s))
               (currentRows (snd (fix_missing_quantities cm fn now rnd dq targets s)))))
    /\ (forall rowNumbers,
          fresh_array s (snd (delete_rows cm fn now rnd rowNumbers s))
          /\ row_heap (snd (delete_rows cm fn now rnd rowNumbers s)) = row_heap s
          /\ array_at (snd (delete_rows cm fn now rnd rowNumbers s))
               (currentRows (snd (delete_rows cm fn now rnd rowNumbers s)))
             = List.filter (fun l => negb (listed rowNumbers (row_heap s !!! l)))
                           (array_at s (currentRows s)))
    /\ (forall field,
          fresh_array s (snd (clear_column cm fn now rnd field s))
          /\ Forall2
               (shared_or_fresh (clear_if_filled field) (row_heap s)
                  (row_heap (snd (clear_column cm fn now rnd field s))))
               (array_at s (currentRows s))
               (array_at (snd (clear_column cm fn now rnd field s))
                  (currentRows (snd (clear_column cm fn now rnd field s)))))
    /\ (forall rn field new,
          currentRows (snd (update_cell_value cm fn now rnd rn field new s))
          = currentRows s
          /\ match findIndex (fun r => num_eqb (rowNumber r) rn) (current_rows s) with
             | None => snd (update_cell_value cm fn now rnd rn field new s) = s
             | Some i =>
                 array_heap (snd (update_cell_value cm fn now rnd rn field new s))
                 = <[currentRows s :=
                       <[i := length (row_heap s)]> (array_at s (currentRows s))]>
                     (array_heap s)
                 /\ exists row',
                      row_heap (snd (update_cell_value cm fn now rnd rn field new s))
                      = row_heap s ++ [row']
             end).
Proof.
  intros cm fn now rnd s Hwf.
  pose proof (wfb_current s Hwf) as Hcur.
  repeat apply conj.
  - intros dq targets.
    match goal with |- context [apply_fix ?fx] => set (fixes := fx) end.
    destruct (map_rows (apply_fix fixes) (row_heap s) (array_at s (currentRows s)))
      as [heap' out] eqn:Em.
    destruct (fix_state cm fn now rnd dq targets s heap' out Em)
      as (Hh & Harr & Hc & Ha & _).
    destruct (map_rows_spec _ _ _ _ _ Hcur Em) as (Hfresh & Hshare & _).
    rewrite Hh, Ha. split; [|exact Hshare].
    unfold fresh_array. rewrite Ha, Hh. auto.
  - intros rowNumbers.
    destruct (delete_rows_state cm fn now rnd rowNumbers s) as (Hh & Harr & Hc & Ha & _).
    split; [|split; [exact Hh|exact Ha]].
    unfold fresh_array. rewrite Ha, Hh. repeat split; try assumption.
    exists []. symmetry. apply app_nil_r.
  - intros field.
    destruct (map_rows (clear_if_filled field) (row_heap s) (array_at s (currentRows s)))
      as [heap' out] eqn:Em.
    destruct (clear_state cm fn now rnd field s heap' out Em)
      as (Hh & Harr & Hc & Ha & _).
    destruct (map_rows_spec _ _ _ _ _ Hcur Em) as (Hfresh & Hshare & _).
    rewrite Hh, Ha. split; [|exact Hshare].
    unfold fresh_array. rewrite Ha, Hh. auto.
  - intros rn field new. unfold update_cell_value, current_rows.
    destruct (findIndex _ _) as [i|]; [|split; reflexivity].
    unfold store_current, storeFixedRows.
    cbn [fst snd currentRows array_heap row_heap with_store].
    split; [reflexivity|]. split; [reflexivity|].
    eexists. reflexivity.
Qed.

Lemma C2_fresh_array_except_update_cell_witness :
  wfb example_session = true
  /\ fresh_array example_session
       (snd (delete_rows null_mapping None 0 [] [Fin 3 0] example_session))
  /\ fresh_array example_session
       (snd (clear_column null_mapping None 0 [] f_quantity example_session)).
Proof.
  split; [reflexivity|].
  pose proof (C2_fresh_array_except_update_cell null_mapping None 0 [] example_session
                eq_refl) as (_ & Hd & Hc & _).
  split; [exact (proj1 (Hd [Fin 3 0]))|exact (proj1 (Hc f_quantity))].
Defined.

(** Update-cell on row 2 of the example session: no array is
    allocated, and the array the caller passed in, which held the
    references 0, 1, 2, now holds 3, 1, 2. *)
Lemma C2_update_cell_replaces_in_place :
  array_at example_session (currentRows example_session) = [0; 1; 2]%nat
  /\ update_success
       (fst (update_cell_value null_mapping None 0 [] (Fin 2 0) f_quantity
               (NewNum (Fin 4 0)) example_session)) = true
  /\ length (array_heap
               (snd (update_cell_value null_mapping None 0 [] (Fin 2 0) f_quantity
                       (NewNum (Fin 4 0)) example_session)))
     = length (array_heap example_session)
  /\ array_at
       (snd (update_cell_value null_mapping None 0 [] (Fin 2 0) f_quantity
               (NewNum (Fin 4 0)) example_session))
       (currentRows example_session) = [3; 1; 2]%nat
  /\ ~ fresh_array example_session
         (snd (update_cell_value null_mapping None 0 [] (Fin 2 0) f_quantity
                 (NewNum (Fin 4 0)) example_session)).
Proof.
  repeat split; try (vm_compute; reflexivity).
  intros (_ & Hc & _). vm_compute in Hc. discriminate.
Qed.

(** ** Matcher facts *)

Lemma shrinks_Some : shrinks Some.
Proof. intros a b H. inversion H. reflexivity. Qed.

Lemma star_loop_shrinks step k :
  (forall k', shrinks k' -> shrinks (fun st => step st k')) ->
  shrinks k ->
  forall fuel, shrinks (star_loop step k fuel).
Proof.
  intros Hstep Hk fuel. induction fuel as [|fuel IHf]; intros a b; simpl.
  - apply Hk.
  - match goal with |- context [step a ?k'] =>
      assert (Hk' : shrinks k'); [|destruct (step a k') eqn:E] end.
    + intros a' b'.
      destruct (length (m_rest a') <? length (m_rest a))%nat; [|discriminate].
      apply IHf.
    + intros H. inversion H; subst. apply (Hstep _ Hk' a b E).
    + apply Hk.
Qed.

Lemma rmatch_shrinks (ic : bool) (r : regex) :
  forall k, shrinks k -> shrinks (fun st => rmatch ic r st k).
Proof.
  induction r as [ |c|neg items|r1 IH1 r2 IH2|r1 IH1 r2 IH2|r IH|r IH|i r IH| | ];
    intros k Hk a b; cbn [rmatch].
  - apply Hk.
  - destruct (m_rest a) as [|x rest] eqn:E; [discriminate|].
    destruct (char_eqb _ _); [|discriminate].
    intros H. apply Hk in H. simpl in H. simpl. lia.
  - destruct (m_rest a) as [|x rest] eqn:E; [discriminate|].
    destruct (xorb _ _); [|discriminate].
    intros H. apply Hk in H. simpl in H. simpl. lia.
  - apply (IH1 (fun st' => rmatch ic r2 st' k)). apply IH2, Hk.
  - destruct (rmatch ic r1 a k) eqn:E1.
    + intros H. inversion H; subst. apply (IH1 k Hk a b E1).
    + apply (IH2 k Hk).
  - apply star_loop_shrinks; [exact IH|exact Hk].
  - destruct (rmatch ic r a k) eqn:E1.
    + intros H. inversion H; subst. apply (IH k Hk a b E1).
    + apply Hk.
  - apply (IH (fun st' => k (set_cap i a st'))).
    intros a' b' H. apply Hk in H. exact H.
  - destruct (at_word_boundary a); [apply Hk|discriminate].
  - destruct (m_rest a) eqn:E; [|discriminate].
    intros H. apply Hk in H. rewrite E in H. exact H.
Qed.

(** A successful search comes from a match at some suffix, whose text
    is the part of the suffix the match consumed. *)
Lemma search_from_inv (P : char -> Prop) (ic : bool) (r : regex) :
  forall s prev idx m,
    search_from ic r prev s idx = Some m ->
    Forall P s ->
    exists prev' s' st',
      Forall P s'
      /\ match_at ic r prev' s' = Some st'
      /\ mr_text m = firstn (length s' - length (m_rest st')) s'.
Proof.
  induction s as [|c s IH]; intros prev idx m H HP; simpl in H.
  - destruct (match_at ic r prev []) as [st'|] eqn:E; [|discriminate].
    inversion H; subst. exists prev, [], st'. auto.
  - destruct (match_at ic r prev (c :: s)) as [st'|] eqn:E.
    + inversion H; subst. exists prev, (c :: s), st'. auto.
    + inversion HP; subst. eapply IH; eauto.
Qed.

Lemma canon_upper_fixed (x c : char) :
  is_lower x = false -> is_lower c = false ->
  char_eqb (canon true x) (canon true c) = true -> x = c.
Proof.
  unfold canon, char_eqb. intros -> ->. simpl. apply N.eqb_eq.
Qed.

(** A match of [\bTERM...] in a text without lower-case letters starts
    with [TERM] itself. *)
Lemma literal_prefix_match (term : jsstring) (tail : regex) :
  Forall (fun c => is_lower c = false) term ->
  forall st k st',
    Forall (fun c => is_lower c = false) (m_rest st) ->
    shrinks k ->
    rmatch true (RSeq (rseq (map RChar term)) tail) st k = Some st' ->
    startsWith term (m_rest st) = true
    /\ (length (m_rest st') + length term <= length (m_rest st))%nat.
Proof.
  induction 1 as [|c term Hc Hterm IH]; intros st k st' Hst Hk H.
  - split; [reflexivity|].
    cbn [rmatch rseq map fold_right] in H.
    apply (rmatch_shrinks true tail k Hk) in H. simpl. lia.
  - cbn [rmatch rseq map fold_right] in H.
    destruct (m_rest st) as [|x rest] eqn:E; [discriminate|].
    destruct (char_eqb (canon true x) (canon true c)) eqn:Ec; [|discriminate].
    inversion Hst as [|? ? Hx Hrest]; subst.
    apply canon_upper_fixed in Ec; [|assumption|assumption]. subst x.
    change (rmatch true (RSeq (rseq (map RChar term)) tail)
                   (advance c rest st) k = Some st') in H.
    apply IH in H; [|exact Hrest|exact Hk].
    destruct H as [Hs Hl]. simpl in Hs, Hl.
    split; [simpl; unfold char_eqb; rewrite N.eqb_refl; exact Hs|simpl; lia].
Qed.

Lemma startsWith_firstn (p s : jsstring) (n : nat) :
  startsWith p s = true -> (length p <= n)%nat -> startsWith p (firstn n s) = true.
Proof.
  revert s n. induction p as [|a p IH]; intros s n Hs Hn; [reflexivity|].
  destruct s as [|b s]; [discriminate|]. simpl in Hs, Hn.
  destruct n as [|n]; [lia|]. simpl.
  apply andb_true_iff in Hs as [Hab Hs]. rewrite Hab. simpl.
  apply IH; [exact Hs|lia].
Qed.

Lemma trimStart_snoc (l : jsstring) (x : char) :
  is_space x = false -> trimStart (l ++ [x]) = trimStart l ++ [x].
Proof.
  intros Hx. induction l as [|c l IH]; simpl; [rewrite Hx; reflexivity|].
  destruct (is_space c); [exact IH|reflexivity].
Qed.

Lemma trimEnd_cons (x : char) (t : jsstring) :
  is_space x = false -> trimEnd (x :: t) = x :: trimEnd t.
Proof.
  intros Hx. unfold trimEnd. simpl rev.
  rewrite (trimStart_snoc _ _ Hx), rev_app_distr. reflexivity.
Qed.

Lemma trim_keeps_prefix (p s : jsstring) :
  Forall (fun c => is_space c = false) p -> p <> [] ->
  startsWith p s = true -> startsWith p (trim s) = true.
Proof.
  intros Hp Hne Hs. unfold trim.
  assert (Hts : trimStart s = s).
  { destruct p as [|a p]; [congruence|]. destruct s as [|b s]; [discriminate|].
    simpl in Hs. apply andb_true_iff in Hs as [Hab _].
    apply N.eqb_eq in Hab. subst b. inversion Hp; subst.
    simpl. rewrite H1. reflexivity. }
  rewrite Hts. clear Hts Hne. revert s Hs.
  induction Hp as [|a p Ha Hp IH]; intros s Hs; [reflexivity|].
  destruct s as [|b s]; [discriminate|]. simpl in Hs.
  apply andb_true_iff in Hs as [Hab Hs].
  pose proof Hab as Hab'. apply N.eqb_eq in Hab'. subst b.
  rewrite (trimEnd_cons _ _ Ha). simpl. rewrite Hab. simpl. apply IH, Hs.
Qed.

Lemma startsWith_includes (p s : jsstring) :
  startsWith p s = true -> includes s p = true.
Proof. intros H. destruct s; simpl; rewrite H; reflexivity. Qed.

(** ** Incoterms detector *)

Lemma incoterm_re_shape (term : jsstring) :
  incoterm_re term = RSeq RWordB (RSeq (rseq (map RChar term)) incoterm_tail).
Proof. reflexivity. Qed.

Lemma rmatch_RSeq ic r1 r2 st k :
  rmatch ic (RSeq r1 r2) st k = rmatch ic r1 st (fun st' => rmatch ic r2 st' k).
Proof. reflexivity. Qed.

Lemma rmatch_RWordB ic st k :
  rmatch ic RWordB st k = if at_word_boundary st then k st else None.
Proof. reflexivity. Qed.

Lemma star_never_fails ic r k :
  never_fails k -> never_fails (fun st => rmatch ic (RStar r) st k).
Proof.
  intros Hk st. cbn [rmatch]. generalize (S (length (m_rest st))). intros fuel.
  destruct fuel as [|fuel]; simpl; [apply Hk|].
  destruct (rmatch ic r st _); [discriminate|apply Hk].
Qed.

Lemma opt_never_fails ic r k :
  never_fails k -> never_fails (fun st => rmatch ic (ROpt r) st k).
Proof.
  intros Hk st. cbn [rmatch]. destruct (rmatch ic r st k); [discriminate|apply Hk].
Qed.

Lemma incoterm_tail_never_fails :
  never_fails (fun st => rmatch true incoterm_tail st Some).
Proof.
  unfold incoterm_tail. cbn [rseq fold_right].
  intros st. rewrite rmatch_RSeq. revert st.
  apply star_never_fails. intros st. rewrite rmatch_RSeq. revert st.
  apply opt_never_fails. intros st. rewrite rmatch_RSeq. revert st.
  apply star_never_fails. intros st. rewrite rmatch_RSeq. revert st.
  apply opt_never_fails. intros st. discriminate.
Qed.

Lemma search_from_reaches (ic : bool) (r : regex) (s : jsstring) :
  forall pre prev idx,
    match_at ic r (last_char prev pre) s <> None ->
    search_from ic r prev (pre ++ s) idx <> None.
Proof.
  induction pre as [|c pre IH]; intros prev idx H.
  - simpl in *. destruct s; simpl;
      destruct (match_at ic r prev _); try discriminate; congruence.
  - simpl app. simpl search_from.
    destruct (match_at ic r prev (c :: pre ++ s)); [discriminate|].
    apply IH. exact H.
Qed.

(** The literal code DDP is found wherever the text holds it. *)
Lemma ddp_code_found (upper : jsstring) :
  holds_code (js "DDP") upper ->
  regex_match true (incoterm_re (js "DDP")) upper <> None.
Proof.
  intros (pre & post & -> & Hb).
  apply search_from_reaches.
  unfold match_at. rewrite incoterm_re_shape, rmatch_RSeq, rmatch_RWordB.
  assert (Hwb : at_word_boundary
                  {| m_prev := last_char None pre; m_rest := js "DDP" ++ post;
                     m_caps := [] |} = true).
  { unfold at_word_boundary. cbn [m_prev m_rest].
    destruct (last_char None pre) as [c|]; [rewrite Hb|]; reflexivity. }
  rewrite Hwb. rewrite rmatch_RSeq.
  change (js "DDP" ++ post) with (68 :: 68 :: 80 :: post).
  change (rseq (map RChar (js "DDP")))
    with (RSeq (RChar 68) (RSeq (RChar 68) (RSeq (RChar 80) REps))).
  cbn [rmatch m_rest advance canon is_lower andb char_eqb].
  apply incoterm_tail_never_fails.
Qed.

Lemma incoterm_match_mentions (term upper : jsstring) (m : MatchResult) :
  Forall (fun c => is_lower c = false) term ->
  Forall (fun c => is_space c = false) term ->
  term <> [] ->
  Forall (fun c => is_lower c = false) upper ->
  regex_match true (incoterm_re term) upper = Some m ->
  includes (trim (mr_text m)) term = true.
Proof.
  intros Hlow Hsp Hne Hup Hm.
  destruct (search_from_inv _ _ _ _ _ _ _ Hm Hup) as (prev & s' & st' & Hs' & Hat & Htext).
  unfold match_at in Hat.
  rewrite incoterm_re_shape, rmatch_RSeq, rmatch_RWordB in Hat.
  destruct (at_word_boundary _); [|discriminate].
  apply literal_prefix_match in Hat; [|exact Hlow|exact Hs'|exact shrinks_Some].
  destruct Hat as [Hstart Hlen]. cbn [m_rest] in Hstart, Hlen.
  apply startsWith_includes, trim_keeps_prefix; [exact Hsp|exact Hne|].
  rewrite Htext. apply startsWith_firstn; [exact Hstart|lia].
Qed.

Lemma incoterm_scan_app now (t1 t2 : list (jsstring * (RiskLevel * jsstring))) upper :
  incoterm_scan now (t1 ++ t2) upper
  = incoterm_scan now t1 upper ++ incoterm_scan now t2 upper.
Proof.
  induction t1 as [|[term info] t1 IH]; simpl; [reflexivity|].
  destruct (regex_match true (incoterm_re term) upper); rewrite IH; reflexivity.
Qed.

Lemma incoterm_scan_not_critical now table upper :
  Forall (fun e => level_eqb (fst (snd e)) critical = false) table ->
  count_level critical (incoterm_scan now table upper) = 0%nat.
Proof.
  induction 1 as [|[term info] table He _ IH]; simpl; [reflexivity|].
  destruct (regex_match true (incoterm_re term) upper); [|exact IH].
  unfold count_level in *. simpl in *. rewrite He. exact IH.
Qed.

Lemma count_level_app lv (a b : list RiskFlag) :
  count_level lv (a ++ b) = (count_level lv a + count_level lv b)%nat.
Proof. unfold count_level. rewrite List.filter_app, length_app. reflexivity. Qed.

Lemma INCOTERMS_DATA_split :
  INCOTERMS_DATA = firstn 10 INCOTERMS_DATA ++ [ddp_entry]
  /\ forallb (fun e => negb (level_eqb (fst (snd e)) critical)) (firstn 10 INCOTERMS_DATA)
     = true.
Proof. split; vm_compute; reflexivity. Qed.

Lemma mentions_DDP_spec (l : list RiskFlag) :
  existsb mentions_DDP l = false
  <-> forall r v, In r l -> extractedValue r = Some v -> includes v (js "DDP") = false.
Proof.
  induction l as [|x l IH]; cbn [existsb].
  - split; [intros _ r v []|reflexivity].
  - rewrite orb_false_iff, IH. unfold mentions_DDP at 1. split.
    + intros [Hx Hl] r v [<-|Hr] Hv; [rewrite Hv in Hx; exact Hx|exact (Hl r v Hr Hv)].
    + intros H. split.
      * destruct (extractedValue x) as [v|] eqn:E; [|reflexivity].
        apply (H x v); [left; reflexivity|exact E].
      * intros r v Hr. apply H. right. exact Hr.
Qed.

Lemma incoterm_scan_not_phrase now table upper :
  ~ In (ddp_phrase_flag now) (incoterm_scan now table upper).
Proof.
  induction table as [|[term info] table IH]; cbn [incoterm_scan]; [intros []|].
  destruct (regex_match true (incoterm_re term) upper) as [m|]; [|exact IH].
  intros [H|H]; [|exact (IH H)].
  apply (f_equal (fun f => nth_error (title f) 0)) in H.
  cbn [title incoterm_flag ddp_phrase_flag] in H. vm_compute in H. discriminate.
Qed.

(** C6. When the text holds the phrase "delivered duty paid" in any
    letter case, the detector reports the critical implied-DDP finding,
    after the findings for the literal codes, if and only if none of
    those has an extracted value containing "DDP"; otherwise it
    reports the findings for the codes alone.  The implied finding is
    never one of the findings for the codes.  When the upper-cased
    text holds the literal code DDP (an occurrence that does not
    continue a word), the finding for that code carries "DDP" in its
    extracted value, so the implied finding is not added and the
    result has exactly one critical finding. *)
Theorem C6_implied_ddp_without_literal_mention :
  forall toUpperCase now rawText,
    (forall s, Forall (fun c => is_lower c = false) (toUpperCase s)) ->
    regex_test true ddp_phrase_re rawText = true ->
    let codes := incoterm_scan now INCOTERMS_DATA (toUpperCase rawText) in
    let none_mentions :=
      forall r v, In r codes -> extractedValue r = Some v ->
                  includes v (js "DDP") = false in
    ~ In (ddp_phrase_flag now) codes
    /\ (In (ddp_phrase_flag now) (detectIncoterms toUpperCase now rawText)
        <-> none_mentions)
    /\ (none_mentions ->
        detectIncoterms toUpperCase now rawText = codes ++ [ddp_phrase_flag now])
    /\ (~ none_mentions -> detectIncoterms toUpperCase now rawText = codes)
    /\ level (ddp_phrase_flag now) = critical
    /\ (holds_code (js "DDP") (toUpperCase rawText) ->
        (exists r v, In r codes /\ extractedValue r = Some v
                     /\ includes v (js "DDP") = true)
        /\ detectIncoterms toUpperCase now rawText = codes
        /\ count_level critical (detectIncoterms toUpperCase now rawText) = 1%nat).
Proof.
  intros toUpperCase now rawText Hup Hphrase codes none_mentions.
  pose proof (incoterm_scan_not_phrase now INCOTERMS_DATA (toUpperCase rawText)) as Hnot.
  fold codes in Hnot.
  assert (Hyes : none_mentions ->
                 detectIncoterms toUpperCase now rawText = codes ++ [ddp_phrase_flag now]).
  { intros Hn. pose proof (proj2 (mentions_DDP_spec codes) Hn) as He.
    unfold detectIncoterms. fold codes. rewrite Hphrase, He. reflexivity. }
  assert (Hno : ~ none_mentions -> detectIncoterms toUpperCase now rawText = codes).
  { intros Hn. unfold detectIncoterms. fold codes. rewrite Hphrase.
    destruct (existsb mentions_DDP codes) eqn:E; [reflexivity|].
    exfalso. apply Hn. exact (proj1 (mentions_DDP_spec codes) E). }
  split; [exact Hnot|]. split.
  { split.
    - intros Hin. destruct (existsb mentions_DDP codes) eqn:E.
      + exfalso. rewrite Hno in Hin; [exact (Hnot Hin)|].
        intros Hn. pose proof (proj2 (mentions_DDP_spec codes) Hn). congruence.
      + exact (proj1 (mentions_DDP_spec codes) E).
    - intros Hn. rewrite (Hyes Hn). apply in_or_app. right. left. reflexivity. }
  split; [exact Hyes|]. split; [exact Hno|]. split; [reflexivity|].
  intros Hcode. apply ddp_code_found in Hcode.
  destruct (regex_match true (incoterm_re (js "DDP")) (toUpperCase rawText))
    as [m|] eqn:Hm; [clear Hcode|congruence].
  destruct INCOTERMS_DATA_split as [Hsplit Hothers].
  assert (Hscan : codes
                  = incoterm_scan now (firstn 10 INCOTERMS_DATA) (toUpperCase rawText)
                    ++ [incoterm_flag now (js "DDP") (snd ddp_entry) m]).
  { unfold codes. rewrite Hsplit at 1. rewrite incoterm_scan_app. f_equal.
    unfold ddp_entry. cbn [incoterm_scan snd]. rewrite Hm. reflexivity. }
  assert (Hmention : includes (trim (mr_text m)) (js "DDP") = true).
  { apply (incoterm_match_mentions (js "DDP") (toUpperCase rawText) m);
      [repeat constructor|repeat constructor|discriminate|apply Hup|exact Hm]. }
  assert (Hex : exists r v, In r codes /\ extractedValue r = Some v
                            /\ includes v (js "DDP") = true).
  { exists (incoterm_flag now (js "DDP") (snd ddp_entry) m), (trim (mr_text m)).
    split; [rewrite Hscan; apply in_or_app; right; left; reflexivity|].
    split; [reflexivity|exact Hmention]. }
  assert (Hdet : detectIncoterms toUpperCase now rawText = codes).
  { apply Hno. intros Hn. destruct Hex as (r & v & Hr & Hv & Hi).
    rewrite (Hn r v Hr Hv) in Hi. discriminate. }
  split; [exact Hex|]. split; [exact Hdet|].
  rewrite Hdet, Hscan, count_level_app.
  rewrite incoterm_scan_not_critical.
  - reflexivity.
  - apply List.Forall_forall. intros e He.
    rewrite forallb_forall in Hothers. apply negb_true_iff, Hothers, He.
Qed.

Lemma ascii_upper_no_lower (s : jsstring) :
  Forall (fun c => is_lower c = false) (ascii_upper s).
Proof.
  unfold ascii_upper. apply List.Forall_forall. intros c Hc.
  apply in_map_iff in Hc as [x [<- _]]. unfold canon.
  destruct (is_lower x) eqn:E; simpl; [|exact E].
  unfold is_lower in *. apply andb_true_iff in E as [H1 H2].
  apply N.leb_le in H1, H2. apply andb_false_iff. left. apply N.leb_gt. lia.
Qed.

Lemma C6_implied_ddp_without_literal_mention_witness :
  count_level critical
    (detectIncoterms ascii_upper 0 (js "Terms: DDP Shanghai - Delivered Duty Paid"))
  = 1%nat
  /\ map title (detectIncoterms ascii_upper 0 (js "FOB port; delivered duty paid"))
     = [js "Incoterm Detected: FOB"; js "DDP-equivalent Terms Detected"].
Proof.
  split.
  - assert (Hcode : holds_code (js "DDP")
                      (ascii_upper (js "Terms: DDP Shanghai - Delivered Duty Paid"))).
    { exists (js "TERMS: "), (js " SHANGHAI - DELIVERED DUTY PAID").
      split; vm_compute; reflexivity. }
    destruct (C6_implied_ddp_without_literal_mention ascii_upper 0
                (js "Terms: DDP Shanghai - Delivered Duty Paid")
                ascii_upper_no_lower eq_refl) as (_ & _ & _ & _ & _ & H).
    exact (proj2 (proj2 (H Hcode))).
  - destruct (C6_implied_ddp_without_literal_mention ascii_upper 0
                (js "FOB port; delivered duty paid")
                ascii_upper_no_lower eq_refl) as (_ & _ & Hyes & _).
    rewrite Hyes; [vm_compute; reflexivity|].
    intros r v Hr Hv. vm_compute in Hr. destruct Hr as [<-|[]].
    vm_compute in Hv. inversion Hv. reflexivity.
Defined.

(** ** Liquidated-damages detector *)















Lemma ld_scan_first now rnd (patterns : list regex) (rawText : jsstring) :
  (Forall (fun q => regex_match true q rawText = None) patterns
   /\ ld_scan now rnd patterns rawText = [])
  \/ exists pre p post m,
       patterns = pre ++ p :: post
       /\ Forall (fun q => regex_match true q rawText = None) pre
       /\ regex_match true p rawText = Some m
       /\ ld_scan now rnd patterns rawText = [ld_flag now rnd rawText m].
Proof.
  induction patterns as [|p ps IH]; cbn [ld_scan].
  - left. split; constructor.
  - destruct (regex_match true p rawText) as [m|] eqn:E.
    + right. exists [], p, ps, m.
      split; [reflexivity|]. split; [constructor|]. split; [exact E|reflexivity].
    + destruct IH as [[H1 H2]|(pre & q & post & m & -> & Hpre & Hq & Hs)].
      * left. split; [constructor; assumption|exact H2].
      * right. exists (p :: pre), q, post, m.
        split; [reflexivity|]. split; [constructor; assumption|].
        split; assumption.
Qed.






(** * Further properties of the code *)

(** ** Strings and maps *)

Lemma str_eqb_eq (a b : jsstring) : str_eqb a b = true <-> a = b.
Proof.
  revert b. induction a as [|x a IH]; intros [|y b]; simpl; split; intros H;
    try reflexivity; try discriminate.
  - apply andb_true_iff in H as [Hx Ha]. apply N.eqb_eq in Hx.
    apply IH in Ha. congruence.
  - inversion H; subst. unfold char_eqb. rewrite N.eqb_refl. simpl. apply IH. reflexivity.
Qed.

Lemma str_eqb_refl (a : jsstring) : str_eqb a a = true.
Proof. apply str_eqb_eq. reflexivity. Qed.

Lemma str_eqb_neq (a b : jsstring) : a <> b -> str_eqb a b = false.
Proof.
  intros H. destruct (str_eqb a b) eqn:E; [|reflexivity].
  apply str_eqb_eq in E. contradiction.
Qed.

Lemma map_get_set_eq {V : Type} (k : jsstring) (v : V) (m : list (jsstring * V)) :
  map_get k (map_set k v m) = Some v.
Proof.
  induction m as [|[k' v'] m IH]; simpl.
  - rewrite str_eqb_refl. reflexivity.
  - destruct (str_eqb k' k) eqn:E; simpl; rewrite E; [reflexivity|exact IH].
Qed.

Lemma map_get_set_ne {V : Type} (k t : jsstring) (v : V) (m : list (jsstring * V)) :
  t <> k -> map_get t (map_set k v m) = map_get t m.
Proof.
  intros Hne. induction m as [|[k' v'] m IH]; simpl.
  - rewrite (str_eqb_neq k t) by congruence. reflexivity.
  - destruct (str_eqb k' k) eqn:E; simpl.
    + apply str_eqb_eq in E. subst k'.
      rewrite (str_eqb_neq k t) by congruence. reflexivity.
    + rewrite IH. reflexivity.
Qed.

(** An entry found in a filtered store passes the filter, and the
    first entry under a key survives filtering when it passes. *)
Lemma map_get_filter_found {V : Type} (p : V -> bool) (t : jsstring) (d : V)
    (m : list (jsstring * V)) :
  map_get t (List.filter (fun '(_, x) => p x) m) = Some d -> p d = true.
Proof.
  induction m as [|[k v] m IH]; simpl; [discriminate|].
  destruct (p v) eqn:Ep; [|exact IH].
  simpl. destruct (str_eqb k t); [|exact IH].
  intros H. inversion H; subst. exact Ep.
Qed.

Lemma map_get_filter_In {V : Type} (p : V -> bool) (t : jsstring) (d : V)
    (m : list (jsstring * V)) :
  map_get t (List.filter (fun '(_, x) => p x) m) = Some d -> In (t, d) m.
Proof.
  induction m as [|[k v] m IH]; simpl; [discriminate|].
  destruct (p v); simpl.
  - destruct (str_eqb k t) eqn:Ek.
    + apply str_eqb_eq in Ek. intros H. inversion H; subst. auto.
    + intros H. right. exact (IH H).
  - intros H. right. exact (IH H).
Qed.

Lemma map_get_filter_kept {V : Type} (p : V -> bool) (t : jsstring) (d : V)
    (m : list (jsstring * V)) :
  map_get t m = Some d -> p d = true ->
  map_get t (List.filter (fun '(_, x) => p x) m) = Some d.
Proof.
  induction m as [|[k v] m IH]; simpl; [discriminate|].
  destruct (str_eqb k t) eqn:Ek.
  - intros H Hp. inversion H; subst. rewrite Hp. simpl. rewrite Ek. reflexivity.
  - intros H Hp. destruct (p v); [simpl; rewrite Ek|]; apply IH; assumption.
Qed.

(** ** Corrected-file store *)

(** X1. A stored file is found again under the token that
    [storeFixedRows] returns, with the rows reference, the mapping and
    the file name that were stored, whatever the store held before. *)
Theorem X1_stored_file_is_retrievable :
  forall now rnd store rows_ref mapping name remediations,
    getStoredData
      (token (fst (storeFixedRows now rnd store rows_ref mapping name remediations)))
      (snd (storeFixedRows now rnd store rows_ref mapping name remediations))
    = Some {| data_rows := rows_ref; data_columnMapping := mapping;
              data_fileName := name |}
    /\ download_remediations
         (fst (storeFixedRows now rnd store rows_ref mapping name remediations))
       = remediations.
Proof.
  intros. unfold storeFixedRows, getStoredData. cbn [fst snd token download_remediations].
  rewrite map_get_set_eq. split; reflexivity.
Qed.

(** X2. Storing a file sweeps the store: under any other token, an
    entry older than ten minutes at that moment is gone afterwards, and
    an entry within the window is still found, unchanged. *)
Theorem X2_store_evicts_expired_keeps_live :
  forall now rnd store rows_ref mapping name remediations t,
    t <> generateToken now rnd ->
    (forall data,
       map_get t (snd (storeFixedRows now rnd store rows_ref mapping name remediations))
       = Some data ->
       expired now data = false /\ In (t, data) store)
    /\ (forall data,
          map_get t store = Some data -> expired now data = false ->
          map_get t (snd (storeFixedRows now rnd store rows_ref mapping name remediations))
          = Some data)
    /\ (forall data,
          map_get t store = Some data -> expired now data = false ->
          getStoredData t
            (snd (storeFixedRows now rnd store rows_ref mapping name remediations))
          = getStoredData t store).
Proof.
  intros now rnd store rows_ref mapping name remediations t Hne.
  unfold storeFixedRows. cbn [snd].
  assert (Hget : forall data,
             map_get t store = Some data -> expired now data = false ->
             map_get t (cleanupOldEntries now store) = Some data).
  { intros data Hd He. unfold cleanupOldEntries.
    apply (map_get_filter_kept (fun d => negb (CLEANUP_INTERVAL_MS <? now - createdAt d)));
      [exact Hd|]. unfold expired in He. rewrite He. reflexivity. }
  repeat apply conj.
  - intros data H. rewrite map_get_set_ne in H by exact Hne.
    unfold cleanupOldEntries in H.
    pose proof (map_get_filter_found
                  (fun d => negb (CLEANUP_INTERVAL_MS <? now - createdAt d)) _ _ _ H) as Hp.
    split; [unfold expired; apply negb_true_iff, Hp|].
    exact (map_get_filter_In _ _ _ _ H).
  - intros data Hd He.
    rewrite map_get_set_ne by exact Hne. apply Hget; assumption.
  - intros data Hd He. unfold getStoredData.
    rewrite map_get_set_ne by exact Hne. rewrite (Hget data Hd He), Hd. reflexivity.
Qed.

Lemma X2_store_evicts_expired_keeps_live_witness :
  js "dl_5_k3" <> generateToken 700000 (js "zz")
  /\ map_get (js "dl_5_k3") (correctedFilesStore example_session_fixed) <> None
  /\ map_get (js "dl_5_k3")
       (snd (storeFixedRows 700000 (js "zz") (correctedFilesStore example_session_fixed)
               1%nat null_mapping (js "bom.xlsx") [])) = None
  /\ map_get (js "dl_5_k3")
       (snd (storeFixedRows 900 (js "zz") (correctedFilesStore example_session_fixed)
               1%nat null_mapping (js "bom.xlsx") []))
     = map_get (js "dl_5_k3") (correctedFilesStore example_session_fixed).
Proof.
  assert (Hne : forall n, js "dl_5_k3" <> generateToken n (js "zz")).
  { intros n H. apply (f_equal (fun l => nth_error (rev l) 0)) in H.
    unfold generateToken in H. rewrite !rev_app_distr in H.
    vm_compute in H. discriminate. }
  split; [apply Hne|].
  split; [vm_compute; discriminate|].
  destruct (X2_store_evicts_expired_keeps_live 700000 (js "zz")
              (correctedFilesStore example_session_fixed) 1%nat null_mapping
              (js "bom.xlsx") [] (js "dl_5_k3") (Hne _)) as (Hgone & _ & _).
  destruct (X2_store_evicts_expired_keeps_live 900 (js "zz")
              (correctedFilesStore example_session_fixed) 1%nat null_mapping
              (js "bom.xlsx") [] (js "dl_5_k3") (Hne _)) as (_ & Hkept & _).
  split.
  - destruct (map_get (js "dl_5_k3")
                (snd (storeFixedRows 700000 (js "zz")
                        (correctedFilesStore example_session_fixed) 1%nat null_mapping
                        (js "bom.xlsx") []))) as [data|] eqn:E; [|reflexivity].
    destruct (Hgone data eq_refl) as [Hexp Hin].
    vm_compute in Hin. destruct Hin as [Hin|[]]. inversion Hin; subst.
    vm_compute in Hexp. discriminate.
  - destruct (map_get (js "dl_5_k3") (correctedFilesStore example_session_fixed))
      as [data|] eqn:E; [|vm_compute in E; discriminate].
    apply (Hkept data eq_refl).
    vm_compute in E. inversion E. reflexivity.
Defined.

(** ** Invariants of the row-mutation tools *)

Lemma wfb_spec (s : Session) :
  wfb s = true <->
  (currentRows s < length (array_heap s))%nat
  /\ Forall (Forall (fun l => (l < length (row_heap s))%nat)) (array_heap s).
Proof.
  unfold wfb. rewrite andb_true_iff, Nat.ltb_lt.
  apply and_iff_compat_l.
  rewrite forallb_forall, List.Forall_forall.
  split; intros H arr Harr; specialize (H arr Harr).
  - rewrite forallb_forall in H. apply List.Forall_forall.
    intros l Hl. apply Nat.ltb_lt, H, Hl.
  - rewrite List.Forall_forall in H. apply forallb_forall.
    intros l Hl. apply Nat.ltb_lt, H, Hl.
Qed.

Lemma findIndex_some {A : Type} (p : A -> bool) (l : list A) (i : nat) :
  findIndex p l = Some i ->
  exists x, l !! i = Some x /\ p x = true
            /\ forall j y, (j < i)%nat -> l !! j = Some y -> p y = false.
Proof.
  revert i. induction l as [|a l IH]; intros i; simpl; [discriminate|].
  destruct (p a) eqn:Ea.
  - intros H. inversion H; subst. exists a. repeat split; [exact Ea|]. intros; lia.
  - destruct (findIndex p l) as [i'|]; [|discriminate].
    intros H. inversion H; subst. destruct (IH i' eq_refl) as (x & Hx & Hp & Hbefore).
    exists x. repeat split; [exact Hx|exact Hp|].
    intros [|j] y Hj Hy; simpl in Hy.
    + inversion Hy; subst. exact Ea.
    + apply (Hbefore j y); [lia|exact Hy].
Qed.

Lemma array_at_current (s : Session) :
  (currentRows s < length (array_heap s))%nat ->
  array_heap s !! currentRows s = Some (array_at s (currentRows s)).
Proof.
  intros H. unfold array_at.
  destruct (array_heap s !! currentRows s) eqn:E; [reflexivity|].
  apply lookup_ge_None in E. lia.
Qed.

Lemma shared_or_fresh_bound f heap heap' arr out :
  Forall (fun l => (l < length heap)%nat) arr ->
  (exists fresh, heap' = heap ++ fresh) ->
  Forall2 (shared_or_fresh f heap heap') arr out ->
  Forall (fun l => (l < length heap')%nat) out.
Proof.
  intros Harr [fresh ->] H2.
  induction H2 as [|l l' arr out Hl H2 IH]; [constructor|].
  inversion Harr; subst. constructor; [|apply IH; assumption].
  unfold shared_or_fresh in Hl. destruct (f (heap !!! l)).
  - destruct Hl as [_ Hl]. apply lookup_lt_Some in Hl. exact Hl.
  - subst l'. rewrite length_app. lia.
Qed.

Lemma wf_grow (heap fresh : list ParsedRow) (arrays : list (list nat)) :
  Forall (Forall (fun l => (l < length heap)%nat)) arrays ->
  Forall (Forall (fun l => (l < length (heap ++ fresh))%nat)) arrays.
Proof.
  intros H. eapply List.Forall_impl; [|exact H]. intros arr Harr.
  eapply List.Forall_impl; [|exact Harr]. intros l Hl. cbv beta in *.
  rewrite length_app. lia.
Qed.

Section ToolFacts.

Variable cm : ColumnMapping.
Variable fn : option jsstring.
Variable now : N.
Variable rnd : jsstring.

Lemma update_state rn field new s i :
  findIndex (fun r => num_eqb (rowNumber r) rn) (current_rows s) = Some i ->
  let row := row_heap s !!! (array_at s (currentRows s) !!! i) in
  let row' :=
    if is_numeric field then set_number row field (Some (number_of_new new))
    else set_string row field (ToString (value_of_new new)) in
  let r := update_cell_value cm fn now rnd rn field new s in
  row_heap (snd r) = row_heap s ++ [row']
  /\ array_heap (snd r)
     = <[currentRows s := <[i := length (row_heap s)]> (array_at s (currentRows s))]>
         (array_heap s)
  /\ currentRows (snd r) = currentRows s
  /\ appliedRemediations (snd r)
     = appliedRemediations s ++
       [ {| fix_rowNumber := rn;
            fix_quantity := match field with
                            | f_quantity => number_of_new new
                            | _ => Fin 0 0
                            end;
            fix_reason := js "Updated " ++ field_name field ++ js " from " ++
                          ToString (get_field row field) ++ js " to " ++
                          ToString (value_of_new new) |} ]
  /\ exists msg d,
       fst r = UpdateDone rn field (get_field row field) new msg d
       /\ getStoredData (token d) (correctedFilesStore (snd r))
          = Some {| data_rows := currentRows s; data_columnMapping := cm;
                    data_fileName := download_name fn |}
       /\ download_fileName d
          = replace_first_empty false extension_re (download_name fn)
            ++ js "_corrected.xlsx".
Proof.
  cbn zeta. intros Hi. unfold update_cell_value. unfold current_rows in Hi. rewrite Hi.
  unfold store_current, storeFixedRows.
  cbn [fst snd row_heap array_heap currentRows appliedRemediations correctedFilesStore
       with_store].
  repeat split. eexists _, _. split; [reflexivity|].
  cbn [token download_fileName]. unfold getStoredData. rewrite map_get_set_eq.
  split; reflexivity.
Qed.

Lemma update_rows rn field new s i :
  wfb s = true ->
  findIndex (fun r => num_eqb (rowNumber r) rn) (current_rows s) = Some i ->
  let row := current_rows s !!! i in
  let row' :=
    if is_numeric field then set_number row field (Some (number_of_new new))
    else set_string row field (ToString (value_of_new new)) in
  current_rows (snd (update_cell_value cm fn now rnd rn field new s))
  = <[i := row']> (current_rows s)
  /\ num_eqb (rowNumber row) rn = true
  /\ (i < length (current_rows s))%nat.
Proof.
  cbn zeta. intros Hwf Hi.
  destruct (update_state rn field new s i Hi) as (Hh & Ha & Hc & _).
  pose proof (wfb_current s Hwf) as Hcur.
  apply wfb_spec in Hwf as [Hlt _].
  destruct (findIndex_some _ _ _ Hi) as (x & Hx & Hp & _).
  assert (Hlen : (i < length (array_at s (currentRows s)))%nat).
  { apply lookup_lt_Some in Hx. unfold current_rows, deref in Hx.
    rewrite length_map in Hx. exact Hx. }
  assert (Hrow : current_rows s !!! i
                 = row_heap s !!! (array_at s (currentRows s) !!! i)).
  { unfold current_rows, deref. apply list_lookup_total_correct.
    rewrite list_lookup_fmap.
    rewrite (list_lookup_lookup_total_lt _ _ Hlen). reflexivity. }
  rewrite Hrow. split; [|split].
  - set (arr := array_at s (currentRows s)) in *.
    set (s' := snd (update_cell_value cm fn now rnd rn field new s)) in *.
    assert (Harr : array_at s' (currentRows s') = <[i := length (row_heap s)]> arr).
    { unfold array_at. rewrite Hc, Ha.
      rewrite list_lookup_insert_eq by exact Hlt. reflexivity. }
    unfold current_rows at 1. rewrite Hh, Harr.
    unfold deref. rewrite list_fmap_insert.
    rewrite lookup_total_app_r by lia. rewrite Nat.sub_diag.
    change ([?x] !!! 0%nat) with x. f_equal.
    exact (deref_app _ _ _ Hcur).
  - rewrite <- Hrow. apply list_lookup_total_correct in Hx. rewrite Hx. exact Hp.
  - unfold current_rows, deref. rewrite length_map. exact Hlen.
Qed.

Lemma generate_state notes s :
  let r := generate_corrected_download cm fn now rnd notes s in
  row_heap (snd r) = row_heap s
  /\ array_heap (snd r) = array_heap s
  /\ currentRows (snd r) = currentRows s
  /\ appliedRemediations (snd r) = appliedRemediations s
  /\ remediationsCount (fst r) = length (appliedRemediations s).
Proof.
  cbn zeta. unfold generate_corrected_download, store_current, storeFixedRows.
  repeat split.
Qed.

End ToolFacts.

(** X3. Well-formedness of the session is kept by every tool: after
    fix-missing-quantities, update-cell, delete-rows, clear-column or
    the download tool, the current array is allocated and every
    reference of every array points to an allocated row object. *)
Theorem X3_tools_keep_session_well_formed :
  forall cm fn now rnd s,
    wfb s = true ->
    (forall dq targets,
       wfb (snd (fix_missing_quantities cm fn now rnd dq targets s)) = true)
    /\ (forall rn field new,
          wfb (snd (update_cell_value cm fn now rnd rn field new s)) = true)
    /\ (forall rowNumbers, wfb (snd (delete_rows cm fn now rnd rowNumbers s)) = true)
    /\ (forall field, wfb (snd (clear_column cm fn now rnd field s)) = true)
    /\ (forall notes,
          wfb (snd (generate_corrected_download cm fn now rnd notes s)) = true).
Proof.
  intros cm fn now rnd s Hwf.
  pose proof (wfb_current s Hwf) as Hcur.
  pose proof Hwf as Hwf'. apply wfb_spec in Hwf' as [Hlt Hall].
  assert (Hmap : forall f heap' out s',
             map_rows f (row_heap s) (array_at s (currentRows s)) = (heap', out) ->
             row_heap s' = heap' ->
             array_heap s' = array_heap s ++ [out] ->
             currentRows s' = length (array_heap s) ->
             wfb s' = true).
  { intros f heap' out s' Em Hh Ha Hc.
    destruct (map_rows_spec _ _ _ _ _ Hcur Em) as (Hfresh & Hshare & _).
    apply wfb_spec. rewrite Hh, Ha, Hc, length_app. split; [simpl; lia|].
    apply Forall_app. split.
    - destruct Hfresh as [fresh ->]. apply wf_grow, Hall.
    - constructor; [|constructor].
      eapply shared_or_fresh_bound; eassumption. }
  repeat apply conj.
  - intros dq targets.
    match goal with |- context [fix_missing_quantities _ _ _ _ ?d ?t _] =>
      destruct (map_rows
                  (apply_fix (map (default_fix d)
                     match t with
                     | Some given => given
                     | None => findMissingQuantities (current_rows s)
                     end))
                  (row_heap s) (array_at s (currentRows s))) as [heap' out] eqn:Em
    end.
    destruct (fix_state cm fn now rnd dq targets s heap' out Em) as (Hh & Ha & Hc & _).
    eapply Hmap; eassumption.
  - intros rn field new.
    destruct (findIndex (fun r => num_eqb (rowNumber r) rn) (current_rows s))
      as [i|] eqn:Ei.
    + destruct (update_state cm fn now rnd rn field new s i Ei) as (Hh & Ha & Hc & _).
      apply wfb_spec. rewrite Hh, Ha, Hc, length_insert. split; [exact Hlt|].
      apply Forall_insert.
      * apply (wf_grow _ [_]), Hall.
      * apply Forall_insert.
        -- eapply List.Forall_impl; [|exact Hcur]. intros l Hl. cbv beta in *.
           rewrite length_app. lia.
        -- rewrite length_app. simpl. lia.
    + unfold update_cell_value. unfold current_rows in Ei. rewrite Ei. exact Hwf.
  - intros rowNumbers.
    destruct (delete_rows_state cm fn now rnd rowNumbers s) as (Hh & Ha & Hc & _).
    apply wfb_spec. rewrite Hh, Ha, Hc, length_app. split; [simpl; lia|].
    apply Forall_app. split; [exact Hall|].
    constructor; [|constructor].
    apply List.Forall_forall. intros l Hl. apply filter_In in Hl as [Hl _].
    rewrite List.Forall_forall in Hcur. apply Hcur, Hl.
  - intros field.
    destruct (map_rows (clear_if_filled field) (row_heap s) (array_at s (currentRows s)))
      as [heap' out] eqn:Em.
    destruct (clear_state cm fn now rnd field s heap' out Em) as (Hh & Ha & Hc & _).
    eapply Hmap; eassumption.
  - intros notes.
    destruct (generate_state cm fn now rnd notes s) as (Hh & Ha & Hc & _).
    apply wfb_spec. rewrite Hh, Ha, Hc. split; assumption.
Qed.

Lemma X3_tools_keep_session_well_formed_witness :
  wfb example_session = true
  /\ wfb (snd (update_cell_value null_mapping None 0 [] (Fin 3 0) f_notes
                 (NewStr (js "rush")) example_session)) = true
  /\ wfb (snd (delete_rows null_mapping None 0 [] [Fin 4 0] example_session)) = true.
Proof.
  split; [reflexivity|].
  destruct (X3_tools_keep_session_well_formed null_mapping None 0 [] example_session
              eq_refl) as (_ & Hu & Hd & _).
  split; [apply Hu|apply Hd].
Defined.

Lemma row_after_apply_fix_rowNumber fixes r :
  rowNumber (row_after (apply_fix fixes) r) = rowNumber r.
Proof.
  unfold row_after, apply_fix. destruct (find_fix fixes r); reflexivity.
Qed.

Lemma row_after_clear_rowNumber field r :
  rowNumber (row_after (clear_if_filled field) r) = rowNumber r.
Proof.
  unfold row_after, clear_if_filled, clear_row.
  destruct (field_filled field r); [|reflexivity].
  destruct field; reflexivity.
Qed.

Lemma map_insert_same {A B : Type} (f : A -> B) (l : list A) (i : nat) (x y : A) :
  l !! i = Some y -> f x = f y -> map f (<[i := x]> l) = map f l.
Proof.
  intros Hy Hf. change (map f) with (fmap (M := list) f).
  rewrite list_fmap_insert, Hf. apply list_insert_id.
  rewrite list_lookup_fmap, Hy. reflexivity.
Qed.

Lemma filter_map_comm {A B : Type} (f : A -> B) (p : B -> bool) (l : list A) :
  List.filter p (map f l) = map f (List.filter (fun x => p (f x)) l).
Proof.
  induction l as [|x l IH]; simpl; [reflexivity|].
  destruct (p (f x)); simpl; rewrite IH; reflexivity.
Qed.

Lemma filter_length_split {A : Type} (p : A -> bool) (l : list A) :
  (length (List.filter p l) + length (List.filter (fun x => negb (p x)) l))%nat
  = length l.
Proof.
  induction l as [|x l IH]; simpl; [reflexivity|].
  destruct (p x); simpl; lia.
Qed.

(** X4. Row identity across the tools: fix-missing-quantities,
    update-cell, clear-column and the download tool leave the sequence
    of row numbers of the current rows exactly as it was, and
    delete-rows leaves the sub-sequence of the numbers that were not
    listed.  No tool adds a row or renumbers one. *)
Theorem X4_tools_preserve_row_numbers :
  forall cm fn now rnd s,
    wfb s = true ->
    (forall dq targets,
       map rowNumber (current_rows (snd (fix_missing_quantities cm fn now rnd dq targets s)))
       = map rowNumber (current_rows s))
    /\ (forall rn field new,
          map rowNumber
            (current_rows (snd (update_cell_value cm fn now rnd rn field new s)))
          = map rowNumber (current_rows s))
    /\ (forall field,
          map rowNumber (current_rows (snd (clear_column cm fn now rnd field s)))
          = map rowNumber (current_rows s))
    /\ (forall notes,
          current_rows (snd (generate_corrected_download cm fn now rnd notes s))
          = current_rows s)
    /\ (forall rowNumbers,
          map rowNumber (current_rows (snd (delete_rows cm fn now rnd rowNumbers s)))
          = List.filter
              (fun n => negb (existsb (fun d => same_value_zero d n) rowNumbers))
              (map rowNumber (current_rows s))).
Proof.
  intros cm fn now rnd s Hwf.
  pose proof (wfb_current s Hwf) as Hcur.
  repeat apply conj.
  - intros dq targets.
    match goal with |- context [fix_missing_quantities _ _ _ _ ?d ?t _] =>
      destruct (map_rows
                  (apply_fix (map (default_fix d)
                     match t with
                     | Some given => given
                     | None => findMissingQuantities (current_rows s)
                     end))
                  (row_heap s) (array_at s (currentRows s))) as [heap' out] eqn:Em
    end.
    destruct (fix_state cm fn now rnd dq targets s heap' out Em) as (Hh & _ & _ & Ha & _).
    destruct (map_rows_spec _ _ _ _ _ Hcur Em) as (_ & _ & Hd).
    unfold current_rows at 1. rewrite Hh, Ha, Hd, map_map.
    apply map_ext. intros r. apply row_after_apply_fix_rowNumber.
  - intros rn field new.
    destruct (findIndex (fun r => num_eqb (rowNumber r) rn) (current_rows s))
      as [i|] eqn:Ei.
    + destruct (update_rows cm fn now rnd rn field new s i Hwf Ei) as (Hrows & _ & Hlt).
      rewrite Hrows.
      apply (map_insert_same rowNumber _ i _ (current_rows s !!! i)).
      * apply list_lookup_lookup_total_lt, Hlt.
      * destruct field; reflexivity.
    + unfold update_cell_value. unfold current_rows in Ei. rewrite Ei. reflexivity.
  - intros field.
    destruct (map_rows (clear_if_filled field) (row_heap s) (array_at s (currentRows s)))
      as [heap' out] eqn:Em.
    destruct (clear_state cm fn now rnd field s heap' out Em) as (Hh & _ & _ & Ha & _).
    destruct (map_rows_spec _ _ _ _ _ Hcur Em) as (_ & _ & Hd).
    unfold current_rows at 1. rewrite Hh, Ha, Hd, map_map.
    apply map_ext. intros r. apply row_after_clear_rowNumber.
  - intros notes.
    destruct (generate_state cm fn now rnd notes s) as (Hh & Ha & Hc & _).
    unfold current_rows, array_at. rewrite Hh, Ha, Hc. reflexivity.
  - intros rowNumbers.
    destruct (delete_rows_state cm fn now rnd rowNumbers s) as (Hh & _ & _ & Ha & _).
    unfold current_rows at 1. rewrite Hh, Ha.
    unfold current_rows, deref.
    rewrite (filter_map_comm rowNumber), (filter_map_comm (fun l => row_heap s !!! l)).
    reflexivity.
Qed.

Lemma X4_tools_preserve_row_numbers_witness :
  wfb example_session = true
  /\ map rowNumber
       (current_rows (snd (clear_column null_mapping None 0 [] f_quantity example_session)))
     = map rowNumber (current_rows example_session)
  /\ map rowNumber
       (current_rows (snd (delete_rows null_mapping None 0 [] [Fin 3 0; Fin 8 0]
                             example_session)))
     = [Fin 2 0; Fin 4 0].
Proof.
  split; [reflexivity|].
  destruct (X4_tools_preserve_row_numbers null_mapping None 0 [] example_session
              eq_refl) as (_ & _ & Hc & _ & Hd).
  split; [apply Hc|]. rewrite Hd. vm_compute. reflexivity.
Defined.

(** X5. Delete-rows keeps exactly the rows whose number is not listed,
    in their order; the reported count is the number of rows that were
    listed, so numbers absent from the data are passed over without an
    error; and one applied remediation and one stored remediation is
    recorded per requested number, whether or not a row carried it. *)
Theorem X5_delete_rows_removes_listed_rows :
  forall cm fn now rnd rowNumbers s,
    current_rows (snd (delete_rows cm fn now rnd rowNumbers s))
    = List.filter (fun r => negb (listed rowNumbers r)) (current_rows s)
    /\ deletedCount (fst (delete_rows cm fn now rnd rowNumbers s))
       = length (List.filter (listed rowNumbers) (current_rows s))
    /\ (length (current_rows (snd (delete_rows cm fn now rnd rowNumbers s)))
        + deletedCount (fst (delete_rows cm fn now rnd rowNumbers s)))%nat
       = length (current_rows s)
    /\ map fix_rowNumber (appliedRemediations (snd (delete_rows cm fn now rnd rowNumbers s)))
       = map fix_rowNumber (appliedRemediations s) ++ rowNumbers
    /\ map rem_rowNumber
         (download_remediations
            (delete_download (fst (delete_rows cm fn now rnd rowNumbers s))))
       = rowNumbers.
Proof.
  intros cm fn now rnd rowNumbers s.
  destruct (delete_rows_state cm fn now rnd rowNumbers s) as (Hh & _ & _ & Ha & Hc).
  assert (Hrows : current_rows (snd (delete_rows cm fn now rnd rowNumbers s))
                  = List.filter (fun r => negb (listed rowNumbers r)) (current_rows s)).
  { unfold current_rows at 1. rewrite Hh, Ha. unfold current_rows, deref.
    rewrite (filter_map_comm (fun l => row_heap s !!! l)). reflexivity. }
  assert (Hcount : deletedCount (fst (delete_rows cm fn now rnd rowNumbers s))
                   = length (List.filter (listed rowNumbers) (current_rows s))).
  { rewrite Hc.
    pose proof (filter_length_split (listed rowNumbers) (current_rows s)) as Hsplit.
    replace (length (array_at s (currentRows s))) with (length (current_rows s))
      by (unfold current_rows, deref; apply length_map).
    replace (length (List.filter (fun l => negb (listed rowNumbers (row_heap s !!! l)))
                       (array_at s (currentRows s))))
      with (length (List.filter (fun r => negb (listed rowNumbers r)) (current_rows s))).
    - lia.
    - unfold current_rows, deref.
      rewrite (filter_map_comm (fun l => row_heap s !!! l)), length_map. reflexivity. }
  split; [exact Hrows|]. split; [exact Hcount|].
  split.
  { rewrite Hrows, Hcount.
    pose proof (filter_length_split (listed rowNumbers) (current_rows s)). lia. }
  unfold delete_rows, store_current, storeFixedRows.
  cbn [fst snd appliedRemediations with_store assign_rows delete_download
       download_remediations].
  split.
  - rewrite map_app, map_map. cbn [fix_rowNumber]. rewrite map_id. reflexivity.
  - rewrite map_map. cbn [rem_rowNumber]. apply map_id.
Qed.

Lemma get_field_clear_other field g r :
  g <> field -> get_field (row_after (clear_if_filled field) r) g = get_field r g.
Proof.
  intros Hne. unfold row_after, clear_if_filled, clear_row.
  destruct (field_filled field r); [|reflexivity].
  destruct field, g; try reflexivity; congruence.
Qed.

Lemma filled_count_flag {A B : Type} (p : A -> bool) (l : list A) (x : B) :
  length (if (0 <? length (List.filter p l))%nat then [x] else [])
  = if existsb p l then 1%nat else 0%nat.
Proof.
  induction l as [|a l IH]; [reflexivity|].
  simpl. destruct (p a); [reflexivity|exact IH].
Qed.

(** X6. After clear-column no current row has the field filled, every
    other field of every row is what it was, the number of rows is the
    same, the reported count is the number of rows that had the field
    filled, and the applied remediations grow by one entry when that
    count is positive and by none otherwise. *)
Theorem X6_clear_column_empties_only_that_field :
  forall cm fn now rnd field s,
    wfb s = true ->
    forallb (fun r => negb (field_filled field r))
            (current_rows (snd (clear_column cm fn now rnd field s))) = true
    /\ (forall g, g <> field ->
          map (fun r => get_field r g)
              (current_rows (snd (clear_column cm fn now rnd field s)))
          = map (fun r => get_field r g) (current_rows s))
    /\ length (current_rows (snd (clear_column cm fn now rnd field s)))
       = length (current_rows s)
    /\ affectedCount (fst (clear_column cm fn now rnd field s))
       = length (List.filter (field_filled field) (current_rows s))
    /\ length (appliedRemediations (snd (clear_column cm fn now rnd field s)))
       = (length (appliedRemediations s)
          + if existsb (field_filled field) (current_rows s) then 1 else 0)%nat.
Proof.
  intros cm fn now rnd field s Hwf.
  pose proof (wfb_current s Hwf) as Hcur.
  destruct (map_rows (clear_if_filled field) (row_heap s) (array_at s (currentRows s)))
    as [heap' out] eqn:Em.
  destruct (clear_state cm fn now rnd field s heap' out Em)
    as (Hh & _ & _ & Ha & Hc & Hr).
  destruct (map_rows_spec _ _ _ _ _ Hcur Em) as (_ & _ & Hd).
  assert (Hrows : current_rows (snd (clear_column cm fn now rnd field s))
                  = map (row_after (clear_if_filled field)) (current_rows s)).
  { unfold current_rows at 1. rewrite Hh, Ha. exact Hd. }
  rewrite Hrows. repeat apply conj.
  - apply forallb_forall. intros r Hr'. apply in_map_iff in Hr' as [r0 [<- _]].
    rewrite row_after_clear_empty. reflexivity.
  - intros g Hg. rewrite map_map. apply map_ext. intros r.
    apply get_field_clear_other, Hg.
  - apply length_map.
  - exact Hc.
  - rewrite Hr, length_app. f_equal. apply filled_count_flag.
Qed.

Lemma X6_clear_column_empties_only_that_field_witness :
  wfb example_session = true
  /\ forallb (fun r => negb (field_filled f_quantity r))
       (current_rows (snd (clear_column null_mapping None 0 [] f_quantity example_session)))
     = true
  /\ affectedCount (fst (clear_column null_mapping None 0 [] f_quantity example_session))
     = 2%nat.
Proof.
  split; [reflexivity|].
  destruct (X6_clear_column_empties_only_that_field null_mapping None 0 [] f_quantity
              example_session eq_refl) as (Hempty & _ & _ & Hcount & _).
  split; [exact Hempty|rewrite Hcount; reflexivity].
Defined.

Lemma current_rows_lookup (s : Session) (i : nat) :
  (i < length (current_rows s))%nat ->
  row_heap s !!! (array_at s (currentRows s) !!! i) = current_rows s !!! i.
Proof.
  intros Hi. symmetry. unfold current_rows, deref in *. rewrite length_map in Hi.
  apply list_lookup_total_correct.
  rewrite list_lookup_fmap, (list_lookup_lookup_total_lt _ _ Hi). reflexivity.
Qed.

Lemma get_field_set_other field g r n v :
  g <> field ->
  get_field (if is_numeric field then set_number r field n else set_string r field v) g
  = get_field r g.
Proof. intros Hne. destruct field, g; try reflexivity; congruence. Qed.

Lemma get_field_set_same field r n v :
  get_field (if is_numeric field then set_number r field (Some n)
             else set_string r field v) field
  = if is_numeric field then VNum n else VStr v.
Proof. destruct field; reflexivity. Qed.

(** X7. A successful update-cell: when some current row carries the
    row number, the first such row (index [i]) is the one replaced.
    The result reports its old value of the field; afterwards that
    row keeps its row number, raw data and all other fields, and every
    other row is untouched.  The field itself holds the new value:
    for quantity and unit price the number given, or what
    [parseFloat] reads from the text given, stored even when that is
    NaN; for the other fields the text form.  This last part is
    stated for a text that reads as, or a number that is, a decimal
    of at most 15 significant digits in the range of doubles. *)
Theorem X7_update_cell_replaces_first_matching_row :
  forall cm fn now rnd rn field new s i,
    wfb s = true ->
    findIndex (fun r => num_eqb (rowNumber r) rn) (current_rows s) = Some i ->
    (exists msg d,
       fst (update_cell_value cm fn now rnd rn field new s)
       = UpdateDone rn field (get_field (current_rows s !!! i) field) new msg d)
    /\ (forall j y, (j < i)%nat -> current_rows s !! j = Some y ->
          num_eqb (rowNumber y) rn = false)
    /\ length (current_rows (snd (update_cell_value cm fn now rnd rn field new s)))
       = length (current_rows s)
    /\ (forall j, j <> i ->
          current_rows (snd (update_cell_value cm fn now rnd rn field new s)) !! j
          = current_rows s !! j)
    /\ exists row',
         current_rows (snd (update_cell_value cm fn now rnd rn field new s)) !! i
         = Some row'
         /\ (update_value_exact field new = true ->
             get_field row' field
             = (if is_numeric field then VNum (number_of_new new)
                else VStr (ToString (value_of_new new))))
         /\ (forall g, g <> field ->
               get_field row' g = get_field (current_rows s !!! i) g)
         /\ rowNumber row' = rowNumber (current_rows s !!! i)
         /\ rawData row' = rawData (current_rows s !!! i).
Proof.
  intros cm fn now rnd rn field new s i Hwf Hi.
  destruct (update_rows cm fn now rnd rn field new s i Hwf Hi) as (Hrows & _ & Hlt).
  destruct (update_state cm fn now rnd rn field new s i Hi)
    as (_ & _ & _ & _ & msg & d & Hres & _).
  rewrite (current_rows_lookup s i Hlt) in Hres.
  destruct (findIndex_some _ _ _ Hi) as (x & _ & _ & Hfirst).
  rewrite Hrows.
  split; [exists msg, d; exact Hres|].
  split; [exact Hfirst|].
  split; [apply length_insert|].
  split; [intros j Hj; apply list_lookup_insert_ne; congruence|].
  eexists. split; [apply list_lookup_insert_eq, Hlt|].
  split; [intros _; apply get_field_set_same|].
  split; [intros g Hg; apply get_field_set_other, Hg|].
  split; destruct field; reflexivity.
Qed.

Lemma X7_update_cell_replaces_first_matching_row_witness :
  wfb example_session = true
  /\ findIndex (fun r => num_eqb (rowNumber r) (Fin 3 0)) (current_rows example_session)
     = Some 1%nat
  /\ length (current_rows
               (snd (update_cell_value null_mapping None 0 [] (Fin 3 0) f_quantity
                       (NewStr (js "12.5")) example_session)))
     = 3%nat
  /\ exists row',
       current_rows
         (snd (update_cell_value null_mapping None 0 [] (Fin 3 0) f_quantity
                 (NewStr (js "12.5")) example_session)) !! 1%nat
       = Some row'
       /\ get_field row' f_quantity = VNum (Fin 125 (-1)).
Proof.
  split; [reflexivity|]. split; [reflexivity|].
  destruct (X7_update_cell_replaces_first_matching_row null_mapping None 0 []
              (Fin 3 0) f_quantity (NewStr (js "12.5")) example_session 1 eq_refl eq_refl)
    as (_ & _ & Hlen & _ & row' & Hrow & Hval & _).
  split; [exact Hlen|].
  exists row'. split; [exact Hrow|]. exact (Hval eq_refl).
Defined.

Lemma find_fix_default dq targets row :
  find_fix (map (default_fix dq) targets) row <> None
  <-> existsb (fun t => num_eqb t (rowNumber row)) targets = true.
Proof.
  unfold find_fix. induction targets as [|t targets IH]; simpl; [split; congruence|].
  destruct (num_eqb t (rowNumber row)); simpl; [split; congruence|exact IH].
Qed.

(** X8. Fix-missing-quantities with explicit target row numbers: the
    targets are echoed as the affected rows, but the reported count is
    the number of current rows that carry a target number, so a target
    absent from the data changes nothing and is not counted.  Every
    row carrying a target number gets the default quantity, whatever
    its quantity was, and the stored remediations, one per target, all
    record [oldValue = null]. *)
Theorem X8_fix_with_explicit_targets :
  forall cm fn now rnd dq targets s,
    wfb s = true ->
    let targeted := fun row => existsb (fun t => num_eqb t (rowNumber row)) targets in
    fix_affectedRows (fst (fix_missing_quantities cm fn now rnd dq (Some targets) s))
    = targets
    /\ fixedCount (fst (fix_missing_quantities cm fn now rnd dq (Some targets) s))
       = length (List.filter targeted (current_rows s))
    /\ current_rows (snd (fix_missing_quantities cm fn now rnd dq (Some targets) s))
       = map (fun row => if targeted row then set_quantity row (Some dq) else row)
             (current_rows s)
    /\ map (fun m => (rem_rowNumber m, oldValue m, newValue m))
         (download_remediations
            (fix_download (fst (fix_missing_quantities cm fn now rnd dq (Some targets) s))))
       = map (fun t => (t, VNull, VNum dq)) targets.
Proof.
  intros cm fn now rnd dq targets s Hwf targeted.
  pose proof (wfb_current s Hwf) as Hcur.
  destruct (map_rows (apply_fix (map (default_fix dq) targets))
              (row_heap s) (array_at s (currentRows s))) as [heap' out] eqn:Em.
  destruct (fix_state cm fn now rnd dq (Some targets) s heap' out Em)
    as (Hh & _ & _ & Ha & _ & Hrows & Hrem).
  destruct (map_rows_spec _ _ _ _ _ Hcur Em) as (_ & _ & Hd).
  split; [exact Hrows|].
  split.
  { unfold fix_missing_quantities, applyQuantityFixes. rewrite Em.
    unfold store_current, storeFixedRows. cbn [fst fixedCount].
    fold (current_rows s).
    induction (current_rows s) as [|r rows IH]; [reflexivity|].
    cbn [flat_map List.filter]. rewrite length_app, IH. subst targeted. cbv beta.
    pose proof (find_fix_default dq targets r) as Hf.
    destruct (find_fix (map (default_fix dq) targets) r);
      destruct (existsb (fun t => num_eqb t (rowNumber r)) targets);
      try reflexivity.
    - exfalso. assert (H : false = true) by (apply Hf; discriminate). discriminate.
    - exfalso. apply (proj2 Hf eq_refl). reflexivity. }
  split.
  { unfold current_rows at 1. rewrite Hh, Ha, Hd.
    apply map_ext. intros row. apply apply_fix_default. }
  rewrite Hrem, !map_map. reflexivity.
Qed.

Lemma X8_fix_with_explicit_targets_witness :
  wfb example_session = true
  /\ fix_affectedRows
       (fst (fix_missing_quantities null_mapping None 0 [] (Fin 7 0)
               (Some [Fin 4 0; Fin 99 0]) example_session))
     = [Fin 4 0; Fin 99 0]
  /\ fixedCount
       (fst (fix_missing_quantities null_mapping None 0 [] (Fin 7 0)
               (Some [Fin 4 0; Fin 99 0]) example_session))
     = 1%nat.
Proof.
  split; [reflexivity|].
  destruct (X8_fix_with_explicit_targets null_mapping None 0 [] (Fin 7 0)
              [Fin 4 0; Fin 99 0] example_session eq_refl) as (Ha & Hc & _).
  split; [exact Ha|rewrite Hc; reflexivity].
Defined.

(** ** Downloads offered by the tools *)

Lemma store_current_serves cm fn now rnd s rems :
  download_GET (snd (store_current cm fn now rnd s rems))
               (token (fst (store_current cm fn now rnd s rems)))
  = DownloadFile
      (wsData (current_rows (snd (store_current cm fn now rnd s rems))))
      (js "attachment; filename=" ++ dquote ++
       download_fileName (fst (store_current cm fn now rnd s rems)) ++ dquote).
Proof.
  unfold store_current, storeFixedRows, download_GET, getStoredData.
  cbn [fst snd token download_fileName correctedFilesStore with_store].
  rewrite map_get_set_eq. cbn [data_rows data_fileName stored_rows stored_fileName].
  rewrite <- !app_assoc. reflexivity.
Qed.

Ltac split_store_current :=
  match goal with
  | |- context [store_current ?cm ?fn ?now ?rnd ?s ?rems] =>
      pose proof (store_current_serves cm fn now rnd s rems) as Hserve;
      destruct (store_current cm fn now rnd s rems) as [dl s2];
      cbn [fst snd] in Hserve |- *
  end.

(** X9. The link a tool hands out serves the tool's own result: asked
    for the token returned by fix-missing-quantities, delete-rows,
    clear-column, the download tool or a successful update-cell, the
    download route answers with the sheet of the rows that are current
    after the call, under the file name the tool reported. *)
Theorem X9_returned_link_serves_resulting_rows :
  forall cm fn now rnd s,
    let served := fun (s' : Session) (d : DownloadResult) =>
      download_GET s' (token d)
      = DownloadFile (wsData (current_rows s'))
          (js "attachment; filename=" ++ dquote ++ download_fileName d ++ dquote) in
    (forall dq targets,
       served (snd (fix_missing_quantities cm fn now rnd dq targets s))
              (fix_download (fst (fix_missing_quantities cm fn now rnd dq targets s))))
    /\ (forall rowNumbers,
          served (snd (delete_rows cm fn now rnd rowNumbers s))
                 (delete_download (fst (delete_rows cm fn now rnd rowNumbers s))))
    /\ (forall field,
          served (snd (clear_column cm fn now rnd field s))
                 (clear_download (fst (clear_column cm fn now rnd field s))))
    /\ (forall notes,
          served (snd (generate_corrected_download cm fn now rnd notes s))
                 (generate_download
                    (fst (generate_corrected_download cm fn now rnd notes s))))
    /\ (forall rn field new old msg d,
          fst (update_cell_value cm fn now rnd rn field new s)
          = UpdateDone rn field old new msg d ->
          served (snd (update_cell_value cm fn now rnd rn field new s)) d).
Proof.
  intros cm fn now rnd s served. subst served. cbv beta.
  repeat apply conj.
  - intros dq targets. unfold fix_missing_quantities.
    destruct (applyQuantityFixes _ _ _) as [[heap' fixedRows] remediations].
    split_store_current. exact Hserve.
  - intros rowNumbers. unfold delete_rows. cbv zeta.
    split_store_current. exact Hserve.
  - intros field. unfold clear_column. cbv zeta.
    destruct (map_rows _ _ _) as [heap' cleared].
    split_store_current. exact Hserve.
  - intros notes. unfold generate_corrected_download.
    split_store_current. exact Hserve.
  - intros rn field new old msg d. unfold update_cell_value. cbv zeta.
    destruct (findIndex _ _) as [i|]; [|discriminate].
    split_store_current. intros H. inversion H; subst. exact Hserve.
Qed.

(** ** The remediation log and the row objects *)

(** X10. The remediation log only grows and no row object is ever
    changed or dropped: each tool leaves the earlier log entries and
    the earlier row objects in place.  Fix-missing-quantities logs one
    entry per target and delete-rows one per requested row number,
    whether or not a row carried it; clear-column logs one entry when
    some row was filled and none otherwise; update-cell logs one on
    success and none on failure; the download tool logs nothing and
    reports the length of the log. *)
Theorem X10_log_and_row_objects_only_grow :
  forall cm fn now rnd s,
    wfb s = true ->
    let grows := fun (s' : Session) (n : nat) =>
      (exists added, appliedRemediations s' = appliedRemediations s ++ added
                     /\ length added = n)
      /\ (exists fresh, row_heap s' = row_heap s ++ fresh) in
    (forall dq targets,
       grows (snd (fix_missing_quantities cm fn now rnd dq targets s))
             (length (fix_affectedRows
                        (fst (fix_missing_quantities cm fn now rnd dq targets s)))))
    /\ (forall rowNumbers,
          grows (snd (delete_rows cm fn now rnd rowNumbers s)) (length rowNumbers))
    /\ (forall field,
          grows (snd (clear_column cm fn now rnd field s))
                (if (0 <? affectedCount (fst (clear_column cm fn now rnd field s)))%nat
                 then 1%nat else 0%nat))
    /\ (forall notes,
          grows (snd (generate_corrected_download cm fn now rnd notes s)) 0%nat
          /\ remediationsCount (fst (generate_corrected_download cm fn now rnd notes s))
             = length (appliedRemediations s))
    /\ (forall rn field new,
          grows (snd (update_cell_value cm fn now rnd rn field new s))
                (if update_success (fst (update_cell_value cm fn now rnd rn field new s))
                 then 1%nat else 0%nat)).
Proof.
  intros cm fn now rnd s Hwf grows. subst grows. cbv beta.
  pose proof (wfb_current s Hwf) as Hcur.
  repeat apply conj.
  - intros dq targets.
    match goal with |- context [fix_missing_quantities _ _ _ _ ?d ?t _] =>
      destruct (map_rows
                  (apply_fix (map (default_fix d)
                     match t with
                     | Some given => given
                     | None => findMissingQuantities (current_rows s)
                     end))
                  (row_heap s) (array_at s (currentRows s))) as [heap' out] eqn:Em
    end.
    destruct (fix_state cm fn now rnd dq targets s heap' out Em)
      as (Hh & _ & _ & _ & Hlog & Haff & _).
    destruct (map_rows_spec _ _ _ _ _ Hcur Em) as (Hfresh & _).
    rewrite Hh, Hlog, Haff. split; [|exact Hfresh].
    eexists. split; [reflexivity|apply length_map].
  - intros rowNumbers. unfold delete_rows, store_current, storeFixedRows.
    cbn [fst snd row_heap appliedRemediations with_store assign_rows].
    split; [eexists; split; [reflexivity|apply length_map]|].
    exists []. rewrite app_nil_r. reflexivity.
  - intros field.
    destruct (map_rows (clear_if_filled field) (row_heap s) (array_at s (currentRows s)))
      as [heap' out] eqn:Em.
    destruct (clear_state cm fn now rnd field s heap' out Em)
      as (Hh & _ & _ & _ & Hcount & Hlog).
    destruct (map_rows_spec _ _ _ _ _ Hcur Em) as (Hfresh & _).
    rewrite Hh, Hlog, Hcount. split; [|exact Hfresh].
    eexists. split; [reflexivity|].
    destruct (0 <? _)%nat; reflexivity.
  - intros notes.
    destruct (generate_state cm fn now rnd notes s) as (Hh & _ & _ & Hlog & Hn).
    rewrite Hh, Hlog. split; [|exact Hn].
    split; exists []; rewrite app_nil_r; split; reflexivity.
  - intros rn field new.
    destruct (findIndex (fun r => num_eqb (rowNumber r) rn) (current_rows s))
      as [i|] eqn:Ei.
    + destruct (update_state cm fn now rnd rn field new s i Ei)
        as (Hh & _ & _ & Hlog & msg & d & Hres & _).
      rewrite Hh, Hlog, Hres. cbn [update_success].
      split; eexists; [split|]; reflexivity.
    + unfold update_cell_value. unfold current_rows in Ei. rewrite Ei.
      cbn [fst snd update_success].
      split; exists []; rewrite app_nil_r; [split|]; reflexivity.
Qed.

Lemma X10_log_and_row_objects_only_grow_witness :
  wfb example_session = true
  /\ length (appliedRemediations
               (snd (delete_rows null_mapping None 0 [] [Fin 99 0; Fin 98 0]
                       example_session)))
     = 2%nat.
Proof.
  split; [reflexivity|].
  destruct (X10_log_and_row_objects_only_grow null_mapping None 0 [] example_session
              eq_refl) as (_ & Hdel & _).
  destruct (Hdel [Fin 99 0; Fin 98 0]) as [(added & Hlog & Hlen) _].
  rewrite Hlog, length_app, Hlen. reflexivity.
Defined.

(** ** Earlier downloads *)

Lemma getStoredData_kept now rnd store rows_ref mapping name remediations t data :
  t <> generateToken now rnd ->
  map_get t store = Some data -> expired now data = false ->
  map_get t (snd (storeFixedRows now rnd store rows_ref mapping name remediations))
  = Some data.
Proof.
  intros Hne Hd He. unfold storeFixedRows. cbn [snd].
  rewrite map_get_set_ne by exact Hne. unfold cleanupOldEntries.
  apply (map_get_filter_kept (fun d => negb (CLEANUP_INTERVAL_MS <? now - createdAt d)));
    [exact Hd|]. unfold expired in He. rewrite He. reflexivity.
Qed.

Lemma download_GET_unchanged now rnd rows_ref mapping name remediations s s' t data :
  wfb s = true ->
  t <> generateToken now rnd ->
  map_get t (correctedFilesStore s) = Some data -> expired now data = false ->
  (stored_rows data < length (array_heap s))%nat ->
  (exists fresh, row_heap s' = row_heap s ++ fresh) ->
  array_heap s' !! stored_rows data = array_heap s !! stored_rows data ->
  correctedFilesStore s'
  = snd (storeFixedRows now rnd (correctedFilesStore s) rows_ref mapping name
           remediations) ->
  download_GET s' t = download_GET s t.
Proof.
  intros Hwf Hne Hd He Hlt [fresh Hh] Ha Hs.
  unfold download_GET, getStoredData.
  rewrite Hs, (getStoredData_kept _ _ _ _ _ _ _ _ _ Hne Hd He), Hd.
  cbn [data_rows data_fileName]. unfold array_at. rewrite Ha, Hh.
  apply wfb_spec in Hwf as [_ Hall].
  destruct (array_heap s !! stored_rows data) as [arr|] eqn:E.
  - cbn [default]. rewrite deref_app; [reflexivity|].
    rewrite List.Forall_forall in Hall. apply Hall.
    apply list_elem_of_In. eapply list_elem_of_lookup_2, E.
  - apply lookup_ge_None in E. lia.
Qed.

Ltac close_unchanged Hlt :=
  first [ eassumption
        | apply lookup_app_l, Hlt
        | reflexivity
        | exists []; rewrite app_nil_r; reflexivity ].

(** X11. What an earlier download link serves after a later tool call.
    Take a link stored before, still within the ten-minute window and
    with another token than the one the call creates.  After
    fix-missing-quantities, delete-rows, clear-column or the download
    tool it serves exactly what it served before: those calls leave
    the stored rows alone.  After a successful update-cell it serves
    the updated rows when it was stored for the array that is current,
    since that array is changed in place. *)
Theorem X11_earlier_links_after_a_tool_call :
  forall cm fn now rnd s t data,
    wfb s = true ->
    map_get t (correctedFilesStore s) = Some data ->
    expired now data = false ->
    t <> generateToken now rnd ->
    (stored_rows data < length (array_heap s))%nat ->
    (forall dq targets,
       download_GET (snd (fix_missing_quantities cm fn now rnd dq targets s)) t
       = download_GET s t)
    /\ (forall rowNumbers,
          download_GET (snd (delete_rows cm fn now rnd rowNumbers s)) t
          = download_GET s t)
    /\ (forall field,
          download_GET (snd (clear_column cm fn now rnd field s)) t = download_GET s t)
    /\ (forall notes,
          download_GET (snd (generate_corrected_download cm fn now rnd notes s)) t
          = download_GET s t)
    /\ (forall rn field new,
          update_success (fst (update_cell_value cm fn now rnd rn field new s)) = true ->
          stored_rows data = currentRows s ->
          download_GET (snd (update_cell_value cm fn now rnd rn field new s)) t
          = DownloadFile
              (wsData (current_rows (snd (update_cell_value cm fn now rnd rn field new s))))
              (js "attachment; filename=" ++ dquote ++
               replace_first_empty false extension_re (stored_fileName data) ++
               js "_corrected.xlsx" ++ dquote)).
Proof.
  intros cm fn now rnd s t data Hwf Hd He Hne Hlt.
  pose proof (wfb_current s Hwf) as Hcur.
  repeat apply conj.
  - intros dq targets. unfold fix_missing_quantities, applyQuantityFixes.
    destruct (map_rows _ (row_heap s) (array_at s (currentRows s)))
      as [heap' out] eqn:Em.
    destruct (map_rows_spec _ _ _ _ _ Hcur Em) as (Hfresh & _).
    unfold store_current, storeFixedRows. cbn [fst snd].
    eapply (download_GET_unchanged now rnd); try eassumption;
      cbn [row_heap array_heap correctedFilesStore with_store assign_rows currentRows];
      close_unchanged Hlt.
  - intros rowNumbers. unfold delete_rows, store_current, storeFixedRows. cbn [fst snd].
    eapply (download_GET_unchanged now rnd); try eassumption;
      cbn [row_heap array_heap correctedFilesStore with_store assign_rows currentRows];
      close_unchanged Hlt.
  - intros field. unfold clear_column.
    destruct (map_rows _ (row_heap s) (array_at s (currentRows s)))
      as [heap' out] eqn:Em.
    destruct (map_rows_spec _ _ _ _ _ Hcur Em) as (Hfresh & _).
    unfold store_current, storeFixedRows. cbn [fst snd].
    eapply (download_GET_unchanged now rnd); try eassumption;
      cbn [row_heap array_heap correctedFilesStore with_store assign_rows currentRows];
      close_unchanged Hlt.
  - intros notes. unfold generate_corrected_download, store_current, storeFixedRows.
    cbn [fst snd].
    eapply (download_GET_unchanged now rnd); try eassumption;
      cbn [row_heap array_heap correctedFilesStore with_store assign_rows currentRows];
      close_unchanged Hlt.
  - intros rn field new Hok Hsame.
    unfold current_rows at 1.
    revert Hok. unfold update_cell_value.
    destruct (findIndex _ _) as [i|]; [intros _|discriminate].
    unfold store_current, storeFixedRows. cbn [fst snd].
    unfold download_GET, getStoredData.
    cbn [row_heap array_heap correctedFilesStore with_store currentRows].
    rewrite map_get_set_ne by exact Hne.
    unfold cleanupOldEntries.
    rewrite (map_get_filter_kept
               (fun d => negb (CLEANUP_INTERVAL_MS <? now - createdAt d)) t data _ Hd)
      by (unfold expired in He; rewrite He; reflexivity).
    cbn [data_rows data_fileName]. rewrite Hsame. reflexivity.
Qed.

Lemma X11_earlier_links_after_a_tool_call_witness :
  download_GET
    (snd (delete_rows null_mapping (Some (js "bom.xlsx")) 900 (js "zz") [Fin 2 0]
            example_session_fixed))
    (js "dl_5_k3")
  = download_GET example_session_fixed (js "dl_5_k3").
Proof.
  assert (Hne : js "dl_5_k3" <> generateToken 900 (js "zz")).
  { intros H. apply (f_equal (fun l => nth_error (rev l) 0)) in H.
    vm_compute in H. discriminate. }
  destruct (map_get (js "dl_5_k3") (correctedFilesStore example_session_fixed))
    as [data|] eqn:E; [|vm_compute in E; discriminate].
  assert (Hdata : createdAt data = 5 /\ stored_rows data = 1%nat).
  { vm_compute in E. inversion E. split; reflexivity. }
  destruct Hdata as [Hc Hr].
  destruct (X11_earlier_links_after_a_tool_call null_mapping (Some (js "bom.xlsx")) 900
              (js "zz") example_session_fixed (js "dl_5_k3") data) as (_ & Hdel & _).
  - reflexivity.
  - exact E.
  - unfold expired. rewrite Hc. reflexivity.
  - exact Hne.
  - rewrite Hr. vm_compute. lia.
  - apply Hdel.
Defined.

(** ** Duplicate part numbers *)

Lemma map_push_get_eq pn rn m :
  map_get pn (map_push pn rn m)
  = Some (match map_get pn m with Some v => v ++ [rn] | None => [rn] end).
Proof.
  induction m as [|[k v] m IH]; simpl.
  - rewrite str_eqb_refl. reflexivity.
  - destruct (str_eqb k pn) eqn:E; simpl; rewrite E; [reflexivity|exact IH].
Qed.

Lemma map_push_get_ne pn pn' rn m :
  pn' <> pn -> map_get pn' (map_push pn rn m) = map_get pn' m.
Proof.
  intros Hne. induction m as [|[k v] m IH]; simpl.
  - rewrite (str_eqb_neq pn pn') by congruence. reflexivity.
  - destruct (str_eqb k pn) eqn:E; simpl.
    + apply str_eqb_eq in E. subst k.
      rewrite (str_eqb_neq pn pn') by congruence. reflexivity.
    + rewrite IH. reflexivity.
Qed.

Lemma map_push_keys pn rn m k :
  In k (map fst (map_push pn rn m)) -> k = pn \/ In k (map fst m).
Proof.
  induction m as [|[k' v] m IH]; simpl.
  - intros [H|[]]. left. congruence.
  - destruct (str_eqb k' pn) eqn:E; simpl; [tauto|].
    intros [H|H]; [tauto|]. destruct (IH H); tauto.
Qed.

Lemma map_push_NoDup pn rn m :
  List.NoDup (map fst m) -> List.NoDup (map fst (map_push pn rn m)).
Proof.
  induction m as [|[k v] m IH]; simpl; intros H.
  - apply List.NoDup_cons; [simpl; tauto|apply List.NoDup_nil].
  - apply List.NoDup_cons_iff in H as [Hk Hm].
    destruct (str_eqb k pn) eqn:E; simpl.
    + apply List.NoDup_cons; assumption.
    + apply List.NoDup_cons; [|apply IH, Hm].
      intros Hin. apply map_push_keys in Hin as [->|Hin]; [|contradiction].
      rewrite str_eqb_refl in E. discriminate.
Qed.

Lemma map_get_In {V : Type} (k : jsstring) (v : V) (m : list (jsstring * V)) :
  List.NoDup (map fst m) -> (In (k, v) m <-> map_get k m = Some v).
Proof.
  induction m as [|[k' v'] m IH]; simpl; intros H.
  - split; [intros []|discriminate].
  - apply List.NoDup_cons_iff in H as [Hk Hm].
    destruct (str_eqb k' k) eqn:E.
    + apply str_eqb_eq in E. subst k'. split.
      * intros [H|H]; [congruence|].
        exfalso. apply Hk. exact (in_map fst _ _ H).
      * intros H. left. congruence.
    + rewrite <- (IH Hm). split; [|tauto].
      intros [H|H]; [|exact H].
      inversion H; subst. rewrite str_eqb_refl in E. discriminate.
Qed.

Lemma group_fold (toUpperCase : jsstring -> jsstring) (rows : list ParsedRow) :
  forall m,
    List.NoDup (map fst m) ->
    let m' :=
      fold_left
        (fun m row =>
           match trim (partNumber row) with
           | [] => m
           | _ :: _ => map_push (toUpperCase (trim (partNumber row))) (rowNumber row) m
           end)
        rows m in
    List.NoDup (map fst m')
    /\ forall pn,
         map_get pn m'
         = match map_get pn m, map rowNumber (rows_with_part_number toUpperCase pn rows) with
           | Some v, g => Some (v ++ g)
           | None, [] => None
           | None, g => Some g
           end.
Proof.
  induction rows as [|r rows IH]; intros m Hm; cbn zeta.
  - simpl. split; [exact Hm|]. intros pn.
    destruct (map_get pn m); [rewrite app_nil_r|]; reflexivity.
  - cbn [fold_left].
    assert (Hcons : forall pn,
               rows_with_part_number toUpperCase pn (r :: rows)
               = if has_part_number r
                    && str_eqb (normalized_part_number toUpperCase r) pn
                 then r :: rows_with_part_number toUpperCase pn rows
                 else rows_with_part_number toUpperCase pn rows) by reflexivity.
    unfold has_part_number, normalized_part_number in Hcons.
    destruct (trim (partNumber r)) as [|c cs] eqn:Et.
    + destruct (IH m Hm) as [Hnd Hget]. split; [exact Hnd|].
      intros pn. rewrite Hget, Hcons. reflexivity.
    + destruct (IH (map_push (toUpperCase (c :: cs)) (rowNumber r) m)
                  (map_push_NoDup _ _ _ Hm)) as [Hnd Hget].
      split; [exact Hnd|]. intros pn. rewrite Hget, Hcons. cbn [andb].
      destruct (str_eqb (toUpperCase (c :: cs)) pn) eqn:E.
      * apply str_eqb_eq in E. subst pn. rewrite map_push_get_eq. cbn [map].
        destruct (map_get (toUpperCase (c :: cs)) m);
          [rewrite <- app_assoc|]; reflexivity.
      * rewrite map_push_get_ne
          by (intros ->; rewrite str_eqb_refl in E; discriminate).
        reflexivity.
Qed.

Lemma group_part_numbers_spec (toUpperCase : jsstring -> jsstring) (rows : list ParsedRow) :
  List.NoDup (map fst (group_part_numbers toUpperCase rows))
  /\ forall pn rns,
       In (pn, rns) (group_part_numbers toUpperCase rows)
       <-> rns <> []
           /\ rns = map rowNumber (rows_with_part_number toUpperCase pn rows).
Proof.
  destruct (group_fold toUpperCase rows [] (List.NoDup_nil _)) as [Hnd Hget].
  cbn zeta in Hnd, Hget. fold (group_part_numbers toUpperCase rows) in Hnd, Hget.
  split; [exact Hnd|]. intros pn rns.
  rewrite (map_get_In _ _ _ Hnd), Hget. cbn [map_get].
  destruct (map rowNumber (rows_with_part_number toUpperCase pn rows)) as [|x g].
  - split; [discriminate|]. intros [H1 H2]. contradiction.
  - split.
    + intros H. inversion H; subst. split; [discriminate|reflexivity].
    + intros [_ ->]. reflexivity.
Qed.

Lemma duplicate_values_NoDup now (m : list (jsstring * list number)) :
  List.NoDup (map fst m) ->
  List.NoDup (map extractedValue
           (flat_map
              (fun '(pn, rowNumbers) =>
                 if (1 <? length rowNumbers)%nat
                 then [duplicate_flag now pn rowNumbers] else [])
              m))
  /\ forall v, In v (map extractedValue
                       (flat_map
                          (fun '(pn, rowNumbers) =>
                             if (1 <? length rowNumbers)%nat
                             then [duplicate_flag now pn rowNumbers] else [])
                          m)) ->
               exists k, v = Some k /\ In k (map fst m).
Proof.
  induction m as [|[k rns] m IH]; intros H.
  - simpl. split; [apply List.NoDup_nil|intros v []].
  - apply List.NoDup_cons_iff in H as [Hk Hm].
    destruct (IH Hm) as [Hnd Hin]. cbn [flat_map map fst].
    destruct (1 <? length rns)%nat; cbn [app map].
    + split.
      * apply List.NoDup_cons; [|exact Hnd]. cbn [duplicate_flag extractedValue].
        intros Hv. destruct (Hin _ Hv) as (k' & Hk' & Hin').
        inversion Hk'; subst. contradiction.
      * intros v [Hv|Hv].
        -- exists k. split; [symmetry; exact Hv|left; reflexivity].
        -- destruct (Hin v Hv) as (k' & -> & Hin'). exists k'. split; [reflexivity|].
           right. exact Hin'.
    + split; [exact Hnd|]. intros v Hv.
      destruct (Hin v Hv) as (k' & -> & Hin'). exists k'. split; [reflexivity|].
      right. exact Hin'.
Qed.

(** X12. The duplicate detector reports exactly the part numbers
    carried by more than one row, comparing them trimmed and
    upper-cased and leaving blank ones out: a finding is among its
    results if and only if it is the duplicate finding of some
    normalised part number that at least two rows carry, with the row
    numbers of all those rows in row order; and no part number is
    reported twice. *)
Theorem X12_duplicates_reports_repeated_part_numbers :
  forall toUpperCase now rows,
    (forall f,
       In f (detectDuplicates toUpperCase now rows)
       <-> exists pn,
             (1 < length (rows_with_part_number toUpperCase pn rows))%nat
             /\ f = duplicate_flag now pn
                      (map rowNumber (rows_with_part_number toUpperCase pn rows)))
    /\ List.NoDup (map extractedValue (detectDuplicates toUpperCase now rows)).
Proof.
  intros toUpperCase now rows.
  destruct (group_part_numbers_spec toUpperCase rows) as [Hnd Hin].
  split.
  - intros f. unfold detectDuplicates. rewrite in_flat_map. split.
    + intros [[pn rns] [Hm Hf]]. apply Hin in Hm as [_ ->].
      rewrite length_map in Hf.
      destruct (1 <? length _)%nat eqn:E; [|destruct Hf].
      destruct Hf as [<-|[]]. exists pn. split; [apply Nat.ltb_lt, E|reflexivity].
    + intros (pn & Hlen & ->).
      exists (pn, map rowNumber (rows_with_part_number toUpperCase pn rows)). split.
      * apply Hin. split; [|reflexivity].
        destruct (rows_with_part_number toUpperCase pn rows); simpl in *; [lia|discriminate].
      * rewrite length_map. apply Nat.ltb_lt in Hlen. rewrite Hlen. left. reflexivity.
  - apply duplicate_values_NoDup, Hnd.
Qed.

(** ** Missing data *)

Lemma map_filter_nil {A B : Type} (f : A -> B) (p : A -> bool) (l : list A) :
  map f (List.filter p l) = [] <-> forall x, In x l -> p x = false.
Proof.
  induction l as [|a l IH]; simpl.
  - split; [intros _ x []|reflexivity].
  - destruct (p a) eqn:E; simpl.
    + split; [discriminate|]. intros H. specialize (H a (or_introl eq_refl)). congruence.
    + rewrite IH. split.
      * intros H x [<-|Hx]; [exact E|apply H, Hx].
      * intros H x Hx. apply H. right. exact Hx.
Qed.

Lemma rowsWithMissingPN_filter (rows : list ParsedRow) :
  rowsWithMissingPN rows
  = map rowNumber (List.filter (fun r => negb (has_part_number r)) rows).
Proof.
  unfold rowsWithMissingPN. f_equal. apply filter_ext. intros r.
  unfold has_part_number. destruct (trim (partNumber r)); reflexivity.
Qed.

(** X13. The missing-data detector.  It reports nothing exactly when
    every row has a part number that is not blank and a quantity that
    is present (a quantity of 0 is present).  It never reports more
    than two findings; each is of type missing data, of level medium
    or high, and lists at most ten row numbers, the first ten of the
    rows concerned.  A finding of level high is reported exactly when
    more than five rows lack a part number: missing quantities alone
    never raise the level. *)
Theorem X13_missing_data_findings :
  forall now rows,
    (detectMissingData now rows = []
     <-> forallb (fun r => has_part_number r && negb (quantity_absent r)) rows = true)
    /\ (length (detectMissingData now rows) <= 2)%nat
    /\ Forall (fun f =>
                 risk_type f = missing_data
                 /\ (level f = medium \/ level f = high)
                 /\ exists shown,
                      affectedRows f = Some shown
                      /\ (length shown <= 10)%nat
                      /\ (shown = firstn 10 (rowsWithMissingPN rows)
                          \/ shown = firstn 10 (rowsWithMissingQty rows)))
              (detectMissingData now rows)
    /\ (existsb (fun f => level_eqb (level f) high) (detectMissingData now rows) = true
        <-> (5 < length (List.filter (fun r => negb (has_part_number r)) rows))%nat).
Proof.
  intros now rows.
  assert (Hpn : rowsWithMissingPN rows = []
                <-> forall r, In r rows -> has_part_number r = true).
  { rewrite rowsWithMissingPN_filter, map_filter_nil. split; intros H r Hr.
    - apply negb_false_iff, H, Hr.
    - apply negb_false_iff, H, Hr. }
  assert (Hqty : rowsWithMissingQty rows = []
                 <-> forall r, In r rows -> quantity_absent r = false).
  { unfold rowsWithMissingQty. rewrite map_filter_nil. reflexivity. }
  assert (Hlen : length (rowsWithMissingPN rows)
                 = length (List.filter (fun r => negb (has_part_number r)) rows)).
  { rewrite rowsWithMissingPN_filter. apply length_map. }
  rewrite <- Hlen. clear Hlen.
  unfold detectMissingData.
  assert (Lpn' : (length (firstn 10 (rowsWithMissingPN rows)) <= 10)%nat)
    by (rewrite length_firstn; lia).
  assert (Lqty' : (length (firstn 10 (rowsWithMissingQty rows)) <= 10)%nat)
    by (rewrite length_firstn; lia).
  split.
  { rewrite forallb_forall.
    destruct (rowsWithMissingPN rows) as [|p ps];
      destruct (rowsWithMissingQty rows) as [|q qs]; cbn [app].
    - split; [intros _|reflexivity]. intros r Hr.
      rewrite (proj1 Hpn eq_refl r Hr), (proj1 Hqty eq_refl r Hr). reflexivity.
    - split; [discriminate|]. intros H. exfalso.
      assert (Hq : q :: qs = []); [|discriminate].
      apply Hqty. intros r Hr. specialize (H r Hr).
      apply andb_true_iff in H as [_ H]. apply negb_true_iff, H.
    - split; [discriminate|]. intros H. exfalso.
      assert (Hp : p :: ps = []); [|discriminate].
      apply Hpn. intros r Hr. specialize (H r Hr).
      apply andb_true_iff in H as [H _]. exact H.
    - split; [discriminate|]. intros H. exfalso.
      assert (Hp : p :: ps = []); [|discriminate].
      apply Hpn. intros r Hr. specialize (H r Hr).
      apply andb_true_iff in H as [H _]. exact H. }
  split.
  { destruct (rowsWithMissingPN rows); destruct (rowsWithMissingQty rows); simpl; lia. }
  split.
  { apply Forall_app. split.
    - destruct (rowsWithMissingPN rows) as [|p ps] eqn:E; constructor; [|constructor].
      cbn [risk_type level affectedRows]. split; [reflexivity|].
      split; [destruct (5 <? _)%nat; auto|].
      eexists. split; [reflexivity|]. split; [exact Lpn'|left; reflexivity].
    - destruct (rowsWithMissingQty rows) as [|q qs] eqn:E; constructor; [|constructor].
      cbn [risk_type level affectedRows]. split; [reflexivity|].
      split; [auto|].
      eexists. split; [reflexivity|]. split; [exact Lqty'|right; reflexivity]. }
  rewrite existsb_app.
  assert (Hq : existsb (fun f => level_eqb (level f) high)
                 match rowsWithMissingQty rows with
                 | [] => []
                 | _ :: _ =>
                     [ {| risk_id := js "missing-qty-" ++ digits_of_N now;
                          risk_type := missing_data;
                          level := medium;
                          title := js "Missing Quantities (" ++
                                   nat_to_string (length (rowsWithMissingQty rows)) ++
                                   js " rows)";
                          risk_description :=
                            nat_to_string (length (rowsWithMissingQty rows)) ++
                            js " rows are missing quantity information.";
                          affectedRows := Some (firstn 10 (rowsWithMissingQty rows));
                          extractedValue := None;
                          recommendation :=
                            js "Verify quantities with customer or assume quantity of 1 for each item." |} ]
                 end = false).
  { destruct (rowsWithMissingQty rows); reflexivity. }
  rewrite Hq, orb_false_r. clear Hq.
  destruct (rowsWithMissingPN rows) as [|p ps] eqn:E.
  - simpl. split; [discriminate|lia].
  - cbn [existsb level]. rewrite orb_false_r.
    destruct (5 <? length (p :: ps))%nat eqn:E5; cbn [level_eqb].
    + apply Nat.ltb_lt in E5. tauto.
    + apply Nat.ltb_ge in E5. split; [discriminate|lia].
Qed.

Lemma rowsWithMissingPN_map (g : ParsedRow -> ParsedRow) (rows : list ParsedRow) :
  (forall r, partNumber (g r) = partNumber r /\ rowNumber (g r) = rowNumber r) ->
  rowsWithMissingPN (map g rows) = rowsWithMissingPN rows.
Proof.
  intros Hg. unfold rowsWithMissingPN.
  induction rows as [|r rows IH]; [reflexivity|].
  cbn [map List.filter]. destruct (Hg r) as [Hp Hn]. rewrite Hp.
  destruct (trim (partNumber r)); cbn [map]; rewrite IH, ?Hn; reflexivity.
Qed.

(** X14. The default fix and the detectors agree afterwards.  When
    every row number equals itself (none is NaN), after
    fix-missing-quantities without explicit targets no row is left
    with an absent quantity, so the missing-data detector has no
    missing quantity to report, while the rows without part number
    are the same as before; and unless the default quantity is 0, a
    second search for missing quantities finds nothing. *)
Theorem X14_default_fix_leaves_no_absent_quantity :
  forall cm fn now rnd dq s,
    wfb s = true ->
    forallb (fun r => num_eqb (rowNumber r) (rowNumber r)) (current_rows s) = true ->
    let rows' := current_rows (snd (fix_missing_quantities cm fn now rnd dq None s)) in
    rowsWithMissingQty rows' = []
    /\ rowsWithMissingPN rows' = rowsWithMissingPN (current_rows s)
    /\ (num_eqb dq (Fin 0 0) = false -> findMissingQuantities rows' = []).
Proof.
  intros cm fn now rnd dq s Hwf Hrefl rows'.
  pose proof (wfb_current s Hwf) as Hcur.
  destruct (map_rows (apply_fix (map (default_fix dq) (findMissingQuantities (current_rows s))))
              (row_heap s) (array_at s (currentRows s))) as [heap' out] eqn:Em.
  destruct (fix_state cm fn now rnd dq None s heap' out Em) as (Hh & _ & _ & Ha & _).
  destruct (map_rows_spec _ _ _ _ _ Hcur Em) as (_ & _ & Hd).
  assert (Hrows : rows'
                  = map (fun row =>
                           if existsb (fun t => num_eqb t (rowNumber row))
                                (findMissingQuantities (current_rows s))
                           then set_quantity row (Some dq) else row)
                        (current_rows s)).
  { subst rows'. unfold current_rows at 1. rewrite Hh, Ha, Hd.
    apply map_ext. intros row. apply apply_fix_default. }
  clearbody rows'. subst rows'. fold (current_rows s) in *.
  rewrite forallb_forall in Hrefl.
  assert (Htarget : forall r, In r (current_rows s) -> quantity_missing r = true ->
             existsb (fun t => num_eqb t (rowNumber r))
               (findMissingQuantities (current_rows s)) = true).
  { intros r Hr Hm. apply existsb_exists. exists (rowNumber r).
    split; [|apply Hrefl, Hr].
    unfold findMissingQuantities. apply in_map, filter_In. split; assumption. }
  split; [|split].
  - unfold rowsWithMissingQty. apply map_filter_nil.
    intros x Hx. apply in_map_iff in Hx as (r & <- & Hr).
    destruct (existsb _ _) eqn:E; [reflexivity|].
    destruct (quantity r) eqn:Eq; [reflexivity|].
    rewrite Htarget in E; [discriminate|exact Hr|].
    unfold quantity_missing. rewrite Eq. reflexivity.
  - apply rowsWithMissingPN_map. intros r. destruct (existsb _ _); split; reflexivity.
  - intros Hdq. apply (map_filter_nil rowNumber quantity_missing).
    intros x Hx. apply in_map_iff in Hx as (r & <- & Hr).
    destruct (existsb _ _) eqn:E.
    + unfold quantity_missing. cbn [set_quantity quantity]. exact Hdq.
    + destruct (quantity_missing r) eqn:Eq; [|reflexivity].
      rewrite (Htarget r Hr Eq) in E. discriminate.
Qed.

Lemma X14_default_fix_leaves_no_absent_quantity_witness :
  wfb example_session = true
  /\ rowsWithMissingQty (current_rows example_session) = [Fin 3 0]
  /\ rowsWithMissingQty
       (current_rows
          (snd (fix_missing_quantities null_mapping None 0 [] (Fin 1 0) None
                  example_session)))
     = [].
Proof.
  split; [reflexivity|]. split; [reflexivity|].
  exact (proj1 (X14_default_fix_leaves_no_absent_quantity null_mapping None 0 []
                  (Fin 1 0) example_session eq_refl eq_refl)).
Defined.

(** ** Usage limits of the chat route *)

Lemma last_message_app {A : Type} (init : list A) (x : A) :
  last_message (init ++ [x]) = Some x.
Proof.
  unfold last_message. rewrite length_app. simpl.
  replace (length init + 1 - 1)%nat with (length init) by lia.
  rewrite nth_error_app2 by lia. rewrite Nat.sub_diag. reflexivity.
Qed.

Lemma last_message_inv {A : Type} (m : list A) (x : A) :
  last_message m = Some x -> exists init, m = init ++ [x].
Proof.
  destruct m as [|a m] using rev_ind.
  - discriminate.
  - rewrite last_message_app. intros H. inversion H; subst. exists m. reflexivity.
Qed.

(** X15. The usage-limit checks at the head of the chat route.  In
    admin mode no request is rejected.  Otherwise a request is
    answered with status 429 exactly when it carries more messages
    than the session limit, and with status 400 exactly when it is
    within that limit and its last message has a text longer than the
    message limit; the message count is checked first, no other
    status is produced, and a request without messages or whose last
    message has no text goes through. *)
Theorem X15_usage_limits_reject_exactly_oversized_requests :
  forall LIMITS messages,
    usage_rejection true LIMITS messages = None
    /\ ((exists e, usage_rejection false LIMITS messages = Some (429%nat, e))
        <-> (MAX_MESSAGES_PER_SESSION LIMITS < length messages)%nat)
    /\ ((exists e, usage_rejection false LIMITS messages = Some (400%nat, e))
        <-> (length messages <= MAX_MESSAGES_PER_SESSION LIMITS)%nat
            /\ exists init content,
                 messages = init ++ [Some content]
                 /\ (MAX_MESSAGE_LENGTH LIMITS < length content)%nat)
    /\ (forall admin status e,
          usage_rejection admin LIMITS messages = Some (status, e) ->
          admin = false /\ (status = 429%nat \/ status = 400%nat))
    /\ (forall admin init,
          (length (init ++ [None]) <= MAX_MESSAGES_PER_SESSION LIMITS)%nat ->
          usage_rejection admin LIMITS [] = None
          /\ usage_rejection admin LIMITS (init ++ [None]) = None
          /\ usage_rejection admin LIMITS (init ++ [Some []]) = None).
Proof.
  intros LIMITS messages.
  assert (Hgen : forall msgs,
             usage_rejection false LIMITS msgs
             = if (MAX_MESSAGES_PER_SESSION LIMITS <? length msgs)%nat
               then Some (429%nat,
                          js "Session limit reached (" ++
                          nat_to_string (MAX_MESSAGES_PER_SESSION LIMITS) ++
                          js " messages). Please refresh to start a new session.")
               else match last_message msgs with
                    | Some (Some (c :: content)) =>
                        if (MAX_MESSAGE_LENGTH LIMITS <? length (c :: content))%nat
                        then Some (400%nat,
                                   js "Message too long. Maximum " ++
                                   nat_to_string (MAX_MESSAGE_LENGTH LIMITS) ++
                                   js " characters allowed.")
                        else None
                    | _ => None
                    end).
  { intros msgs. unfold usage_rejection, shouldEnforceLimit, getEffectiveLimit.
    cbn [negb]. rewrite num_gtb_of_nat_b. reflexivity. }
  split; [reflexivity|].
  split.
  { rewrite Hgen. destruct (MAX_MESSAGES_PER_SESSION LIMITS <? length messages)%nat eqn:E.
    - apply Nat.ltb_lt in E. split; [intros _; exact E|]. intros _. eexists. reflexivity.
    - apply Nat.ltb_ge in E. split; [|lia]. intros [e H].
      destruct (last_message messages) as [[[|c content]|]|]; try discriminate.
      destruct (_ <? _)%nat; discriminate. }
  split.
  { rewrite Hgen. destruct (MAX_MESSAGES_PER_SESSION LIMITS <? length messages)%nat eqn:E.
    - apply Nat.ltb_lt in E. split; [intros [e H]; discriminate|]. intros [H _]. lia.
    - apply Nat.ltb_ge in E. split.
      + intros [e H]. split; [exact E|].
        destruct (last_message messages) as [[[|c content]|]|] eqn:El; try discriminate.
        destruct (_ <? _)%nat eqn:El2; [|discriminate].
        apply last_message_inv in El as [init ->].
        exists init, (c :: content). split; [reflexivity|]. apply Nat.ltb_lt, El2.
      + intros (_ & init & content & -> & Hlen). rewrite last_message_app.
        destruct content as [|c content]; [simpl in Hlen; lia|].
        apply Nat.ltb_lt in Hlen. rewrite Hlen. eexists. reflexivity. }
  split.
  { intros [|] status e; [discriminate|]. rewrite Hgen. intros H. split; [reflexivity|].
    destruct (_ <? _)%nat; [inversion H; auto|].
    destruct (last_message messages) as [[[|c content]|]|]; try discriminate.
    destruct (_ <? _)%nat; [inversion H; auto|discriminate]. }
  intros [|] init Hlen; [repeat split; reflexivity|].
  assert (Hlast : forall x : option jsstring,
             x = None \/ x = Some [] ->
             usage_rejection false LIMITS (init ++ [x]) = None).
  { intros x Hx. rewrite Hgen, last_message_app.
    rewrite length_app in *. cbn [length] in *.
    apply Nat.ltb_ge in Hlen. rewrite Hlen.
    destruct Hx as [->| ->]; reflexivity. }
  split; [|split; apply Hlast; auto].
  rewrite Hgen. reflexivity.
Qed.

(** ** Markdown rendering of a sample *)

Lemma escape_pipes_escaped (s : jsstring) : pipes_escaped (escape_pipes s).
Proof.
  unfold pipes_escaped, escape_pipes.
  induction s as [|c s IH]; intros i; [destruct i; discriminate|].
  cbn [flat_map]. destruct (c =? 124) eqn:E; cbn [app].
  - destruct i as [|[|k]]; cbn [nth_error].
    + discriminate.
    + intros _. exists 0%nat. split; reflexivity.
    + intros H. destruct (IH k H) as (j & -> & Hj).
      exists (S (S j)). split; [reflexivity|exact Hj].
  - destruct i as [|k]; cbn [nth_error].
    + intros H. inversion H; subst. discriminate.
    + intros H. destruct (IH k H) as (j & -> & Hj).
      exists (S j). split; [reflexivity|exact Hj].
Qed.

Lemma pipes_escaped_firstn (n : nat) (s : jsstring) :
  pipes_escaped s -> pipes_escaped (firstn n s).
Proof.
  unfold pipes_escaped. intros H i. rewrite nth_error_firstn.
  destruct (i <? n)%nat eqn:E; [|discriminate]. apply Nat.ltb_lt in E.
  intros Hi. destruct (H i Hi) as (j & -> & Hj). exists j. split; [reflexivity|].
  rewrite nth_error_firstn.
  replace (j <? n)%nat with true by (symmetry; apply Nat.ltb_lt; lia). exact Hj.
Qed.

Lemma slice_end_le (len : nat) (end_ : number) : (slice_end len end_ <= len)%nat.
Proof.
  unfold slice_end. destruct end_ as [| [|] |m e]; try lia.
  destruct (0 <=? e)%Z; match goal with |- context [(?z <? 0)%Z] =>
    destruct (z <? 0)%Z eqn:E end; lia.
Qed.

(** X16. The markdown sample.  The text is the no-data sentence
    exactly when there are no headers or no rows.  Otherwise the table
    has the header line, the separator line and one line per row of
    the slice, so at most [maxRows] data lines for a row count
    [maxRows] and never more than there are rows; the sample the
    upload pipeline builds, from the first five rows with the default
    of ten, has at most five data lines.  Every cell is at
    most 50 units long and every pipe in it stands right after a
    backslash, whatever the cell value. *)
Theorem X16_markdown_sample_is_bounded_and_escaped :
  forall hdrs rws maxRows,
    (rowsToMarkdown hdrs rws maxRows = js "(No data available)"
     <-> hdrs = [] \/ rws = [])
    /\ (length (markdown_lines hdrs rws maxRows) <= 2 + length rws)%nat
    /\ (forall c : nat,
          length (markdown_lines hdrs rws (of_nat c)) = (2 + Nat.min (length rws) c)%nat)
    /\ length (markdown_lines hdrs (slice0 rws (of_nat 5)) (of_nat 10))
       = (2 + Nat.min (length rws) 5)%nat
    /\ (forall value,
          (length (markdown_cell value) <= 50)%nat
          /\ pipes_escaped (markdown_cell value)).
Proof.
  intros hdrs rws maxRows.
  split.
  { split.
    - destruct hdrs as [|h hdrs]; [auto|]. destruct rws as [|r rws]; [auto|].
      unfold rowsToMarkdown, markdown_lines, markdown_line.
      cbn [join]. intros H. apply (f_equal (fun l => nth_error l 0)) in H.
      vm_compute in H. discriminate.
    - intros [-> | ->]; [reflexivity|]. destruct hdrs; reflexivity. }
  split.
  { unfold markdown_lines. cbn [length]. rewrite length_map. unfold slice0.
    rewrite length_firstn. pose proof (slice_end_le (length rws) maxRows). lia. }
  split.
  { intros c. unfold markdown_lines. cbn [length]. rewrite length_map.
    rewrite slice0_of_nat, length_firstn. lia. }
  split.
  { unfold markdown_lines. cbn [length]. rewrite length_map.
    rewrite !slice0_of_nat, !length_firstn. lia. }
  intros value. unfold markdown_cell. split.
  - rewrite length_firstn. lia.
  - apply pipes_escaped_firstn, escape_pipes_escaped.
Qed.

(** ** Unit-of-measure conflicts *)

Lemma startsWith_app_l (p q s : jsstring) :
  startsWith (p ++ q) s = true -> startsWith p s = true.
Proof.
  revert s. induction p as [|a p IH]; intros s; [reflexivity|].
  destruct s as [|b s]; [discriminate|]. simpl.
  intros H. apply andb_true_iff in H as [Hab H]. rewrite Hab. apply IH, H.
Qed.

Lemma includes_app_l (p q s : jsstring) :
  includes s (p ++ q) = true -> includes s p = true.
Proof.
  induction s as [|c s IH]; simpl.
  - rewrite !orb_false_r. apply startsWith_app_l.
  - intros H. apply orb_true_iff in H as [H|H]; apply orb_true_iff.
    + left. exact (startsWith_app_l _ _ _ H).
    + right. apply IH, H.
Qed.

Lemma discrete_units (uom : jsstring) :
  existsb (fun u => includes uom u) (map js ["each"; "ea"; "pc"; "pcs"]%string)
  = includes uom (js "ea") || includes uom (js "pc").
Proof.
  cbn [map existsb]. rewrite orb_false_r.
  destruct (includes uom (js "each")) eqn:E1.
  - rewrite (includes_app_l (js "ea") (js "ch") uom E1). reflexivity.
  - destruct (includes uom (js "pcs")) eqn:E2.
    + rewrite (includes_app_l (js "pc") (js "s") uom E2), !orb_true_r. reflexivity.
    + rewrite orb_false_r. reflexivity.
Qed.

(** X17. The unit-of-measure detector looks at each row by itself.  A
    row without unit of measure or without quantity gives no finding,
    nor does one whose quantity is a whole number not above 10000;
    no row gives more than two.  Every finding is of type
    unit-of-measure conflict, names the single row it came from, and
    is of level medium only for a quantity above 10000 and of level
    low only for a fractional quantity.  A row with a quantity and a
    unit gets the low finding exactly when the quantity is not a whole
    number and the lower-cased, trimmed unit contains [ea] or [pc]
    anywhere: the entries [each] and [pcs] of the list add nothing. *)
Theorem X17_uom_findings_are_per_row :
  forall toLowerCase now rows,
    (forall row,
       (unitOfMeasure row = [] \/ quantity row = None
        \/ exists q, quantity row = Some q /\ isInteger q = true
                     /\ num_gtb q (Fin 10000 0) = false) ->
       uom_row_flags toLowerCase now row = [])
    /\ (length (detectUoMConflicts toLowerCase now rows) <= 2 * length rows)%nat
    /\ (forall f,
          In f (detectUoMConflicts toLowerCase now rows) ->
          risk_type f = uom_conflict
          /\ exists row q,
               In row rows /\ quantity row = Some q /\ unitOfMeasure row <> []
               /\ affectedRows f = Some [rowNumber row]
               /\ ((level f = medium /\ num_gtb q (Fin 10000 0) = true)
                   \/ (level f = low /\ isInteger q = false)))
    /\ (forall row q,
          unitOfMeasure row <> [] -> quantity row = Some q ->
          ((exists f, In f (uom_row_flags toLowerCase now row) /\ level f = low)
           <-> isInteger q = false
               /\ includes (trim (toLowerCase (unitOfMeasure row))) (js "ea")
                  || includes (trim (toLowerCase (unitOfMeasure row))) (js "pc") = true)).
Proof.
  intros toLowerCase now rows.
  split.
  { intros row H. unfold uom_row_flags.
    destruct (unitOfMeasure row) as [|c u]; [reflexivity|].
    destruct (quantity row) as [q|]; [|reflexivity].
    destruct H as [H|[H|(q' & Hq & Hint & Hgt)]]; try discriminate.
    inversion Hq; subst q'. rewrite Hint, Hgt. reflexivity. }
  split.
  { unfold detectUoMConflicts. induction rows as [|r rows IH]; [simpl; lia|].
    cbn [flat_map length]. rewrite length_app.
    assert (length (uom_row_flags toLowerCase now r) <= 2)%nat; [|lia].
    unfold uom_row_flags. destruct (unitOfMeasure r); [simpl; lia|].
    destruct (quantity r); [|simpl; lia].
    rewrite length_app.
    destruct (_ && _); destruct (_ && _); simpl; lia. }
  split.
  { intros f Hf. unfold detectUoMConflicts in Hf. apply in_flat_map in Hf as (row & Hrow & Hf).
    unfold uom_row_flags in Hf.
    destruct (unitOfMeasure row) as [|c u] eqn:Eu; [destruct Hf|].
    destruct (quantity row) as [q|] eqn:Eq; [|destruct Hf].
    apply in_app_or in Hf as [Hf|Hf].
    - destruct (num_gtb q (Fin 10000 0)) eqn:Eg; [|destruct Hf].
      destruct (existsb _ _); [|destruct Hf]. destruct Hf as [<-|[]].
      split; [reflexivity|]. exists row, q.
      repeat split; try assumption; [rewrite Eu; discriminate|].
      left. split; [reflexivity|exact Eg].
    - destruct (isInteger q) eqn:Ei; [destruct Hf|].
      destruct (existsb _ _); [|destruct Hf]. destruct Hf as [<-|[]].
      split; [reflexivity|]. exists row, q.
      repeat split; try assumption; [rewrite Eu; discriminate|].
      right. split; [reflexivity|exact Ei]. }
  intros row q Hu Hq. unfold uom_row_flags. rewrite Hq.
  destruct (unitOfMeasure row) as [|c u] eqn:Eu; [congruence|].
  rewrite discrete_units. split.
  - intros (f & Hf & Hlow). apply in_app_or in Hf as [Hf|Hf].
    + destruct (_ && _); [|destruct Hf]. destruct Hf as [<-|[]]. discriminate.
    + destruct (isInteger q); [destruct Hf|]. cbn [negb andb] in Hf.
      destruct (_ || _); [auto|destruct Hf].
  - intros [Hint Hinc]. rewrite Hint, Hinc. cbn [negb andb].
    eexists. split; [apply in_or_app; right; left; reflexivity|reflexivity].
Qed.

(** ** Outcome of an upload *)

(** X18. What [processExcelFile] answers.  The analysis is marked
    successful exactly when a file was given, it passed the size check
    (not made in admin mode), reading it succeeded and the decoder
    reported success.  Every answer carries the name of the file, the
    empty name when none was given.  A failed analysis has no rows,
    the all-null mapping, the fixed failure summary and exactly one
    finding, which is critical, of type general and names no rows.  A
    successful one is the analysis of the decoded workbook, and it
    takes the classifier's mapping only when a key is configured, the
    workbook has headers and the classifier answered; in every other
    case the keyword fallback decides. *)
Theorem X18_upload_outcome :
  forall toUpperCase toLowerCase now random_suffix timestamp ADMIN_MODE LIMITS
         file read apiKey aiMapping,
    let a := processExcelFile toUpperCase toLowerCase now random_suffix timestamp
               ADMIN_MODE LIMITS file read apiKey aiMapping in
    success a = upload_accepted ADMIN_MODE LIMITS file read
    /\ fileName a = match file with Some f => file_name f | None => [] end
    /\ (success a = false ->
        rows a = [] /\ columnMapping a = null_mapping /\ summary a = failure_summary
        /\ exists f, risks a = [f] /\ level f = critical /\ risk_type f = general
                     /\ affectedRows f = None)
    /\ (success a = true ->
        exists f parseResult,
          file = Some f /\ read = ReadOk parseResult
          /\ a = analyze_parsed toUpperCase toLowerCase now random_suffix timestamp
                   ADMIN_MODE LIMITS (file_name f) parseResult apiKey aiMapping
          /\ columnMapping a
             = match aiMapping with
               | Some m =>
                   if apiKey && (0 <? length (headers parseResult))%nat then m
                   else fallbackColumnMapping toLowerCase (headers parseResult)
               | None => fallbackColumnMapping toLowerCase (headers parseResult)
               end).
Proof.
  intros. subst a. unfold processExcelFile, upload_accepted.
  assert (Hfail : forall name fid ttl desc rec d,
             let a := error_analysis timestamp name (general_critical fid ttl desc rec d) in
             success a = false /\ fileName a = name
             /\ rows a = [] /\ columnMapping a = null_mapping
             /\ summary a = failure_summary
             /\ exists f, risks a = [f] /\ level f = critical /\ risk_type f = general
                          /\ affectedRows f = None).
  { intros. subst a. unfold error_analysis.
    cbn [success fileName rows columnMapping summary risks].
    do 5 (split; [reflexivity|]). eexists. split; [reflexivity|].
    unfold general_critical. cbn [level risk_type affectedRows]. repeat split. }
  assert (Hbad : forall (b : bool) name fid ttl desc rec d,
             let a := error_analysis timestamp name (general_critical fid ttl desc rec d) in
             b = false ->
             success a = b /\ fileName a = name
             /\ (success a = false ->
                 rows a = [] /\ columnMapping a = null_mapping
                 /\ summary a = failure_summary
                 /\ exists f, risks a = [f] /\ level f = critical
                              /\ risk_type f = general /\ affectedRows f = None)
             /\ (success a = true -> False)).
  { intros b name fid ttl desc rec d a0 ->.
    destruct (Hfail name fid ttl desc rec d) as (H1 & H2 & H3).
    split; [exact H1|]. split; [exact H2|]. split; [intros _; exact H3|].
    subst a0. rewrite H1. discriminate. }
  destruct file as [f|]; cbv zeta beta.
  2: { destruct (Hbad false [] "error-no-file" "No File Provided"
                   "Please upload an Excel file to analyze."
                   "Select a .xlsx, .xls, or .csv file to upload." None eq_refl)%string
         as (H1 & H2 & H3 & H4).
       split; [exact H1|]. split; [exact H2|]. split; [exact H3|].
       intros H. destruct (H4 H). }
  destruct (shouldEnforceLimit ADMIN_MODE && _).
  { match goal with |- context [error_analysis _ ?n (general_critical ?a ?b ?c ?d ?e)] =>
      destruct (Hbad false n a b c d e eq_refl) as (H1 & H2 & H3 & H4) end.
    split; [rewrite H1; destruct read; reflexivity|].
    split; [exact H2|]. split; [exact H3|].
    intros H. destruct (H4 H). }
  destruct read as [message|parseResult].
  { match goal with |- context [error_analysis _ ?n (general_critical ?a ?b ?c ?d ?e)] =>
      destruct (Hbad false n a b c d e eq_refl) as (H1 & H2 & H3 & H4) end.
    split; [exact H1|]. split; [exact H2|]. split; [exact H3|].
    intros H. destruct (H4 H). }
  cbn [negb andb].
  destruct (parse_success parseResult); cbn [negb].
  2: { match goal with |- context [error_analysis _ ?n (general_critical ?a ?b ?c ?d ?e)] =>
         destruct (Hbad false n a b c d e eq_refl) as (H1 & H2 & H3 & H4) end.
       split; [exact H1|]. split; [exact H2|]. split; [exact H3|].
       intros H. destruct (H4 H). }
  split; [reflexivity|]. split; [reflexivity|]. split; [discriminate|].
  intros _. exists f, parseResult.
  split; [reflexivity|]. split; [reflexivity|]. split; [reflexivity|].
  unfold analyze_parsed. cbn [columnMapping].
  destruct aiMapping; destruct (apiKey && _); reflexivity.
Qed.

(** ** Keyword fallback for the column mapping *)

Lemma findIndex_map_some {A B : Type} (p : B -> bool) (f : A -> B) (l : list A) (i : nat) :
  findIndex p (map f l) = Some i ->
  exists h, nth_error l i = Some h /\ In h l /\ p (f h) = true.
Proof.
  revert i. induction l as [|a l IH]; intros i; simpl; [discriminate|].
  destruct (p (f a)) eqn:E.
  - intros H. inversion H; subst. exists a. auto.
  - destruct (findIndex p (map f l)) as [k|]; [|discriminate].
    intros H. inversion H; subst. destruct (IH k eq_refl) as (h & Hn & Hin & Hp).
    exists h. auto.
Qed.

Lemma findIndex_map_none {A B : Type} (p : B -> bool) (f : A -> B) (l : list A) :
  findIndex p (map f l) = None <-> forall h, In h l -> p (f h) = false.
Proof.
  induction l as [|a l IH]; simpl.
  - split; [intros _ h []|reflexivity].
  - destruct (p (f a)) eqn:E.
    + split; [discriminate|]. intros H. rewrite (H a) in E by auto. discriminate.
    + destruct (findIndex p (map f l)) as [k|].
      * split; [discriminate|]. intros H.
        assert (Hn : Some k = None); [|discriminate].
        apply IH. intros h Hh. apply H. auto.
      * split; [|reflexivity]. intros _ h [<-|Hh]; [exact E|].
        apply (proj1 IH eq_refl), Hh.
Qed.

Lemma findColumn_some toLowerCase hdrs patterns h :
  findColumn toLowerCase hdrs patterns = Some h ->
  In h hdrs /\ exists p, In p patterns /\ includes (toLowerCase h) p = true.
Proof.
  induction patterns as [|p patterns IH]; simpl; [discriminate|].
  destruct (findIndex (fun x => includes x p) (map toLowerCase hdrs)) as [i|] eqn:E.
  - destruct (findIndex_map_some _ _ _ _ E) as (x & Hn & Hin & Hp).
    rewrite Hn. intros H. inversion H; subst. split; [exact Hin|].
    exists p. auto.
  - intros H. destruct (IH H) as (Hin & q & Hq & Hinc).
    split; [exact Hin|]. exists q. auto.
Qed.

Lemma findColumn_none toLowerCase hdrs patterns :
  findColumn toLowerCase hdrs patterns = None
  <-> forall p h, In p patterns -> In h hdrs -> includes (toLowerCase h) p = false.
Proof.
  induction patterns as [|p patterns IH]; simpl.
  - split; [intros _ p h []|reflexivity].
  - destruct (findIndex (fun x => includes x p) (map toLowerCase hdrs)) as [i|] eqn:E.
    + destruct (findIndex_map_some _ _ _ _ E) as (x & Hn & Hin & Hp).
      rewrite Hn. split; [discriminate|]. intros H.
      rewrite (H p x) in Hp by auto. discriminate.
    + rewrite IH. pose proof (proj1 (findIndex_map_none _ _ _) E) as Hnone.
      split.
      * intros H q h [<-|Hq] Hh; [apply Hnone, Hh|apply H; assumption].
      * intros H q h Hq Hh. apply H; auto.
Qed.

(** X19. The keyword fallback.  A column it chooses for a field is
    always one of the workbook's headers, and one whose lower-cased
    name contains a keyword of that field; a field is left unmapped
    exactly when no header contains any of its keywords; an earlier
    keyword wins over a later one even when the later one matches an
    earlier header; and the header row is always 1.  With no headers
    at all every field is unmapped. *)
Theorem X19_fallback_mapping_chooses_headers :
  forall toLowerCase hdrs,
    Forall (fun c => match c with Some h => In h hdrs | None => True end)
           (mapped_columns (fallbackColumnMapping toLowerCase hdrs))
    /\ cm_headerRow (fallbackColumnMapping toLowerCase hdrs) = Fin 1 0
    /\ (forall patterns h,
          findColumn toLowerCase hdrs patterns = Some h ->
          In h hdrs /\ exists p, In p patterns /\ includes (toLowerCase h) p = true)
    /\ (forall patterns,
          findColumn toLowerCase hdrs patterns = None
          <-> forall p h, In p patterns -> In h hdrs ->
                          includes (toLowerCase h) p = false)
    /\ (forall p patterns h,
          findColumn toLowerCase hdrs (p :: patterns) = Some h ->
          (exists x, In x hdrs /\ includes (toLowerCase x) p = true) ->
          includes (toLowerCase h) p = true)
    /\ fallbackColumnMapping toLowerCase [] = null_mapping.
Proof.
  intros toLowerCase hdrs.
  split.
  { unfold mapped_columns, fallbackColumnMapping.
    cbn [cm_partNumber cm_quantity cm_description cm_unitPrice cm_unitOfMeasure
         cm_notes cm_terms].
    repeat (apply Forall_cons; split;
            [match goal with |- context [findColumn ?t ?h ?ps] =>
               destruct (findColumn t h ps) as [x|] eqn:E;
               [exact (proj1 (findColumn_some _ _ _ _ E))|exact I] end|]).
    apply Forall_nil. exact I. }
  split; [reflexivity|].
  split; [intros patterns h; apply findColumn_some|].
  split; [intros patterns; apply findColumn_none|].
  split.
  { intros p patterns h H (x & Hx & Hp). simpl in H.
    destruct (findIndex (fun y => includes y p) (map toLowerCase hdrs)) as [i|] eqn:E.
    - destruct (findIndex_map_some _ _ _ _ E) as (y & Hn & Hin & Hy).
      rewrite Hn in H. inversion H; subst. exact Hy.
    - rewrite (proj1 (findIndex_map_none _ _ _) E x Hx) in Hp. discriminate. }
  reflexivity.
Qed.

(** ** Raw data kept with a row *)

Lemma row_get_absent (row : RawRow) (k : jsstring) :
  ~ In k (map fst row) -> row_get row k = VUndefined.
Proof.
  induction row as [|[k' v] row IH]; simpl; [reflexivity|].
  intros H. destruct (str_eqb k' k) eqn:E.
  - apply str_eqb_eq in E. subst. exfalso. apply H. auto.
  - apply IH. intros Hin. apply H. auto.
Qed.

Lemma json_copy_keys (row : RawRow) (k : jsstring) :
  In k (map fst (json_copy row)) -> In k (map fst row).
Proof.
  unfold json_copy. induction row as [|[k' v] row IH]; simpl; [auto|].
  rewrite map_app, in_app_iff. intros [H|H]; [|right; apply IH, H].
  left. destruct v as [| | |[| |]|]; simpl in H; tauto.
Qed.

(** X20. The raw data kept with a materialised row.  For a raw row
    whose column names are distinct, reading the kept copy at any
    column gives the cell of the raw row, except that a number that is
    not finite reads as [null]; a column holding [undefined] is absent
    from the copy and reads as [undefined] all the same.  The copy
    holds only values that survive the round trip, copying it again
    changes nothing, and a raw row of such values is kept as it is. *)
Theorem X20_raw_data_is_the_json_round_trip :
  forall mapping row index,
    List.NoDup (map fst row) ->
    (forall k, row_get (rawData (materialize_row mapping row index)) k
               = json_value (row_get row k))
    /\ forallb json_safe (map snd (rawData (materialize_row mapping row index))) = true
    /\ json_copy (rawData (materialize_row mapping row index))
       = rawData (materialize_row mapping row index)
    /\ (forallb json_safe (map snd row) = true ->
        rawData (materialize_row mapping row index) = row).
Proof.
  intros mapping row index Hnd. cbn [materialize_row rawData]. unfold json_copy.
  split; [|split; [|split]].
  - intros k. induction row as [|[k' v] row IH]; [reflexivity|].
    apply List.NoDup_cons_iff in Hnd as [Hk Hnd]. cbn [flat_map row_get].
    destruct (str_eqb k' k) eqn:E.
    + apply str_eqb_eq in E. subst k'.
      destruct v as [| | |[| |]|]; cbn [app row_get json_value];
        rewrite ?str_eqb_refl; try reflexivity.
      apply row_get_absent. intros Hin. apply Hk. apply json_copy_keys, Hin.
    + rewrite <- (IH Hnd).
      destruct v as [| | |[| |]|]; cbn [app row_get]; rewrite ?E; reflexivity.
  - clear Hnd. induction row as [|[k' v] row IH]; [reflexivity|].
    cbn [flat_map]. rewrite map_app, forallb_app, IH, andb_true_r.
    destruct v as [| | |[| |]|]; reflexivity.
  - clear Hnd. induction row as [|[k' v] row IH]; [reflexivity|].
    cbn [flat_map]. rewrite flat_map_app, IH. f_equal.
    destruct v as [| | |[| |]|]; reflexivity.
  - clear Hnd. induction row as [|[k' v] row IH]; [reflexivity|].
    cbn [map snd forallb flat_map]. intros H. apply andb_true_iff in H as [Hv H].
    rewrite (IH H). destruct v as [| | |[| |]|]; try discriminate; reflexivity.
Qed.

Lemma X20_raw_data_is_the_json_round_trip_witness :
  row_get
    (rawData (materialize_row null_mapping
                [(js "Qty", VNum NaN); (js "Note", VUndefined); (js "PN", VStr (js "A1"))]
                0))
    (js "Qty")
  = VNull.
Proof.
  assert (Hnd : List.NoDup
                  (map fst [(js "Qty", VNum NaN); (js "Note", VUndefined);
                            (js "PN", VStr (js "A1"))])).
  { repeat (apply List.NoDup_cons; [vm_compute; intuition discriminate|]).
    apply List.NoDup_nil. }
  exact (proj1 (X20_raw_data_is_the_json_round_trip null_mapping _ 0%nat Hnd) (js "Qty")).
Defined.

(** ** Liquidated damages: what the finding is made of *)

(** A pattern run on input made of code units satisfying [P] fails when
    its continuation fails on every such input. *)
Lemma rmatch_keeps (P : char -> Prop) (ic : bool) (r : regex) :
  forall st k,
    Forall P (m_rest st) ->
    (forall st', Forall P (m_rest st') -> k st' = None) ->
    rmatch ic r st k = None.
Proof.
  induction r as [ |c|neg items|r1 IH1 r2 IH2|r1 IH1 r2 IH2|r IH|r IH|i r IH| | ];
    intros st k Hst Hk; cbn [rmatch].
  - apply Hk, Hst.
  - destruct (m_rest st) as [|x rest] eqn:E; [reflexivity|].
    destruct (char_eqb _ _); [|reflexivity].
    apply Hk. simpl. inversion Hst; assumption.
  - destruct (m_rest st) as [|x rest] eqn:E; [reflexivity|].
    destruct (xorb _ _); [|reflexivity].
    apply Hk. simpl. inversion Hst; assumption.
  - apply IH1; [exact Hst|]. intros st' Hst'. apply IH2; assumption.
  - rewrite (IH1 st k Hst Hk). apply IH2; assumption.
  - generalize (S (length (m_rest st))). intros fuel. revert st Hst.
    induction fuel as [|fuel IHf]; intros st Hst; cbn [star_loop]; [apply Hk, Hst|].
    rewrite IH; [apply Hk, Hst|exact Hst|].
    intros st' Hst'. destruct (_ <? _)%nat; [|reflexivity]. apply IHf, Hst'.
  - rewrite (IH st k Hst Hk). apply Hk, Hst.
  - apply IH; [exact Hst|]. intros st' Hst'. apply Hk. exact Hst'.
  - destruct (at_word_boundary st); [apply Hk, Hst|reflexivity].
  - destruct (m_rest st) eqn:E; [|reflexivity]. apply Hk. rewrite E. exact Hst.
Qed.

Lemma percent_sign_needed (x : char) :
  x <> 37 -> char_eqb (canon true x) (canon true 37) = false.
Proof.
  intros Hx. unfold char_eqb. apply N.eqb_neq. change (canon true 37) with 37.
  unfold canon, is_lower. cbn [andb].
  destruct ((97 <=? x) && (x <=? 122)) eqn:E; [|exact Hx].
  apply andb_true_iff in E as [E1 E2]. apply N.leb_le in E1, E2. lia.
Qed.

Lemma rseq_needs_percent (pre post : list regex) :
  forall st k,
    Forall (fun c => c <> 37) (m_rest st) ->
    rmatch true (rseq (pre ++ RChar 37 :: post)) st k = None.
Proof.
  induction pre as [|r pre IH]; intros st k Hst.
  - cbn [app rseq fold_right rmatch].
    destruct (m_rest st) as [|x rest] eqn:E; [reflexivity|].
    inversion Hst; subst. rewrite percent_sign_needed by assumption. reflexivity.
  - cbn [app rseq fold_right rmatch].
    apply (rmatch_keeps (fun c => c <> 37)); [exact Hst|].
    intros st' Hst'. apply IH, Hst'.
Qed.

Lemma search_from_none (P : char -> Prop) (ic : bool) (r : regex) :
  (forall prev s, Forall P s -> match_at ic r prev s = None) ->
  forall s prev idx, Forall P s -> search_from ic r prev s idx = None.
Proof.
  intros Hr. induction s as [|c s IH]; intros prev idx Hs; cbn [search_from].
  - rewrite Hr by exact Hs. reflexivity.
  - rewrite Hr by exact Hs. inversion Hs; subst. apply IH. assumption.
Qed.

Lemma no_percent_no_match (rawText : jsstring) :
  Forall (fun c => c <> 37) rawText ->
  regex_match true percent_re rawText = None
  /\ regex_match true cap_re rawText = None.
Proof.
  intros H. split; apply (search_from_none (fun c => c <> 37)); try exact H;
    intros prev s Hs; unfold match_at.
  - apply (rseq_needs_percent [RGroup 1 decimal_re; RStar ws]). exact Hs.
  - apply (rseq_needs_percent
             [ralt [lit "cap"; lit "maximum"; lit "max";
                    rseq [lit "up"; RPlus ws; lit "to"];
                    rseq [lit "not"; RPlus ws; ROpt (rseq [lit "to"; RPlus ws]);
                          lit "exceed"]];
              RStar ws; ROpt (rseq [lit "of"; RStar ws]);
              RGroup 1 decimal_re; RStar ws] []). exact Hs.
Qed.

Lemma search_from_piece (ic : bool) (r : regex) :
  forall s prev idx m,
    search_from ic r prev s idx = Some m ->
    (idx <= mr_index m)%nat
    /\ exists n, mr_text m = firstn n (skipn (mr_index m - idx) s).
Proof.
  induction s as [|c s IH]; intros prev idx m H; cbn [search_from] in H.
  - destruct (match_at ic r prev []) eqn:E; [|discriminate].
    injection H as <-. cbn [mr_index mr_text]. split; [lia|].
    exists 0%nat. reflexivity.
  - destruct (match_at ic r prev (c :: s)) eqn:E.
    + injection H as <-. cbn [mr_index mr_text]. split; [lia|].
      rewrite Nat.sub_diag. eexists. reflexivity.
    + destruct (IH _ _ _ H) as [Hle [n Hn]]. split; [lia|].
      exists n. rewrite Hn.
      replace (mr_index m - idx)%nat with (S (mr_index m - S idx)) by lia.
      reflexivity.
Qed.

Lemma ld_scan_cases now rnd (patterns : list regex) (rawText : jsstring) :
  (existsb (fun p => regex_test true p rawText) patterns = false
   /\ ld_scan now rnd patterns rawText = [])
  \/ exists p m,
       In p patterns /\ regex_match true p rawText = Some m
       /\ ld_scan now rnd patterns rawText = [ld_flag now rnd rawText m].
Proof.
  induction patterns as [|p ps IH]; cbn [ld_scan existsb]; [left; split; reflexivity|].
  unfold regex_test at 1.
  destruct (regex_match true p rawText) as [m|] eqn:E.
  - right. exists p, m. split; [left; reflexivity|]. split; [exact E|reflexivity].
  - destruct IH as [[H1 H2]|(q & m & Hq & Hm & Hs)].
    + left. split; assumption.
    + right. exists q, m. split; [right; exact Hq|]. split; assumption.
Qed.

(** X21. The liquidated-damages detector in general.  It reports
    nothing exactly when none of its six patterns matches, and never
    more than one finding.  The finding is of type liquidated damages
    and never of level low, and its extracted value is a contiguous
    piece of the text: the matched percentage when the text has one,
    the matched clause otherwise. *)
Theorem X21_ld_finding_shape :
  forall now rnd rawText,
    (detectLiquidatedDamages now rnd rawText = []
     <-> existsb (fun p => regex_test true p rawText) ldPatterns = false)
    /\ (length (detectLiquidatedDamages now rnd rawText) <= 1)%nat
    /\ (forall f,
          In f (detectLiquidatedDamages now rnd rawText) ->
          risk_type f = liquidated_damages
          /\ level f <> low
          /\ affectedRows f = None
          /\ exists i n, extractedValue f = Some (firstn n (skipn i rawText))).
Proof.
  intros now rnd rawText. unfold detectLiquidatedDamages.
  destruct (ld_scan_cases now rnd ldPatterns rawText)
    as [[H1 H2]|(p & m & Hp & Hm & Hs)].
  - rewrite H1, H2. split; [tauto|]. split; [simpl; lia|]. intros f [].
  - rewrite Hs. split.
    { split; [discriminate|]. intros H. exfalso.
      assert (Ht : existsb (fun p => regex_test true p rawText) ldPatterns = true).
      { apply existsb_exists. exists p. split; [exact Hp|].
        unfold regex_test. rewrite Hm. reflexivity. }
      congruence. }
    split; [simpl; lia|].
    intros f [<-|[]]. unfold ld_flag. cbn [risk_type level affectedRows extractedValue].
    split; [reflexivity|]. split.
    { destruct (regex_match true cap_re rawText) as [cm|];
        [destruct (num_gtb _ _); [discriminate|]|];
        (destruct (regex_match true percent_re rawText) as [pm|];
         [unfold percent_level; destruct (num_geb _ _); [discriminate|];
          destruct (num_geb _ _); discriminate|discriminate]). }
    split; [reflexivity|].
    destruct (regex_match true percent_re rawText) as [pm|] eqn:Epm.
    + destruct (search_from_piece _ _ _ _ _ _ Epm) as [_ [n Hn]].
      exists (mr_index pm - 0)%nat, n. rewrite Hn. reflexivity.
    + destruct (search_from_piece _ _ _ _ _ _ Hm) as [_ [n Hn]].
      exists (mr_index m - 0)%nat, n. rewrite Hn. reflexivity.
Qed.

(** X22. A text without a percent sign.  Neither the percentage
    pattern nor the cap pattern can match it, so a finding of the
    liquidated-damages detector is then of level high, carries the
    plain title without cap note and the non-critical recommendation,
    and extracts the clause matched by the first of the six patterns
    that matches: no pattern before it in the list matches. *)
Theorem X22_ld_without_percent_sign_is_high :
  forall now rnd rawText,
    forallb (fun c => negb (c =? 37)) rawText = true ->
    regex_match true percent_re rawText = None
    /\ regex_match true cap_re rawText = None
    /\ forall f,
         In f (detectLiquidatedDamages now rnd rawText) ->
         level f = high
         /\ title f = js "Liquidated Damages Clause Detected"
         /\ recommendation f
            = js "⚠️ Review LD terms with legal/commercial team. Ensure delivery timeline is achievable with buffer."
         /\ exists pre p post m,
              ldPatterns = pre ++ p :: post
              /\ Forall (fun q => regex_match true q rawText = None) pre
              /\ regex_match true p rawText = Some m
              /\ extractedValue f = Some (mr_text m).
Proof.
  intros now rnd rawText H.
  assert (HP : Forall (fun c => c <> 37) rawText).
  { apply List.Forall_forall. intros c Hc. rewrite forallb_forall in H.
    specialize (H c Hc). apply negb_true_iff, N.eqb_neq in H. exact H. }
  destruct (no_percent_no_match rawText HP) as [Hpm Hcm].
  split; [exact Hpm|]. split; [exact Hcm|].
  intros f Hf. unfold detectLiquidatedDamages in Hf.
  destruct (ld_scan_first now rnd ldPatterns rawText)
    as [[_ H2]|(pre & p & post & m & Hsplit & Hpre & Hm & Hs)].
  - rewrite H2 in Hf. destruct Hf.
  - rewrite Hs in Hf. destruct Hf as [<-|[]].
    unfold ld_flag. rewrite Hpm, Hcm.
    cbn [level title recommendation extractedValue level_eqb].
    split; [reflexivity|]. split; [apply app_nil_r|]. split; [reflexivity|].
    exists pre, p, post, m. auto.
Qed.

Lemma X22_ld_without_percent_sign_is_high_witness :
  map level (detectLiquidatedDamages 0 [] (js "Liquidated damages apply to late delivery"))
  = [high].
Proof.
  destruct (X22_ld_without_percent_sign_is_high 0 []
              (js "Liquidated damages apply to late delivery") eq_refl)
    as (_ & _ & Hf).
  destruct (detectLiquidatedDamages 0 [] (js "Liquidated damages apply to late delivery"))
    as [|f [|g rest]] eqn:E; [vm_compute in E; discriminate| |vm_compute in E; discriminate].
  cbn [map]. rewrite (proj1 (Hf f (or_introl eq_refl))). reflexivity.
Defined.

(** ** Incoterms: one finding per code *)

Lemma incoterm_scan_In now table upper f :
  In f (incoterm_scan now table upper)
  <-> exists term info m,
        In (term, info) table
        /\ regex_match true (incoterm_re term) upper = Some m
        /\ f = incoterm_flag now term info m.
Proof.
  induction table as [|[term info] table IH]; cbn [incoterm_scan].
  - split; [intros []|intros (? & ? & ? & [] & _)].
  - destruct (regex_match true (incoterm_re term) upper) as [m|] eqn:E.
    + cbn [In]. rewrite IH. split.
      * intros [<-|(t & i & m' & Hin & Hm & Hf)].
        -- exists term, info, m. split; [left; reflexivity|]. split; [exact E|reflexivity].
        -- exists t, i, m'. split; [right; exact Hin|]. split; assumption.
      * intros (t & i & m' & [Hin|Hin] & Hm & Hf).
        -- inversion Hin; subst. left. congruence.
        -- right. exists t, i, m'. split; [exact Hin|]. split; assumption.
    + rewrite IH. split.
      * intros (t & i & m' & Hin & Hm & Hf).
        exists t, i, m'. split; [right; exact Hin|]. split; assumption.
      * intros (t & i & m' & [Hin|Hin] & Hm & Hf).
        -- inversion Hin; subst. congruence.
        -- exists t, i, m'. split; [exact Hin|]. split; assumption.
Qed.

Lemma incoterm_scan_length now table upper :
  length (incoterm_scan now table upper)
  = length (List.filter (fun e => regex_test true (incoterm_re (fst e)) upper) table).
Proof.
  induction table as [|[term info] table IH]; cbn [incoterm_scan List.filter fst];
    [reflexivity|].
  unfold regex_test at 1.
  destruct (regex_match true (incoterm_re term) upper); cbn [length]; rewrite IH;
    reflexivity.
Qed.

(** X23. The Incoterms detector, for any text.  A finding is reported
    for a code of the table exactly when the pattern of the code
    matches the upper-cased text, one finding per such code, built
    from the leftmost match; the implied-DDP finding is the only other
    finding there can be, reported exactly when the phrase matches the
    text as given and no code finding has an extracted value
    containing DDP.  So there are never more than twelve findings;
    all are of type Incoterms, name no rows and carry an extracted
    value. *)
Theorem X23_incoterm_findings_one_per_code :
  forall toUpperCase now rawText,
    let upper := toUpperCase rawText in
    (forall f,
       In f (detectIncoterms toUpperCase now rawText)
       <-> (exists term info m,
              In (term, info) INCOTERMS_DATA
              /\ regex_match true (incoterm_re term) upper = Some m
              /\ f = incoterm_flag now term info m)
           \/ (f = ddp_phrase_flag now
               /\ regex_test true ddp_phrase_re rawText = true
               /\ forall r v,
                    In r (incoterm_scan now INCOTERMS_DATA upper) ->
                    extractedValue r = Some v -> includes v (js "DDP") = false))
    /\ length (incoterm_scan now INCOTERMS_DATA upper)
       = length (List.filter (fun e => regex_test true (incoterm_re (fst e)) upper)
                   INCOTERMS_DATA)
    /\ (length (detectIncoterms toUpperCase now rawText) <= 12)%nat
    /\ Forall (fun f => risk_type f = incoterms /\ affectedRows f = None
                        /\ extractedValue f <> None)
              (detectIncoterms toUpperCase now rawText).
Proof.
  intros toUpperCase now rawText upper.
  assert (Hlen : (length (incoterm_scan now INCOTERMS_DATA upper) <= 11)%nat).
  { rewrite incoterm_scan_length.
    etransitivity; [apply filter_length_le|]. apply Nat.eq_le_incl. reflexivity. }
  assert (Hshape : Forall (fun f => risk_type f = incoterms /\ affectedRows f = None
                                    /\ extractedValue f <> None)
                     (incoterm_scan now INCOTERMS_DATA upper)).
  { apply List.Forall_forall. intros f Hf.
    apply incoterm_scan_In in Hf as (t & i & m & _ & _ & ->).
    repeat split. discriminate. }
  unfold detectIncoterms. fold upper.
  destruct (regex_test true ddp_phrase_re rawText
            && negb (existsb mentions_DDP (incoterm_scan now INCOTERMS_DATA upper)))
    eqn:E.
  - apply andb_true_iff in E as [E1 E2]. apply negb_true_iff in E2.
    split; [|split; [apply incoterm_scan_length|split]].
    + intros f. rewrite in_app_iff, incoterm_scan_In. cbn [In]. split.
      * intros [H|[<-|[]]]; [left; exact H|right].
        split; [reflexivity|]. split; [exact E1|].
        exact (proj1 (mentions_DDP_spec _) E2).
      * intros [H|(-> & _)]; [left; exact H|right; left; reflexivity].
    + rewrite length_app. cbn [length]. lia.
    + apply Forall_app. split; [exact Hshape|].
      constructor; [|constructor]. repeat split. discriminate.
  - split; [|split; [apply incoterm_scan_length|split]].
    + intros f. rewrite incoterm_scan_In. split; [intros H; left; exact H|].
      intros [H|(_ & E1 & E2)]; [exact H|].
      rewrite E1, (proj2 (mentions_DDP_spec _) E2) in E. discriminate.
    + lia.
    + exact Hshape.
Qed.

Lemma incoterm_match_starts (term upper : jsstring) (m : MatchResult) :
  Forall (fun c => is_lower c = false) term ->
  Forall (fun c => is_space c = false) term ->
  term <> [] ->
  Forall (fun c => is_lower c = false) upper ->
  regex_match true (incoterm_re term) upper = Some m ->
  startsWith term (trim (mr_text m)) = true.
Proof.
  intros Hlow Hsp Hne Hup Hm.
  destruct (search_from_inv _ _ _ _ _ _ _ Hm Hup) as (prev & s' & st' & Hs' & Hat & Htext).
  unfold match_at in Hat.
  rewrite incoterm_re_shape, rmatch_RSeq, rmatch_RWordB in Hat.
  destruct (at_word_boundary _); [|discriminate].
  apply literal_prefix_match in Hat; [|exact Hlow|exact Hs'|exact shrinks_Some].
  destruct Hat as [Hstart Hlen]. cbn [m_rest] in Hstart, Hlen.
  apply trim_keeps_prefix; [exact Hsp|exact Hne|].
  rewrite Htext. apply startsWith_firstn; [exact Hstart|lia].
Qed.

Lemma INCOTERMS_DATA_codes :
  Forall (fun e => Forall (fun c => is_lower c = false) (fst e)
                   /\ Forall (fun c => is_space c = false) (fst e)
                   /\ fst e <> [])
         INCOTERMS_DATA.
Proof.
  assert (H : forallb (fun e => forallb (fun c => negb (is_lower c) && negb (is_space c))
                                        (fst e)
                                && negb (length (fst e) =? 0)%nat)
                      INCOTERMS_DATA = true) by (vm_compute; reflexivity).
  rewrite forallb_forall in H. apply List.Forall_forall. intros e He.
  specialize (H e He). apply andb_true_iff in H as [H1 H2].
  rewrite forallb_forall in H1.
  split; [|split].
  - apply List.Forall_forall. intros c Hc. specialize (H1 c Hc).
    apply andb_true_iff in H1 as [H1 _]. apply negb_true_iff, H1.
  - apply List.Forall_forall. intros c Hc. specialize (H1 c Hc).
    apply andb_true_iff in H1 as [_ H1]. apply negb_true_iff, H1.
  - intros Hnil. rewrite Hnil in H2. discriminate.
Qed.

(** X24. With an upper-casing that leaves no lower-case ASCII letter,
    the extracted value of the finding for a code begins with the code
    itself, and the detector reports at most one critical finding:
    the finding for the code DDP and the implied-DDP finding never
    appear together. *)
Theorem X24_incoterm_value_begins_with_code :
  forall toUpperCase now rawText,
    (forall s, Forall (fun c => is_lower c = false) (toUpperCase s)) ->
    (forall term info m,
       In (term, info) INCOTERMS_DATA ->
       regex_match true (incoterm_re term) (toUpperCase rawText) = Some m ->
       exists v, extractedValue (incoterm_flag now term info m) = Some v
                 /\ startsWith term v = true)
    /\ (count_level critical (detectIncoterms toUpperCase now rawText) <= 1)%nat.
Proof.
  intros toUpperCase now rawText Hup.
  split.
  { intros term info m Hin Hm. eexists. split; [reflexivity|].
    pose proof INCOTERMS_DATA_codes as Hc. rewrite List.Forall_forall in Hc.
    destruct (Hc _ Hin) as (H1 & H2 & H3). cbn [fst] in *.
    apply (incoterm_match_starts term (toUpperCase rawText) m); auto. }
  destruct INCOTERMS_DATA_split as [Hsplit Hothers].
  assert (Hfirst : count_level critical
                     (incoterm_scan now (firstn 10 INCOTERMS_DATA) (toUpperCase rawText))
                   = 0%nat).
  { apply incoterm_scan_not_critical. apply List.Forall_forall. intros e He.
    rewrite forallb_forall in Hothers. apply negb_true_iff, Hothers, He. }
  assert (Hscan : incoterm_scan now INCOTERMS_DATA (toUpperCase rawText)
                  = incoterm_scan now (firstn 10 INCOTERMS_DATA) (toUpperCase rawText)
                    ++ incoterm_scan now [ddp_entry] (toUpperCase rawText)).
  { rewrite Hsplit at 1. apply incoterm_scan_app. }
  unfold detectIncoterms. cbv zeta. rewrite !Hscan.
  unfold ddp_entry. cbn [incoterm_scan].
  destruct (regex_match true (incoterm_re (js "DDP")) (toUpperCase rawText))
    as [m|] eqn:Hm.
  - assert (Hmention : mentions_DDP
                         (incoterm_flag now (js "DDP")
                            (critical,
                             js "Delivered Duty Paid - Seller pays ALL costs including duties")
                            m) = true).
    { unfold mentions_DDP, incoterm_flag. cbn [extractedValue].
      apply (incoterm_match_mentions (js "DDP") (toUpperCase rawText) m);
        [repeat constructor|repeat constructor|discriminate|apply Hup|exact Hm]. }
    rewrite existsb_app. cbn [existsb]. rewrite Hmention, !orb_true_r, andb_false_r.
    rewrite count_level_app, Hfirst. unfold count_level. cbn. lia.
  - rewrite app_nil_r.
    destruct (_ && _); [rewrite count_level_app|]; rewrite Hfirst;
      unfold count_level; cbn; lia.
Qed.

Lemma X24_incoterm_value_begins_with_code_witness :
  (count_level critical
     (detectIncoterms ascii_upper 0 (js "Terms: DDP Shanghai - Delivered Duty Paid")) <= 1)%nat.
Proof.
  exact (proj2 (X24_incoterm_value_begins_with_code ascii_upper 0
                  (js "Terms: DDP Shanghai - Delivered Duty Paid") ascii_upper_no_lower)).
Defined.

(** ** Applying quantity fixes twice *)

Lemma find_fix_set_quantity fixes row q :
  find_fix fixes (set_quantity row q) = find_fix fixes row.
Proof. reflexivity. Qed.

Lemma row_after_apply_fix_idem fixes row :
  row_after (apply_fix fixes) (row_after (apply_fix fixes) row)
  = row_after (apply_fix fixes) row.
Proof.
  unfold row_after, apply_fix.
  destruct (find_fix fixes row) as [fx|] eqn:E.
  - rewrite find_fix_set_quantity, E. reflexivity.
  - rewrite E. reflexivity.
Qed.

Lemma applyQuantityFixes_report heap arr fixes :
  snd (applyQuantityFixes heap arr fixes)
  = flat_map
      (fun row =>
         match find_fix fixes row with
         | Some fx =>
             [ {| rem_rowNumber := rowNumber row; rem_field := f_quantity;
                  oldValue := number_or_null (quantity row);
                  newValue := VNum (fix_quantity fx);
                  rem_reason := fix_reason fx |} ]
         | None => []
         end)
      (deref heap arr)
  /\ fst (applyQuantityFixes heap arr fixes) = map_rows (apply_fix fixes) heap arr.
Proof.
  unfold applyQuantityFixes. destruct (map_rows (apply_fix fixes) heap arr).
  split; reflexivity.
Qed.

(** X25. [applyQuantityFixes] on its own.  The rows it returns are the
    given rows with the quantity of the first fix for their row number
    put in, and it reports one remediation per row that has a fix, in
    row order, with the quantity the row held before as old value.
    Applying the same fixes to the result changes no row, yet reports
    as many remediations again, each now with equal old and new
    value: the report counts the rows that have a fix, not the rows
    that change. *)
Theorem X25_quantity_fixes_are_idempotent_on_rows :
  forall heap arr fixes,
    Forall (fun l => (l < length heap)%nat) arr ->
    let r1 := applyQuantityFixes heap arr fixes in
    let r2 := applyQuantityFixes (fst (fst r1)) (snd (fst r1)) fixes in
    deref (fst (fst r1)) (snd (fst r1))
    = map (row_after (apply_fix fixes)) (deref heap arr)
    /\ map (fun m => (rem_rowNumber m, oldValue m)) (snd r1)
       = map (fun row => (rowNumber row, number_or_null (quantity row)))
             (List.filter (fun row => match find_fix fixes row with
                                      | Some _ => true | None => false end)
                          (deref heap arr))
    /\ deref (fst (fst r2)) (snd (fst r2)) = deref (fst (fst r1)) (snd (fst r1))
    /\ length (snd r2) = length (snd r1)
    /\ map oldValue (snd r2) = map newValue (snd r2).
Proof.
  intros heap arr fixes Harr r1 r2. subst r2 r1.
  destruct (applyQuantityFixes_report heap arr fixes) as [Hrep1 Hmap1].
  destruct (map_rows (apply_fix fixes) heap arr) as [h1 a1] eqn:E1.
  destruct (map_rows_spec _ _ _ _ _ Harr E1) as (Hfresh & Hshare & Hd1).
  pose proof (shared_or_fresh_bound _ _ _ _ _ Harr Hfresh Hshare) as Ha1.
  rewrite Hmap1. cbn [fst snd].
  destruct (applyQuantityFixes_report h1 a1 fixes) as [Hrep2 Hmap2].
  destruct (map_rows (apply_fix fixes) h1 a1) as [h2 a2] eqn:E2.
  destruct (map_rows_spec _ _ _ _ _ Ha1 E2) as (_ & _ & Hd2).
  rewrite Hmap2, Hrep1, Hrep2. cbn [fst snd]. rewrite Hd2, Hd1.
  split; [reflexivity|].
  split.
  { generalize (deref heap arr) as rs. clear - fixes.
    induction rs as [|row rs IH]; [reflexivity|].
    cbn [flat_map List.filter]. rewrite map_app, IH.
    destruct (find_fix fixes row); reflexivity. }
  split.
  { rewrite map_map. apply map_ext. intros row. apply row_after_apply_fix_idem. }
  split.
  { generalize (deref heap arr) as rs. clear - fixes.
    induction rs as [|row rs IH]; [reflexivity|].
    cbn [map flat_map]. rewrite !length_app, IH. f_equal.
    unfold row_after, apply_fix.
    destruct (find_fix fixes row) as [fx|] eqn:E.
    - rewrite find_fix_set_quantity, E. reflexivity.
    - rewrite E. reflexivity. }
  generalize (deref heap arr) as rs. clear - fixes.
  induction rs as [|row rs IH]; [reflexivity|].
  cbn [map flat_map]. rewrite !map_app, IH. f_equal.
  unfold row_after, apply_fix.
  destruct (find_fix fixes row) as [fx|] eqn:E.
  - rewrite find_fix_set_quantity, E. reflexivity.
  - rewrite E. reflexivity.
Qed.

Lemma X25_quantity_fixes_are_idempotent_on_rows_witness :
  length (snd (applyQuantityFixes (row_heap example_session) [0; 1; 2]%nat
                 [default_fix (Fin 9 0) (Fin 4 0)]))
  = length
      (snd (applyQuantityFixes
              (fst (fst (applyQuantityFixes (row_heap example_session) [0; 1; 2]%nat
                           [default_fix (Fin 9 0) (Fin 4 0)])))
              (snd (fst (applyQuantityFixes (row_heap example_session) [0; 1; 2]%nat
                           [default_fix (Fin 9 0) (Fin 4 0)])))
              [default_fix (Fin 9 0) (Fin 4 0)])).
Proof.
  assert (Hb : Forall (fun l => (l < length (row_heap example_session))%nat)
                 [0; 1; 2]%nat).
  { repeat constructor; simpl; lia. }
  destruct (X25_quantity_fixes_are_idempotent_on_rows (row_heap example_session)
              [0; 1; 2]%nat [default_fix (Fin 9 0) (Fin 4 0)] Hb) as (_ & _ & _ & H & _).
  symmetry. exact H.
Defined.

(** ** Name of the corrected file *)

Lemma extension_re_shape :
  extension_re
  = RSeq (RChar 46)
         (RSeq (RSeq extension_class (RStar extension_class)) (RSeq REnd REps)).
Proof. reflexivity. Qed.

Lemma extension_class_step (st : mstate) (k : mstate -> option mstate) :
  rmatch false extension_class st k
  = match m_rest st with
    | x :: rest => if extension_unit x then k (advance x rest st) else None
    | [] => None
    end.
Proof.
  unfold extension_class, extension_unit. cbn [rmatch].
  destruct (m_rest st) as [|x rest]; [reflexivity|].
  unfold class_mem. cbn [existsb item_mem canon andb char_eqb].
  rewrite orb_false_r. unfold char_eqb.
  destruct (x =? 47); destruct (x =? 46); reflexivity.
Qed.

(** The greedy loop takes a whole run of extension units when the
    rest of the pattern accepts the end of the run. *)
Lemma extension_star_takes_all (k : mstate -> option mstate) (caps : list (nat * jsstring)) :
  forall ext prev fuel,
    forallb extension_unit ext = true ->
    (length ext < fuel)%nat ->
    k {| m_prev := last_char prev ext; m_rest := []; m_caps := caps |} <> None ->
    star_loop (rmatch false extension_class) k fuel
      {| m_prev := prev; m_rest := ext; m_caps := caps |}
    = k {| m_prev := last_char prev ext; m_rest := []; m_caps := caps |}.
Proof.
  induction ext as [|x ext IH]; intros prev fuel Hok Hfuel Hk.
  - destruct fuel as [|fuel]; [reflexivity|].
    cbn [star_loop]. rewrite extension_class_step. reflexivity.
  - destruct fuel as [|fuel]; [simpl in Hfuel; lia|].
    cbn [forallb] in Hok. apply andb_true_iff in Hok as [Hx Hok].
    cbn [star_loop]. rewrite extension_class_step. cbn [m_rest]. rewrite Hx.
    unfold advance. cbn [m_rest m_caps].
    replace (length ext <? length (x :: ext))%nat with true
      by (symmetry; apply Nat.ltb_lt; simpl; lia).
    cbn [last_char] in *. simpl in Hfuel.
    rewrite (IH (Some x) fuel Hok) by (try lia; exact Hk).
    destruct (k _) eqn:E; [reflexivity|congruence].
Qed.

(** The loop fails while a dot is still ahead and the rest of the
    pattern fails on every such input. *)
Lemma extension_star_stops_at_dot (k : mstate -> option mstate) :
  (forall st, In 46 (m_rest st) -> k st = None) ->
  forall fuel st,
    In 46 (m_rest st) ->
    star_loop (rmatch false extension_class) k fuel st = None.
Proof.
  intros Hk. induction fuel as [|fuel IH]; intros st Hst; cbn [star_loop];
    [apply Hk, Hst|].
  rewrite extension_class_step.
  destruct (m_rest st) as [|x rest] eqn:E; [destruct Hst|].
  destruct (extension_unit x) eqn:Hx.
  - assert (Hrest : In 46 rest).
    { destruct Hst as [H46|H]; [|exact H]. subst x. vm_compute in Hx. discriminate. }
    replace (length (m_rest (advance x rest st)) <? length (x :: rest))%nat with true
      by (symmetry; apply Nat.ltb_lt; simpl; lia).
    rewrite IH by exact Hrest. apply Hk. rewrite E. exact Hst.
  - apply Hk. rewrite E. exact Hst.
Qed.

Lemma extension_fails_before_last_dot (prev : option char) (x : char) (t : jsstring) :
  In 46 t -> match_at false extension_re prev (x :: t) = None.
Proof.
  intros Ht. unfold match_at. rewrite extension_re_shape. cbn [rmatch m_rest canon andb].
  destruct (char_eqb x 46); [|reflexivity].
  rewrite extension_class_step. cbn [advance m_rest].
  destruct t as [|y t]; [reflexivity|].
  destruct (extension_unit y) eqn:Hy; [|reflexivity].
  assert (Hrest : In 46 t).
  { destruct Ht as [H46|H]; [|exact H]. subst y. vm_compute in Hy. discriminate. }
  apply extension_star_stops_at_dot; [|exact Hrest].
  intros st Hst. destruct (m_rest st); [destruct Hst|reflexivity].
Qed.

Lemma extension_matches_at_last_dot (prev : option char) (ext : jsstring) :
  ext <> [] -> forallb extension_unit ext = true ->
  exists st', match_at false extension_re prev (46 :: ext) = Some st'
              /\ m_rest st' = [] /\ m_caps st' = [].
Proof.
  intros Hne Hok. destruct ext as [|y ext]; [congruence|].
  cbn [forallb] in Hok. apply andb_true_iff in Hok as [Hy Hok].
  unfold match_at. rewrite extension_re_shape. cbn [rmatch m_rest canon andb char_eqb].
  change (46 =? 46) with true. cbv iota.
  rewrite extension_class_step. cbn [advance m_rest m_caps]. rewrite Hy.
  rewrite (extension_star_takes_all _ [] ext (Some y) (S (length ext)) Hok);
    [|lia|discriminate].
  eexists. split; [reflexivity|]. split; reflexivity.
Qed.

Lemma extension_search (ext : jsstring) :
  ext <> [] -> forallb extension_unit ext = true ->
  forall stem prev idx,
    exists m,
      search_from false extension_re prev (stem ++ 46 :: ext) idx = Some m
      /\ mr_index m = (idx + length stem)%nat /\ mr_text m = 46 :: ext.
Proof.
  intros Hne Hok. induction stem as [|x stem IH]; intros prev idx.
  - destruct (extension_matches_at_last_dot prev ext Hne Hok) as (st' & Hm & Hr & Hc).
    cbn [app search_from]. rewrite Hm. eexists. split; [reflexivity|].
    cbn [mr_index mr_text]. split; [simpl; lia|].
    rewrite Hr. cbn [length]. rewrite Nat.sub_0_r. apply (firstn_all (46 :: ext)).
  - cbn [app search_from].
    rewrite extension_fails_before_last_dot by (apply in_or_app; right; left; reflexivity).
    destruct (IH (Some x) (S idx)) as (m & Hm & Hi & Ht).
    exists m. split; [exact Hm|]. split; [rewrite Hi; simpl; lia|exact Ht].
Qed.

(** X26. The name under which a corrected file is offered.  When the
    original name ends in a dot followed by at least one code unit,
    none of them a dot or a slash, everything from that last dot on is
    dropped and [_corrected.xlsx] is put after what remains, however
    many dots the remainder holds.  A name without any dot keeps all
    of its text before the suffix. *)
Theorem X26_corrected_name_drops_last_extension :
  forall stem ext,
    ext <> [] ->
    forallb extension_unit ext = true ->
    replace_first_empty false extension_re (stem ++ [46] ++ ext) = stem
    /\ (forall now rnd store rows_ref mapping remediations,
          download_fileName
            (fst (storeFixedRows now rnd store rows_ref mapping (stem ++ [46] ++ ext)
                    remediations))
          = stem ++ js "_corrected.xlsx")
    /\ (forallb (fun c => negb (c =? 46)) stem = true ->
        replace_first_empty false extension_re stem = stem).
Proof.
  intros stem ext Hne Hok.
  assert (Hstem : replace_first_empty false extension_re (stem ++ [46] ++ ext) = stem).
  { unfold replace_first_empty, regex_match.
    destruct (extension_search ext Hne Hok stem None 0%nat) as (m & Hm & Hi & Ht).
    cbn [app]. rewrite Hm, Hi, Ht. cbn [Nat.add].
    rewrite firstn_app, Nat.sub_diag, firstn_all. cbn [firstn]. rewrite app_nil_r.
    rewrite skipn_all2; [apply app_nil_r|].
    apply Nat.eq_le_incl, length_app. }
  split; [exact Hstem|]. split.
  - intros. unfold storeFixedRows. cbn [fst download_fileName]. rewrite Hstem. reflexivity.
  - intros Hdot. unfold replace_first_empty, regex_match.
    rewrite (search_from_none (fun c => c <> 46)); [reflexivity| |].
    + intros prev s Hs. unfold match_at. rewrite extension_re_shape. cbn [rmatch m_rest].
      destruct s as [|x s]; [reflexivity|]. inversion Hs; subst.
      cbn [canon andb]. unfold char_eqb.
      destruct (x =? 46) eqn:E; [|reflexivity]. apply N.eqb_eq in E. contradiction.
    + apply List.Forall_forall. intros c Hc. rewrite forallb_forall in Hdot.
      specialize (Hdot c Hc). apply negb_true_iff, N.eqb_neq in Hdot. exact Hdot.
Qed.

Lemma X26_corrected_name_drops_last_extension_witness :
  replace_first_empty false extension_re (js "bom.v2" ++ [46] ++ js "xlsx") = js "bom.v2".
Proof.
  apply (X26_corrected_name_drops_last_extension (js "bom.v2") (js "xlsx")).
  - discriminate.
  - reflexivity.
Defined.

(** ** Whole numbers through the normalizers *)

Lemma digits_value_fold (d : Decimal.uint) :
  forall acc,
    fold_left (fun acc c => (acc * 10 + Z.of_N (c - 48))%Z) (digits_of_uint d) acc
    = (acc * 10 ^ Z.of_N (DecimalPos.Unsigned.usize d)
       + Z.of_N (DecimalPos.Unsigned.of_lu (Decimal.rev d)))%Z.
Proof.
  induction d; intros acc; cbn [digits_of_uint fold_left DecimalPos.Unsigned.usize];
    [simpl; lia|..];
    unfold Decimal.rev; cbn [Decimal.revapp];
    match goal with |- context [Decimal.revapp d ?d'] =>
      rewrite (DecimalPos.Unsigned.of_lu_revapp d d') end;
    fold (Decimal.rev d); rewrite IHd;
    cbn [DecimalPos.Unsigned.of_lu];
    rewrite N2Z.inj_add, N2Z.inj_mul, N2Z.inj_pow, N2Z.inj_succ,
      Z.pow_succ_r by apply N2Z.is_nonneg;
    match goal with |- context [Z.of_N (?c - 48)] =>
      let v := eval vm_compute in (Z.of_N (c - 48)) in
      change (Z.of_N (c - 48)) with v end;
    match goal with
    | |- context [Z.of_N (?c + 10 * 0)] =>
        let v := eval vm_compute in (Z.of_N (c + 10 * 0)) in
        change (Z.of_N (c + 10 * 0)) with v
    | |- context [Z.of_N (10 * 0)] => change (Z.of_N (10 * 0)) with 0%Z
    end;
    change (Z.of_N 10) with 10%Z; ring.
Qed.

Lemma digits_value_of_N (n : N) : digits_value (digits_of_N n) = Z.of_N n.
Proof.
  unfold digits_value, digits_of_N. rewrite digits_value_fold.
  rewrite <- DecimalPos.Unsigned.of_uint_alt.
  change (Pos.of_uint (N.to_uint n)) with (N.of_uint (N.to_uint n)).
  rewrite DecimalN.Unsigned.of_to. lia.
Qed.

Lemma digit_cases (c : char) :
  is_digit c = true ->
  c = 48 \/ c = 49 \/ c = 50 \/ c = 51 \/ c = 52 \/ c = 53 \/ c = 54 \/ c = 55
  \/ c = 56 \/ c = 57.
Proof.
  unfold is_digit. intros H. apply andb_true_iff in H as [H1 H2].
  apply N.leb_le in H1, H2. lia.
Qed.

Lemma digits_of_uint_digits (u : Decimal.uint) :
  forallb is_digit (digits_of_uint u) = true.
Proof. induction u; cbn [digits_of_uint forallb]; rewrite ?IHu; reflexivity. Qed.

Lemma digits_of_N_nonempty (n : N) : digits_of_N n <> [].
Proof.
  unfold digits_of_N. destruct n as [|p]; [discriminate|].
  cbn [N.to_uint]. pose proof (DecimalPos.Unsigned.to_uint_nonnil p) as H.
  destruct (Pos.to_uint p); [congruence|discriminate..].
Qed.

Lemma span_digits_all (s : jsstring) :
  forallb is_digit s = true -> span_digits s = (s, []).
Proof.
  induction s as [|c s IH]; [reflexivity|]. cbn [forallb span_digits].
  intros H. apply andb_true_iff in H as [Hc Hs]. rewrite Hc, (IH Hs). reflexivity.
Qed.

Lemma remove_class_digits (cls : char -> bool) (s : jsstring) :
  (forall c, is_digit c = true -> cls c = false) ->
  forallb is_digit s = true -> remove_class cls s = s.
Proof.
  intros Hcls. unfold remove_class. induction s as [|c s IH]; [reflexivity|].
  cbn [forallb List.filter]. intros H. apply andb_true_iff in H as [Hc Hs].
  rewrite (Hcls c Hc), (IH Hs). reflexivity.
Qed.

Lemma digit_is_no_noise (c : char) :
  is_digit c = true ->
  quantity_noise c = false /\ price_noise c = false /\ paren c = false
  /\ is_space c = false.
Proof.
  intros H. apply digit_cases in H.
  repeat (destruct H as [->|H]; [repeat split; reflexivity|]).
  subst c. repeat split; reflexivity.
Qed.

Lemma parseFloat_digits (s : jsstring) :
  s <> [] -> forallb is_digit s = true -> parseFloat s = Fin (digits_value s) 0.
Proof.
  intros Hne Hd. destruct s as [|c s]; [congruence|].
  pose proof Hd as Hall. cbn [forallb] in Hd. apply andb_true_iff in Hd as [Hc Hs].
  unfold parseFloat. cbn [trimStart].
  rewrite (proj2 (proj2 (proj2 (digit_is_no_noise c Hc)))).
  assert (Hbody : forall t : jsstring,
             t = c :: s ->
             (if startsWith (js "Infinity") t then Inf false
              else match parse_unsigned t with
                   | Some (m, e) => Fin m e
                   | None => NaN
                   end) = Fin (digits_value (c :: s)) 0).
  { intros t ->.
    assert (Hinf : startsWith (js "Infinity") (c :: s) = false).
    { apply digit_cases in Hc.
      repeat (destruct Hc as [->|Hc]; [reflexivity|]). subst c. reflexivity. }
    rewrite Hinf. unfold parse_unsigned. rewrite (span_digits_all _ Hall). reflexivity. }
  apply digit_cases in Hc.
  repeat (destruct Hc as [->|Hc]; [apply Hbody; reflexivity|]).
  subst c. apply Hbody. reflexivity.
Qed.

Lemma parseFloat_digits_of_N (n : N) : parseFloat (digits_of_N n) = Fin (Z.of_N n) 0.
Proof.
  rewrite parseFloat_digits.
  - rewrite digits_value_of_N. reflexivity.
  - apply digits_of_N_nonempty.
  - apply digits_of_uint_digits.
Qed.

Lemma strip_zeros_spec (l : list char) :
  forall e rd e',
    strip_zeros l e = (rd, e') ->
    (e <= e')%Z /\ l = repeat 48 (Z.to_nat (e' - e)) ++ rd.
Proof.
  induction l as [|c l IH]; intros e rd e' H.
  - inversion H; subst. rewrite Z.sub_diag. split; [lia|reflexivity].
  - destruct (N.eq_dec c 48) as [->|Hne].
    + cbn [strip_zeros] in H. destruct (IH _ _ _ H) as [Hle Hl]. split; [lia|].
      replace (Z.to_nat (e' - e)) with (S (Z.to_nat (e' - (e + 1)))) by lia.
      cbn [repeat app]. rewrite <- Hl. reflexivity.
    + assert (Hs : strip_zeros (c :: l) e = (c :: l, e)).
      { destruct c as [|p]; [reflexivity|].
        do 7 (try (destruct p as [p|p|]; try reflexivity; try congruence)). }
      rewrite Hs in H. inversion H; subst. rewrite Z.sub_diag. split; [lia|reflexivity].
Qed.

Lemma numToString_whole (n : N) :
  (length (digits_of_N n) <= 21)%nat ->
  numToString (Fin (Z.of_N n) 0) = digits_of_N n.
Proof.
  intros Hlen. cbn [numToString]. unfold finite_to_string.
  destruct n as [|p]; [reflexivity|].
  change (Z.of_N (N.pos p) =? 0)%Z with false. cbv iota.
  change (Z.abs_N (Z.of_N (N.pos p))) with (N.pos p).
  destruct (strip_zeros (rev (digits_of_N (N.pos p))) 0) as [rd e'] eqn:E.
  destruct (strip_zeros_spec _ _ _ _ E) as [Hle Hl].
  rewrite Z.sub_0_r in Hl.
  assert (Hd : digits_of_N (N.pos p) = rev rd ++ repeat 48 (Z.to_nat e')).
  { rewrite <- (rev_involutive (digits_of_N (N.pos p))), Hl, rev_app_distr.
    f_equal. clear. induction (Z.to_nat e') as [|k IH]; [reflexivity|].
    cbn [repeat rev]. rewrite IH. clear. induction k; [reflexivity|].
    cbn [repeat app]. rewrite IHk. reflexivity. }
  change (Z.of_N (N.pos p) <? 0)%Z with false. cbv iota. cbn [app].
  rewrite Hd, length_app, repeat_length in Hlen.
  replace ((Z.of_nat (length (rev rd)) <=? Z.of_nat (length (rev rd)) + e')%Z
           && (Z.of_nat (length (rev rd)) + e' <=? 21)%Z) with true.
  - rewrite Hd. f_equal. f_equal. lia.
  - symmetry. apply andb_true_iff. split; apply Z.leb_le; lia.
Qed.

(** X27. Whole numbers pass the normalizers unchanged.  A whole number
    of at most 15 digits (the range in which every decimal is a
    double) is printed as its plain digits, so a numeric cell holding
    it is read by [parseQuantity] and by [parsePrice] as that same
    number; so is a text cell holding its digits, also with a currency
    sign in front for a price; and a row whose mapped quantity column
    holds such a number gets it as its quantity. *)
Theorem X27_whole_numbers_are_read_exactly :
  forall n : N,
    (length (digits_of_N n) <= 15)%nat ->
    numToString (Fin (Z.of_N n) 0) = digits_of_N n
    /\ parseQuantity (VNum (Fin (Z.of_N n) 0)) = Some (Fin (Z.of_N n) 0)
    /\ parsePrice (VNum (Fin (Z.of_N n) 0)) = Some (Fin (Z.of_N n) 0)
    /\ parseQuantity (VStr (digits_of_N n)) = Some (Fin (Z.of_N n) 0)
    /\ parsePrice (VStr (js "$" ++ digits_of_N n)) = Some (Fin (Z.of_N n) 0)
    /\ (forall mapping row index c col,
          cm_quantity mapping = Some (c :: col) ->
          row_get row (c :: col) = VNum (Fin (Z.of_N n) 0) ->
          quantity (materialize_row mapping row index) = Some (Fin (Z.of_N n) 0)).
Proof.
  intros n Hlen.
  assert (Hstr : numToString (Fin (Z.of_N n) 0) = digits_of_N n)
    by (apply numToString_whole; lia).
  pose proof (digits_of_uint_digits (N.to_uint n)) as Hdig.
  fold (digits_of_N n) in Hdig.
  assert (Hq : remove_class quantity_noise (digits_of_N n) = digits_of_N n).
  { apply remove_class_digits; [|exact Hdig]. intros c Hc.
    apply (digit_is_no_noise c Hc). }
  assert (Hp : remove_class paren (remove_class price_noise (digits_of_N n))
               = digits_of_N n).
  { rewrite (remove_class_digits price_noise), (remove_class_digits paren);
      try exact Hdig; try reflexivity; intros c Hc; apply (digit_is_no_noise c Hc). }
  assert (HqN : parseQuantity (VNum (Fin (Z.of_N n) 0)) = Some (Fin (Z.of_N n) 0)).
  { unfold parseQuantity. cbn [is_blank ToString]. rewrite Hstr, Hq.
    rewrite parseFloat_digits_of_N. reflexivity. }
  split; [exact Hstr|]. split; [exact HqN|]. split.
  { unfold parsePrice. cbn [is_blank ToString]. rewrite Hstr, Hp.
    rewrite parseFloat_digits_of_N. reflexivity. }
  split.
  { unfold parseQuantity. cbn [ToString]. rewrite Hq, parseFloat_digits_of_N.
    destruct (digits_of_N n) eqn:E; [|reflexivity].
    exfalso. exact (digits_of_N_nonempty n E). }
  split.
  { unfold parsePrice. cbn [ToString is_blank].
    change (remove_class price_noise (js "$" ++ digits_of_N n))
      with (remove_class price_noise (digits_of_N n)).
    rewrite Hp, parseFloat_digits_of_N. reflexivity. }
  intros mapping row index c col Hmap Hrow.
  cbn [materialize_row quantity]. rewrite Hmap. cbn [or_empty]. rewrite Hrow. exact HqN.
Qed.

Lemma X27_whole_numbers_are_read_exactly_witness :
  parseQuantity (VNum (Fin 1500 0)) = Some (Fin 1500 0).
Proof.
  assert (Hlen : (length (digits_of_N 1500) <= 15)%nat) by (vm_compute; lia).
  exact (proj1 (proj2 (X27_whole_numbers_are_read_exactly 1500 Hlen))).
Defined.

